(** * The chat turn of the agent backend: route, manual tool loop, SSE stream

    A shallow embedding of

      - [backend/src/utils/stream.ts]   (sendSSE and its five wrappers),
      - [backend/src/models/memory.ts]  (BufferMemory),
      - [backend/src/types/chat.ts]     (ChatRequestSchema),
      - [backend/src/models/llm.ts]     (createLLM),
      - [backend/src/models/agent.ts]   (createAgent, the custom executor),
      - [backend/src/routes/chat.ts]    (chatRoute),

    followed by the properties of one turn.

    Of [agent.ts] the revision with the custom executor for Gemini is the
    one embedded (the earlier one calls the model once, without tools), and
    of [chat.ts] the revision whose handler commits [response.output] as it
    is returned.

    LangChain, zod, fastify and the model providers are not part of the
    repository.  What the code needs of them is gathered in one record,
    [External].  Of LangChain's [CallbackManager] the following is used.
    The object built by [CallbackManager.fromHandlers] has a method
    [handleToolStart], which calls the handler of that name before it
    resolves; it has no property [handleLLMNewToken] and no property
    [handleToolEnd], which are methods of the run managers a manager
    creates; LangChain's own executor reports its run to the handlers the
    manager was built from.  [llmWithTools.invoke] is taken not to call
    [handleLLMNewToken] itself, as the comment at its call says.  Building
    LangChain's agent in [createAgent] is taken to succeed.

    Asynchronous code is run to completion in program order: every [await]
    of the sources is on a promise that the same function waits for, so a
    turn is one sequential computation.  It is written in a monad [M] that
    threads the store (the state of the outside world and the session map),
    carries JavaScript exceptions, and records what the turn does to its
    environment as a list of observations. *)

From Stdlib Require Import ZArith Lia.
From stdpp Require Import base option list gmap strings.

Local Open Scope Z_scope.
Local Open Scope nat_scope.

(** ** JavaScript values *)

(** The values that cross the boundaries of the code: request bodies, model
    response contents, tool arguments and tool results.  A string is the list
    of its code units. *)
#[warnings="-register-all"]
Inductive JSValue : Type :=
| JUndefined
| JNull
| JBool (b : bool)
| JNum (n : Z)
| JStr (s : string)
| JArr (items : list JSValue)
| JObj (fields : list (string * JSValue)).

(** What a [throw] carries: an [Error] object with its message, or any other
    value. *)
Inductive JSThrown : Type :=
| ErrorObject (message : string)
| ThrownValue (v : JSValue).

(** How an evaluation ends. *)
Inductive Outcome (A : Type) : Type :=
| Normal (a : A)
| Thrown (e : JSThrown).
Arguments Normal {A} a.
Arguments Thrown {A} e.

Definition nonempty (s : string) : bool :=
  match s with EmptyString => false | String _ _ => true end.

(** [!!v] *)
Definition truthy (v : JSValue) : bool :=
  match v with
  | JUndefined | JNull => false
  | JBool b => b
  | JNum n => negb (n =? 0)%Z
  | JStr s => nonempty s
  | JArr _ | JObj _ => true
  end.

Fixpoint assoc (k : string) (fields : list (string * JSValue)) : JSValue :=
  match fields with
  | [] => JUndefined
  | (k', v) :: rest => if String.eqb k k' then v else assoc k rest
  end.

(** [v?.k] for the property names the code reads ([text], [message],
    [sessionId], [name]): none of them is defined on a primitive or an
    array. *)
Definition prop (v : JSValue) (k : string) : JSValue :=
  match v with
  | JObj fields => assoc k fields
  | _ => JUndefined
  end.

(** [error instanceof Error ? error.message : fallback] *)
Definition messageOr (fallback : string) (error : JSThrown) : string :=
  match error with
  | ErrorObject message => message
  | ThrownValue _ => fallback
  end.

(** ** Messages *)

Inductive Role : Type := user | assistant | system.

(** [ChatMessage] of types/chat.ts; the timestamp is a clock reading. *)
Record ChatMessage : Type := mkChatMessage {
  role : Role;
  content : string;
  timestamp : Z
}.

Record ToolCall : Type := mkToolCall {
  tc_name : option string;   (* [None]: the name is undefined *)
  tc_args : JSValue
}.

(** The LangChain messages the code builds; all of them with text content. *)
Inductive BaseMessage : Type :=
| HumanMessage (text : string)
| AIMessage (text : string) (tool_calls : option (list ToolCall))
| SystemMessage (text : string).

Definition messageContent (m : BaseMessage) : string :=
  match m with
  | HumanMessage t | AIMessage t _ | SystemMessage t => t
  end.

(** What [llmWithTools.invoke] resolves to, as far as the executor reads
    it. *)
Record LLMResponse : Type := mkLLMResponse {
  response_content : JSValue;
  response_tool_calls : option (list ToolCall);       (* [None]: not an array *)
  response_invalid_tool_calls : option (list ToolCall) (* args are raw *)
}.

(** ** The environment of a turn *)

Record Tool (W : Type) : Type := mkTool {
  tool_name : string;
  tool_invoke : JSValue → W → Outcome JSValue * W
}.
Arguments mkTool {W} _ _.
Arguments tool_name {W} _.
Arguments tool_invoke {W} _ _ _.

(** A call that LangChain's own agent executor makes on the handlers it is
    given. *)
Inductive CallbackCall : Type :=
| OnLLMNewToken (token : string)
| OnToolStart (tool : JSValue) (input : JSValue)
| OnToolEnd (output : string).

(** Everything the sources import from outside the repository or read from
    the process, over a type [W] of states of the outside world. *)
Record External (W : Type) : Type := mkExternal {
  JSON_stringify : JSValue → string;
  JSON_parse : string → Outcome JSValue;
  (** [String(v)] for a [v] that is not a string *)
  String_of : JSValue → string;
  (** [new Date()] *)
  Date_now : W → Z;
  MODEL_PROVIDER : string;
  OPENAI_API_KEY : option string;
  GOOGLE_API_KEY : option string;
  (** [llmWithTools.invoke(messages, options)]; a resolved value that is
      undefined or null is [None].  The call is taken not to stream (agent.ts:
      "invoke() doesn't stream, so we'll manually stream the final
      response"). *)
  llm_invoke : list BaseMessage → W → Outcome (option LLMResponse) * W;
  (** the array exported by tools/index.ts *)
  tools : list (Tool W);
  (** LangChain's [AgentExecutor.invoke]: it reaches the reply only through
      the handlers of the callback manager *)
  agentExecutor_invoke :
    string → list BaseMessage → W → list CallbackCall * Outcome string * W
}.
Arguments JSON_stringify {W} _ _.
Arguments JSON_parse {W} _ _.
Arguments String_of {W} _ _.
Arguments Date_now {W} _ _.
Arguments MODEL_PROVIDER {W} _.
Arguments OPENAI_API_KEY {W} _.
Arguments GOOGLE_API_KEY {W} _.
Arguments llm_invoke {W} _ _ _.
Arguments tools {W} _.
Arguments agentExecutor_invoke {W} _ _ _ _.

(** One issue of a failed zod parse: where, and what was wrong. *)
Inductive ZodIssue : Type :=
| InvalidType (path : list string)
| TooSmall (path : list string) (message : string).

(** ** Observations *)

(** What a turn does that can be seen from outside, in the order it does
    it.  Of the console output only the lines that mark a control path are
    kept. *)
Inductive Obs : Type :=
| ObsSetHeader (name value : string)
    (* reply.raw.setHeader(name, value) *)
| ObsSend (code : Z) (error : string) (details : list ZodIssue)
    (* reply.code(code).send({ error, details }) *)
| ObsSSE (event payload : string)
    (* reply.raw.write(`event: ${event}\ndata: ${payload}\n\n`) *)
| ObsEnd
    (* reply.raw.end() *)
| ObsAddMessage (sessionId : string) (msg : ChatMessage)
    (* memory.addMessage(sessionId, msg) *)
| ObsLLM (messages : list BaseMessage) (outcome : Outcome (option LLMResponse))
    (* llmWithTools.invoke(messages, options) and how it ended *)
| ObsTool (name : string) (args : JSValue) (outcome : Outcome JSValue)
    (* tool.invoke(toolArgs) and how it ended *)
| ObsNative (input : string) (outcome : Outcome string)
    (* agentExecutor.invoke(...) and how it ended *)
| ObsConsole (line : string).

(** The text [sendSSE] writes for a frame. *)
Definition newline : string := String (Ascii.ascii_of_nat 10) EmptyString.
Definition wire (event payload : string) : string :=
  "event: " +:+ event +:+ newline +:+ "data: " +:+ payload +:+ newline +:+ newline.

Section Backend.
Context {W : Type} (X : External W).

(** ** The monad of a turn *)

Record Store : Type := mkStore {
  world : W;
  sessions : gmap string (list ChatMessage)   (* memory.sessions *)
}.

Definition M (A : Type) : Type := Store → Outcome A * Store * list Obs.

Definition ret {A} (a : A) : M A := λ st, (Normal a, st, []).

Definition bind {A B} (m : M A) (k : A → M B) : M B := λ st,
  match m st with
  | (Normal a, st1, o1) =>
      match k a st1 with (r, st2, o2) => (r, st2, o1 ++ o2) end
  | (Thrown e, st1, o1) => (Thrown e, st1, o1)
  end.

Definition throw {A} (e : JSThrown) : M A := λ st, (Thrown e, st, []).

(** [try { m } catch (error) { handler }] *)
Definition try_catch {A} (m : M A) (handler : JSThrown → M A) : M A := λ st,
  match m st with
  | (Normal a, st1, o1) => (Normal a, st1, o1)
  | (Thrown e, st1, o1) =>
      match handler e st1 with (r, st2, o2) => (r, st2, o1 ++ o2) end
  end.

Definition emit (o : Obs) : M unit := λ st, (Normal tt, st, [o]).

(** A pure evaluation that may throw. *)
Definition lift {A} (r : Outcome A) : M A := λ st, (r, st, []).

Notation "'let*' x ':=' m 'in' k" := (bind m (λ x, k))
  (at level 10, x name, m at level 100, k at level 200).
Notation "m '>>' k" := (bind m (λ _, k))
  (at level 100, k at level 200, right associativity).

Fixpoint mapM {A B} (f : A → M B) (l : list A) : M (list B) :=
  match l with
  | [] => ret []
  | a :: rest =>
      let* b := f a in
      let* bs := mapM f rest in
      ret (b :: bs)
  end.

Definition console (line : string) : M unit := emit (ObsConsole line).

(** ** utils/stream.ts *)

Inductive SSEData : Type :=
| DataString (s : string)
| DataObject (v : JSValue).

Definition sendSSE (event : string) (data : SSEData) : M unit :=
  let payload :=
    match data with
    | DataString s => s
    | DataObject v => JSON_stringify X v
    end in
  emit (ObsSSE event payload).

Definition sendToken (token : string) : M unit :=
  sendSSE "token" (DataString token).

Definition sendToolCall (toolName : JSValue) (input : JSValue) : M unit :=
  sendSSE "tool_call" (DataObject (JObj [("tool", toolName); ("input", input)])).

Definition sendToolResult (result : string) : M unit :=
  sendSSE "tool_result" (DataString result).

Definition sendError (error : string) : M unit :=
  sendSSE "error" (DataObject (JObj [("error", JStr error)])).

Definition sendDone : M unit :=
  sendSSE "done" (DataObject (JObj [])) >>
  emit ObsEnd.

(** ** models/memory.ts *)

Definition getHistory (sessionId : string) : M (list ChatMessage) := λ st,
  (Normal (default [] (sessions st !! sessionId)), st, []).

Definition memory_addMessage (sessionId : string) (message : ChatMessage) : M unit :=
  let* history := getHistory sessionId in
  λ st,
    (Normal tt,
     mkStore (world st) (<[sessionId := history ++ [message]]> (sessions st)),
     [ObsAddMessage sessionId message]).

Definition getLangChainMessages (sessionId : string) : M (list BaseMessage) :=
  let* history := getHistory sessionId in
  ret (map (λ msg,
              match role msg with
              | user => HumanMessage (content msg)
              | assistant => AIMessage (content msg) None
              | system => SystemMessage (content msg)
              end) history).

Definition newDate : M Z := λ st, (Normal (Date_now X (world st)), st, []).

(** ** types/chat.ts *)

(** [ChatRequestSchema.safeParse(body)] for
    [z.object({ message: z.string().min(1, 'Message cannot be empty'),
                sessionId: z.string().optional() })]:
    the issues, or the parsed [message] and [sessionId]. *)
Definition ChatRequestSchema_safeParse (body : JSValue)
  : list ZodIssue + (string * option string) :=
  match body with
  | JObj fields =>
      let message :=
        match assoc "message" fields with
        | JStr s =>
            if nonempty s then inr s
            else inl [TooSmall ["message"] "Message cannot be empty"]
        | _ => inl [InvalidType ["message"]]
        end in
      let sessionId :=
        match assoc "sessionId" fields with
        | JUndefined => inr None
        | JStr s => inr (Some s)
        | _ => inl [InvalidType ["sessionId"]]
        end in
      match message, sessionId with
      | inr m, inr s => inr (m, s)
      | inl i, inr _ => inl i
      | inr _, inl j => inl j
      | inl i, inl j => inl (i ++ j)
      end
  | _ => inl [InvalidType []]
  end.

(** ** models/llm.ts *)

Definition missing (key : option string) : bool :=
  match key with
  | None => true
  | Some k => negb (nonempty k)
  end.

(** [createLLM()]: the model object itself is [llm_invoke]; what matters
    here is whether the factory throws. *)
Definition createLLM : M unit :=
  let provider := MODEL_PROVIDER X in
  if String.eqb provider "openai" then
    if missing (OPENAI_API_KEY X)
    then throw (ErrorObject "OPENAI_API_KEY is required when using OpenAI provider")
    else ret tt
  else if String.eqb provider "gemini" then
    if missing (GOOGLE_API_KEY X)
    then throw (ErrorObject "GOOGLE_API_KEY is required when using Gemini provider")
    else ret tt
  else throw (ErrorObject ("Unsupported model provider: " +:+ provider)).

(** ** LangChain's callback manager *)

(** A handler object, as [CallbackManager.fromHandlers] takes one: its
    methods [handleLLMNewToken(token)], [handleToolStart(tool, input)] and
    [handleToolEnd(output)]. *)
Record Handlers : Type := mkHandlers {
  onLLMNewToken : string → M unit;
  onToolStart : JSValue → JSValue → M unit;
  onToolEnd : string → M unit
}.

(** [options.callbacks]: what a lookup of the three names gives on the
    object, which is how the custom executor uses it, and the handlers
    registered with it, which LangChain's own executor calls. *)
Record Callbacks : Type := mkCallbacks {
  handleLLMNewToken : option (string → M unit);
  handleToolStart : option (JSValue → JSValue → M unit);
  handleToolEnd : option (string → M unit);
  handlers : option Handlers
}.

(** [CallbackManager.fromHandlers(h)].  The manager has a method
    [handleToolStart], which passes the call on to the handler.  It has no
    property [handleLLMNewToken] and no property [handleToolEnd]: these
    two lookups give [undefined]. *)
Definition fromHandlers (h : Handlers) : Callbacks := {|
  handleLLMNewToken := None;
  handleToolStart := Some (onToolStart h);
  handleToolEnd := None;
  handlers := Some h
|}.

(** ** models/agent.ts *)

(** [options?.callbacks?.h] *)
Definition handler {H} (h : Callbacks → option H) (callbacks : option Callbacks)
  : option H :=
  match callbacks with
  | Some c => h c
  | None => None
  end.

Record ExecutorInput : Type := mkInput {
  input : string;
  chat_history : list BaseMessage
}.

Definition maxIterations : nat := 5.

(** [new Map(tools.map(tool => [tool.name, tool]))]: a later tool of the
    same name replaces an earlier one. *)
Definition toolMap : gmap string (Tool W) :=
  foldl (λ m tool, <[tool_name tool := tool]> m) ∅ (tools X).

Definition toolMap_get (toolName : option string) : option (Tool W) :=
  match toolName with
  | Some n => toolMap !! n
  | None => None
  end.

(** [`${toolName}`] *)
Definition show (toolName : option string) : string :=
  match toolName with
  | Some n => n
  | None => "undefined"
  end.

(** [String(v)] *)
Definition String_ (v : JSValue) : string :=
  match v with
  | JStr s => s
  | _ => String_of X v
  end.

Fixpoint join (sep : string) (l : list string) : string :=
  match l with
  | [] => EmptyString
  | [s] => s
  | s :: rest => s +:+ sep +:+ join sep rest
  end.

(** "Extract content safely" *)
Definition extractContent (content : JSValue) : string :=
  match content with
  | JUndefined | JNull => EmptyString
  | JStr s => s
  | JArr items =>
      let texts :=
        map (λ item,
               match item with
               | JStr s => item
               | JUndefined => JUndefined   (* JSON.stringify(undefined) *)
               | _ => if truthy (prop item "text") then prop item "text"
                      else JStr (JSON_stringify X item)
               end) items in
      join " " (map String_ (filter (λ s, truthy s = true) texts))
  | JObj _ =>
      if truthy (prop content "text") then String_ (prop content "text")
      else JSON_stringify X content
  | JBool _ | JNum _ => String_ content
  end.

(** [invalid_tool_calls.map(invalid => ({ name: invalid.name, args: typeof
    invalid.args === 'string' ? JSON.parse(invalid.args) : invalid.args }))];
    [JSON.parse] is not guarded here. *)
Fixpoint coerceInvalid (invalid_tool_calls : list ToolCall)
  : Outcome (list ToolCall) :=
  match invalid_tool_calls with
  | [] => Normal []
  | invalid :: rest =>
      let parsed :=
        match tc_args invalid with
        | JStr s => JSON_parse X s
        | args => Normal args
        end in
      match parsed with
      | Thrown e => Thrown e
      | Normal args =>
          match coerceInvalid rest with
          | Thrown e => Thrown e
          | Normal calls => Normal (mkToolCall (tc_name invalid) args :: calls)
          end
      end
  end.

(** "Check for tool calls": [tool_calls] when it is a non-empty array, else
    the entries of [invalid_tool_calls], coerced. *)
Definition collectToolCalls (response : LLMResponse) : Outcome (list ToolCall) :=
  let toolCalls :=
    match response_tool_calls response with
    | Some (c :: cs) => c :: cs
    | _ => []
    end in
  match toolCalls, response_invalid_tool_calls response with
  | [], Some invalid_tool_calls => coerceInvalid invalid_tool_calls
  | _, _ => Normal toolCalls
  end.

(** [for (let i = 0; i < text.length; i++) await h(text[i])] *)
Fixpoint forEachChar (h : string → M unit) (text : string) : M unit :=
  match text with
  | EmptyString => ret tt
  | String c rest => h (String c EmptyString) >> forEachChar h rest
  end.

(** The branch [toolCalls.length === 0]: "this is the final response". *)
Definition finalResponse (callbacks : option Callbacks) (responseContent : string)
  : M string :=
  (match handler handleLLMNewToken callbacks, nonempty responseContent with
   | Some h, true =>
       try_catch (forEachChar h responseContent)
                 (λ streamError, console "[Gemini Executor] Error streaming:")
   | _, _ => ret tt
   end) >>
  ret (if nonempty responseContent then responseContent
       else "I apologize, but I could not generate a response.").

(** "Parse args - could be string or object" *)
Definition parseArgs (args : JSValue) : JSValue :=
  match args with
  | JStr s =>
      match JSON_parse X s with
      | Normal v => v
      | Thrown _ => JObj [("query", JStr s)]
      end
  | _ => if truthy args then args else JObj []
  end.

(** The tool object as a handler sees it: it reads [tool?.name] only. *)
Definition toolView (tool : option (Tool W)) : JSValue :=
  match tool with
  | Some t => JObj [("name", JStr (tool_name t))]
  | None => JUndefined
  end.

(** [await tool.invoke(toolArgs)] *)
Definition invokeTool (tool : Tool W) (toolArgs : JSValue) : M JSValue := λ st,
  match tool_invoke tool toolArgs (world st) with
  | (outcome, w) =>
      (outcome, mkStore w (sessions st), [ObsTool (tool_name tool) toolArgs outcome])
  end.

(** The body of [for (const toolCall of toolCalls)]; every path pushes one
    message on [toolResults], which is the value returned here. *)
Definition executeTool (callbacks : option Callbacks) (toolCall : ToolCall)
  : M BaseMessage :=
  let toolName := tc_name toolCall in
  let toolArgs := parseArgs (tc_args toolCall) in
  let tool := toolMap_get toolName in
  (match handler handleToolStart callbacks with
   | Some h => h (toolView tool) toolArgs
   | None => ret tt
   end) >>
  match tool with
  | Some t =>
      try_catch
        (let* result := invokeTool t toolArgs in
         let resultStr := String_ result in
         (match handler handleToolEnd callbacks with
          | Some h => h resultStr
          | None => ret tt
          end) >>
         ret (AIMessage ("Tool " +:+ show toolName +:+ " returned: " +:+ resultStr) None))
        (λ error,
           let errorMsg := messageOr "Tool execution failed" error in
           console "[Gemini Executor] Tool error:" >>
           ret (AIMessage ("Tool " +:+ show toolName +:+ " error: " +:+ errorMsg) None))
  | None =>
      let errorMsg := "Tool " +:+ show toolName +:+ " not found" in
      console ("[Gemini Executor] " +:+ errorMsg) >>
      ret (AIMessage ("Tool " +:+ show toolName +:+ " error: " +:+ errorMsg) None)
  end.

(** [await llmWithTools.invoke(messages, options)] *)
Definition llmWithTools_invoke (messages : list BaseMessage)
  : M (option LLMResponse) := λ st,
  match llm_invoke X messages (world st) with
  | (outcome, w) => (outcome, mkStore w (sessions st), [ObsLLM messages outcome])
  end.

(** How one pass through the body of the [while] ends: with a [return], or
    at its closing brace with the new value of [messages]. *)
Inductive Pass : Type :=
| Return (output : string)
| Continue (messages : list BaseMessage).

Definition pass (callbacks : option Callbacks) (messages : list BaseMessage)
  : M Pass :=
  let* attempt :=
    try_catch
      (let* response := llmWithTools_invoke messages in ret (Some response))
      (λ error, console "[Gemini Executor] Error invoking LLM:" >> ret None) in
  match attempt with
  | None =>
      ret (Return "I encountered an error processing your request. Please try again.")
  | Some None =>
      console "[Gemini Executor] No response from LLM" >>
      ret (Return "I did not receive a response. Please try again.")
  | Some (Some response) =>
      let responseContent := extractContent (response_content response) in
      let* toolCalls := lift (collectToolCalls response) in
      match toolCalls with
      | [] =>
          let* output := finalResponse callbacks responseContent in
          ret (Return output)
      | _ :: _ =>
          let* toolResults := mapM (executeTool callbacks) toolCalls in
          let aiMessage := AIMessage responseContent (Some toolCalls) in
          ret (Continue (messages ++ [aiMessage] ++ toolResults))
      end
  end.

(** "Max iterations reached - return last response" *)
Definition maxIterationsReached (callbacks : option Callbacks)
    (messages : list BaseMessage) : M string :=
  console "[Gemini Executor] Max iterations reached" >>
  let lastContent :=
    match last messages with
    | Some lastResponse => messageContent lastResponse
    | None => EmptyString
    end in
  let finalOutput := lastContent in
  (match handler handleLLMNewToken callbacks, nonempty finalOutput with
   | Some h, true => forEachChar h finalOutput
   | _, _ => ret tt
   end) >>
  ret (if nonempty finalOutput then finalOutput
       else "I reached the maximum number of tool calls. Please try a simpler query.").

(** [while (iterations < maxIterations) { iterations++; ... }] and what
    follows it, entered with [remaining = maxIterations - iterations]: the
    guard holds exactly when [remaining] is positive.  The value of
    [messages] when the function returns is kept next to its output. *)
Fixpoint executorLoop (callbacks : option Callbacks) (remaining : nat)
    (messages : list BaseMessage) : M (list BaseMessage * string) :=
  match remaining with
  | 0 =>
      let* output := maxIterationsReached callbacks messages in
      ret (messages, output)
  | S remaining' =>
      let* p := pass callbacks messages in
      match p with
      | Return output => ret (messages, output)
      | Continue messages' => executorLoop callbacks remaining' messages'
      end
  end.

(** The custom executor's [invoke]. *)
Definition gemini_run (i : ExecutorInput) (callbacks : option Callbacks)
  : M (list BaseMessage * string) :=
  let messages := chat_history i ++ [HumanMessage (input i)] in
  let iterations := 0 in
  executorLoop callbacks (maxIterations - iterations) messages.

Definition gemini_invoke (i : ExecutorInput) (callbacks : option Callbacks)
  : M string :=
  let* r := gemini_run i callbacks in
  ret (snd r).

(** LangChain's [AgentExecutor]: its calls on the handlers registered with
    the callback manager it is given, then its result. *)
Definition replay (callbacks : option Callbacks) (c : CallbackCall) : M unit :=
  match handler handlers callbacks with
  | Some h =>
      match c with
      | OnLLMNewToken token => onLLMNewToken h token
      | OnToolStart tool i => onToolStart h tool i
      | OnToolEnd output => onToolEnd h output
      end
  | None => ret tt
  end.

Definition agentExecutor (i : ExecutorInput)
  : M (list CallbackCall * Outcome string) := λ st,
  match agentExecutor_invoke X (input i) (chat_history i) (world st) with
  | (calls, outcome, w) => (Normal (calls, outcome), mkStore w (sessions st), [])
  end.

Definition openai_invoke (i : ExecutorInput) (callbacks : option Callbacks)
  : M string :=
  let* run := agentExecutor i in
  let* _ := mapM (replay callbacks) (fst run) in
  emit (ObsNative (input i) (snd run)) >>
  lift (snd run).

Record Agent : Type := mkAgent {
  executor_invoke : ExecutorInput → option Callbacks → M string;
  agent_getHistory : M (list BaseMessage);
  agent_addMessage : Role → string → M unit
}.

Definition createAgent (sessionId : string) : M Agent :=
  let* llm := createLLM in
  let provider := MODEL_PROVIDER X in
  let getHistory := getLangChainMessages sessionId in
  let addMessage := λ role content,
    let* timestamp := newDate in
    memory_addMessage sessionId (mkChatMessage role content timestamp) in
  if String.eqb provider "openai"
  then ret (mkAgent openai_invoke getHistory addMessage)
  else ret (mkAgent gemini_invoke getHistory addMessage).

(** ** routes/chat.ts *)

(** The handler object of the route. *)
Definition routeHandlers : Handlers := {|
  onLLMNewToken := λ token, sendToken token;
  onToolStart := λ tool i,
    let toolName :=
      if truthy (prop tool "name") then prop tool "name"
      else match tool with
           | JStr s => tool
           | _ => JStr "unknown"
           end in
    sendToolCall toolName i;
  onToolEnd := λ output, sendToolResult output
|}.

Definition callbackManager : Callbacks := fromHandlers routeHandlers.

(** The [try] block of the handler. *)
Definition turn (message sessionId : string) : M unit :=
  let* agent := createAgent sessionId in
  agent_addMessage agent user message >>
  let* history := agent_getHistory agent in
  let* output := executor_invoke agent (mkInput message history) (Some callbackManager) in
  agent_addMessage agent assistant output >>
  sendDone.

Definition chatRoute (body : JSValue) : M unit :=
  match ChatRequestSchema_safeParse body with
  | inl errors => emit (ObsSend 400 "Invalid request" errors)
  | inr (message, sessionId) =>
      let sessionId := default "default" sessionId in
      emit (ObsSetHeader "Content-Type" "text/event-stream") >>
      emit (ObsSetHeader "Cache-Control" "no-cache") >>
      emit (ObsSetHeader "Connection" "keep-alive") >>
      emit (ObsSetHeader "Access-Control-Allow-Origin" "*") >>
      try_catch
        (turn message sessionId)
        (λ error,
           console "Chat error:" >>
           sendError (messageOr "Unknown error occurred" error) >>
           sendDone)
  end.

End Backend.

Arguments chatRoute {W} X body st.
Arguments turn {W} X message sessionId st.
Arguments executorLoop {W} X callbacks remaining messages st.
Arguments gemini_run {W} X i callbacks st.
Arguments gemini_invoke {W} X i callbacks st.
Arguments pass {W} X callbacks messages st.
Arguments executeTool {W} X callbacks toolCall st.
Arguments callbackManager {W} X.
Arguments routeHandlers {W} X.
Arguments mkStore {W} world sessions.
Arguments world {W} s.
Arguments sessions {W} s.

(** ** Views of a turn's observations *)

(** The frames written on the reply, as (event, payload). *)
Definition frames (obs : list Obs) : list (string * string) :=
  omap (λ o, match o with ObsSSE event payload => Some (event, payload) | _ => None end) obs.

(** The payloads of the [token] frames. *)
Definition tokens (obs : list Obs) : list string :=
  omap (λ o, match o with
             | ObsSSE event payload =>
                 if String.eqb event "token" then Some payload else None
             | _ => None
             end) obs.

(** The message lists the completion engine was called with. *)
Definition llmCalls (obs : list Obs) : list (list BaseMessage) :=
  omap (λ o, match o with ObsLLM messages _ => Some messages | _ => None end) obs.

(** The tool executions, as (name, arguments). *)
Definition toolRuns (obs : list Obs) : list (string * JSValue) :=
  omap (λ o, match o with ObsTool name args _ => Some (name, args) | _ => None end) obs.

(** The messages committed to the conversation store. *)
Definition commits (obs : list Obs) : list (string * ChatMessage) :=
  omap (λ o, match o with ObsAddMessage sessionId msg => Some (sessionId, msg) | _ => None end) obs.

(** How the completion calls ended. *)
Definition llmOutcomes (obs : list Obs) : list (Outcome (option LLMResponse)) :=
  omap (λ o, match o with ObsLLM _ outcome => Some outcome | _ => None end) obs.

Definition isLLM (o : Obs) : bool :=
  match o with ObsLLM _ _ => true | _ => false end.

Definition concat_strings (l : list string) : string :=
  foldr String.append EmptyString l.

Definition observations {A S : Type} (r : A * S * list Obs) : list Obs := r.2.
Definition finalStore {A S : Type} (r : A * S * list Obs) : S := r.1.2.

(** The session as (role, content) pairs. *)
Definition transcript {W} (st : Store (W:=W)) (sessionId : string) : list (Role * string) :=
  map (λ m, (role m, content m)) (default [] (sessions st !! sessionId)).

(** ** Concrete turns *)

Module Scenario.

Definition stringify (v : JSValue) : string :=
  match v with
  | JObj [] => "{}"
  | JObj ((k, JStr s) :: _) => "{" +:+ k +:+ ": " +:+ s +:+ "}"
  | _ => "[value]"
  end.

Definition parse (s : string) : Outcome JSValue :=
  if String.eqb s "{}" then Normal (JObj [])
  else Thrown (ErrorObject "Unexpected token in JSON").

(** A registry with a lookup tool that answers "X" and a tool that throws. *)
Definition lookup : Tool nat :=
  mkTool "lookup" (λ args w, (Normal (JStr "X"), w)).
Definition boom : Tool nat :=
  mkTool "boom" (λ args w, (Thrown (ErrorObject "kaput"), w)).

(** The outside world is the number of completions requested so far; the
    completion engine answers the n-th request with [script n]. *)
Definition external (script : nat → Outcome (option LLMResponse)) : External nat := {|
  JSON_stringify := stringify;
  JSON_parse := parse;
  String_of := λ _, "[object]";
  Date_now := λ w, Z.of_nat w;
  MODEL_PROVIDER := "gemini";
  OPENAI_API_KEY := None;
  GOOGLE_API_KEY := Some "key";
  llm_invoke := λ messages w, (script w, S w);
  tools := [lookup; boom];
  agentExecutor_invoke := λ i history w, ([], Normal i, w)
|}.

Definition text (s : string) : Outcome (option LLMResponse) :=
  Normal (Some (mkLLMResponse (JStr s) (Some []) (Some []))).
Definition call (name : string) : Outcome (option LLMResponse) :=
  Normal (Some (mkLLMResponse (JStr EmptyString)
                              (Some [mkToolCall (Some name) (JObj [])]) None)).
Definition malformed : Outcome (option LLMResponse) :=
  Normal (Some (mkLLMResponse (JStr EmptyString) (Some [])
                              (Some [mkToolCall (Some "lookup") (JStr "{oops")]))).

Definition request (message : string) : JSValue := JObj [("message", JStr message)].
Definition fresh : Store (W:=nat) := mkStore 0 ∅.

(** A: the engine answers "4" at once. *)
Definition plain := external (λ _, text "4").
(** B: a lookup, then the answer built on its result. *)
Definition lookupThenAnswer :=
  external (λ n, match n with 0 => call "lookup" | _ => text "Answer based on X" end).
(** C: the engine cannot be reached. *)
Definition unreachable := external (λ _, Thrown (ErrorObject "fetch failed")).
(** The engine returns an empty text and no tool call. *)
Definition silent := external (λ _, text EmptyString).
(** The engine asks for the throwing tool once, then answers. *)
Definition boomThenAnswer :=
  external (λ n, match n with 0 => call "boom" | _ => text "ok" end).
(** The engine asks for the throwing tool in every round. *)
Definition alwaysBoom := external (λ _, call "boom").
(** The engine asks for a tool that is not registered, in every round. *)
Definition alwaysGhost := external (λ _, call "ghost").
(** The engine asks for the lookup tool in every round. *)
Definition alwaysLookup := external (λ _, call "lookup").
(** The engine returns an invalid tool call whose arguments do not parse. *)
Definition garbled := external (λ _, malformed).

(** The native strategy, with an executor that streams two tokens and then
    rejects. *)
Definition rejecting : External nat := {|
  JSON_stringify := stringify;
  JSON_parse := parse;
  String_of := λ _, "[object]";
  Date_now := λ w, Z.of_nat w;
  MODEL_PROVIDER := "openai";
  OPENAI_API_KEY := Some "key";
  GOOGLE_API_KEY := None;
  llm_invoke := λ messages w, (Normal None, w);
  tools := [];
  agentExecutor_invoke := λ i history w,
    ([OnLLMNewToken "So"; OnLLMNewToken "rry"],
     Thrown (ErrorObject "429 Too Many Requests"), S w)
|}.

End Scenario.

(** ** The runs of the custom executor under the route's callback manager

    Of the three handlers the executor finds [handleToolStart] on the
    manager, and that callback does not throw, so a run of the executor is
    determined by what the completion engine and the tools do.  The
    relations below list the paths through [executeTool], [pass] and
    [executorLoop]; each function is shown to follow one of them. *)

Section Runs.
Context {W : Type} (X : External W).

Definition withWorld (st : Store (W:=W)) (w : W) : Store := mkStore w (sessions st).

(** The name in a [tool_call] frame: [tool?.name || 'unknown']. *)
Definition shownName (tool : option (Tool W)) : JSValue :=
  match tool with
  | Some t => if nonempty (tool_name t) then JStr (tool_name t) else JStr "unknown"
  | None => JStr "unknown"
  end.

Definition toolCallFrame (tool : option (Tool W)) (args : JSValue) : Obs :=
  ObsSSE "tool_call"
         (JSON_stringify X (JObj [("tool", shownName tool); ("input", args)])).

Definition returnedText (toolName : option string) (resultStr : string) : string :=
  "Tool " +:+ show toolName +:+ " returned: " +:+ resultStr.
Definition errorText (toolName : option string) (errorMsg : string) : string :=
  "Tool " +:+ show toolName +:+ " error: " +:+ errorMsg.
Definition notFound (toolName : option string) : string :=
  "Tool " +:+ show toolName +:+ " not found".

Inductive ToolRun (tc : ToolCall) (st : Store (W:=W))
  : BaseMessage → Store (W:=W) → list Obs → Prop :=
| tool_returned t v w :
    toolMap_get X (tc_name tc) = Some t →
    tool_invoke t (parseArgs X (tc_args tc)) (world st) = (Normal v, w) →
    ToolRun tc st
      (AIMessage (returnedText (tc_name tc) (String_ X v)) None)
      (withWorld st w)
      [toolCallFrame (Some t) (parseArgs X (tc_args tc));
       ObsTool (tool_name t) (parseArgs X (tc_args tc)) (Normal v)]
| tool_threw t e w :
    toolMap_get X (tc_name tc) = Some t →
    tool_invoke t (parseArgs X (tc_args tc)) (world st) = (Thrown e, w) →
    ToolRun tc st
      (AIMessage (errorText (tc_name tc) (messageOr "Tool execution failed" e)) None)
      (withWorld st w)
      [toolCallFrame (Some t) (parseArgs X (tc_args tc));
       ObsTool (tool_name t) (parseArgs X (tc_args tc)) (Thrown e);
       ObsConsole "[Gemini Executor] Tool error:"]
| tool_missing :
    toolMap_get X (tc_name tc) = None →
    ToolRun tc st
      (AIMessage (errorText (tc_name tc) (notFound (tc_name tc))) None)
      st
      [toolCallFrame None (parseArgs X (tc_args tc));
       ObsConsole ("[Gemini Executor] " +:+ notFound (tc_name tc))].

Inductive ToolsRun : list ToolCall → Store (W:=W)
  → list BaseMessage → Store (W:=W) → list Obs → Prop :=
| tools_nil st : ToolsRun [] st [] st []
| tools_cons tc tcs st m st1 o1 ms st2 o2 :
    ToolRun tc st m st1 o1 →
    ToolsRun tcs st1 ms st2 o2 →
    ToolsRun (tc :: tcs) st (m :: ms) st2 (o1 ++ o2).

Definition llmFailed : string :=
  "I encountered an error processing your request. Please try again.".
Definition noResponse : string :=
  "I did not receive a response. Please try again.".
Definition fallback : string :=
  "I apologize, but I could not generate a response.".

(** [responseContent || fallback] *)
Definition answer (responseContent : string) : string :=
  if nonempty responseContent then responseContent else fallback.

Inductive PassRun (messages : list BaseMessage) (st : Store (W:=W))
  : Outcome Pass → Store (W:=W) → list Obs → Prop :=
| pass_llm_failed e w :
    llm_invoke X messages (world st) = (Thrown e, w) →
    PassRun messages st (Normal (Return llmFailed)) (withWorld st w)
      [ObsLLM messages (Thrown e); ObsConsole "[Gemini Executor] Error invoking LLM:"]
| pass_no_response w :
    llm_invoke X messages (world st) = (Normal None, w) →
    PassRun messages st (Normal (Return noResponse)) (withWorld st w)
      [ObsLLM messages (Normal None); ObsConsole "[Gemini Executor] No response from LLM"]
| pass_malformed response e w :
    llm_invoke X messages (world st) = (Normal (Some response), w) →
    collectToolCalls X response = Thrown e →
    PassRun messages st (Thrown e) (withWorld st w)
      [ObsLLM messages (Normal (Some response))]
| pass_final response w :
    llm_invoke X messages (world st) = (Normal (Some response), w) →
    collectToolCalls X response = Normal [] →
    PassRun messages st
      (Normal (Return (answer (extractContent X (response_content response)))))
      (withWorld st w)
      [ObsLLM messages (Normal (Some response))]
| pass_tools response w tc tcs results st' o :
    llm_invoke X messages (world st) = (Normal (Some response), w) →
    collectToolCalls X response = Normal (tc :: tcs) →
    ToolsRun (tc :: tcs) (withWorld st w) results st' o →
    PassRun messages st
      (Normal (Continue
         (messages
            ++ [AIMessage (extractContent X (response_content response)) (Some (tc :: tcs))]
            ++ results)))
      st'
      (ObsLLM messages (Normal (Some response)) :: o).

Definition lastContent (messages : list BaseMessage) : string :=
  match last messages with
  | Some lastResponse => messageContent lastResponse
  | None => EmptyString
  end.

Definition exhausted : string :=
  "I reached the maximum number of tool calls. Please try a simpler query.".

Definition maxIterationsLine : Obs :=
  ObsConsole "[Gemini Executor] Max iterations reached".

Inductive LoopRun : nat → list BaseMessage → Store (W:=W)
  → Outcome (list BaseMessage * string) → Store (W:=W) → list Obs → Prop :=
| loop_exhausted messages st :
    LoopRun 0 messages st
      (Normal (messages,
               if nonempty (lastContent messages) then lastContent messages else exhausted))
      st
      [maxIterationsLine]
| loop_return n messages st output st1 o1 :
    PassRun messages st (Normal (Return output)) st1 o1 →
    LoopRun (S n) messages st (Normal (messages, output)) st1 o1
| loop_thrown n messages st e st1 o1 :
    PassRun messages st (Thrown e) st1 o1 →
    LoopRun (S n) messages st (Thrown e) st1 o1
| loop_continue n messages st messages' st1 o1 r st2 o2 :
    PassRun messages st (Normal (Continue messages')) st1 o1 →
    LoopRun n messages' st1 r st2 o2 →
    LoopRun (S n) messages st r st2 (o1 ++ o2).

End Runs.

Arguments withWorld {W} st w.
Arguments ToolRun {W} X tc st _ _ _.
Arguments ToolsRun {W} X _ st _ _ _.
Arguments PassRun {W} X messages st _ _ _.
Arguments LoopRun {W} X _ _ _ _ _ _.
Arguments toolCallFrame {W} X tool args.
Arguments shownName {W} tool.

(** ** The turn around the executor *)

Section Turns.
Context {W : Type} (X : External W).

(** The two configurations in which [createLLM] returns a model. *)
Definition manual : Prop :=
  MODEL_PROVIDER X = "gemini" ∧ missing (GOOGLE_API_KEY X) = false.
Definition native : Prop :=
  MODEL_PROVIDER X = "openai" ∧ missing (OPENAI_API_KEY X) = false.

(** The store after [memory.addMessage(sessionId, { role, content,
    timestamp: new Date() })]. *)
Definition stamped (st : Store (W:=W)) (r : Role) (text : string) : ChatMessage :=
  mkChatMessage r text (Date_now X (world st)).
Definition committed (st : Store (W:=W)) (sessionId : string) (r : Role) (text : string)
  : Store (W:=W) :=
  mkStore (world st)
          (<[sessionId := default [] (sessions st !! sessionId) ++ [stamped st r text]]>
             (sessions st)).

Definition toLangChain (history : list ChatMessage) : list BaseMessage :=
  map (λ msg,
         match role msg with
         | user => HumanMessage (content msg)
         | assistant => AIMessage (content msg) None
         | system => SystemMessage (content msg)
         end) history.

(** What the route hands to the executor: the input and, as history, the
    session read after the user message was added to it. *)
Definition turnInput (st : Store (W:=W)) (sessionId message : string) : ExecutorInput :=
  mkInput message
          (toLangChain (default [] (sessions st !! sessionId) ++ [stamped st user message])).

Definition headers : list Obs :=
  [ObsSetHeader "Content-Type" "text/event-stream";
   ObsSetHeader "Cache-Control" "no-cache";
   ObsSetHeader "Connection" "keep-alive";
   ObsSetHeader "Access-Control-Allow-Origin" "*"].

Definition doneFrame : Obs := ObsSSE "done" (JSON_stringify X (JObj [])).
Definition errorFrame (text : string) : Obs :=
  ObsSSE "error" (JSON_stringify X (JObj [("error", JStr text)])).

(** What the [catch] of the route does with an exception. *)
Definition caught (error : JSThrown) : list Obs :=
  [ObsConsole "Chat error:";
   errorFrame (messageOr "Unknown error occurred" error);
   doneFrame; ObsEnd].

(** What may be observed while an executor runs under the route's
    handlers: frames of the three streaming kinds, the calls it makes, its
    console lines. *)
Definition streaming (o : Obs) : bool :=
  match o with
  | ObsSSE event _ =>
      String.eqb event "token" || String.eqb event "tool_call"
      || String.eqb event "tool_result"
  | ObsLLM _ _ | ObsTool _ _ _ | ObsNative _ _ => true
  | ObsConsole line => negb (String.eqb line "Chat error:")
  | ObsSetHeader _ _ | ObsSend _ _ _ | ObsEnd | ObsAddMessage _ _ => false
  end.

(** What may be observed inside the [try] block before its last two
    statements: the above, and the commit of the user message. *)
Definition inner (o : Obs) : bool :=
  match o with
  | ObsAddMessage _ msg => match role msg with user => true | _ => false end
  | _ => streaming o
  end.

(** What the route's handlers write for a call of LangChain's executor. *)
Definition replayed (c : CallbackCall) : Obs :=
  match c with
  | OnLLMNewToken token => ObsSSE "token" token
  | OnToolStart tool i =>
      ObsSSE "tool_call"
        (JSON_stringify X
           (JObj [("tool",
                   if truthy (prop tool "name") then prop tool "name"
                   else match tool with JStr _ => tool | _ => JStr "unknown" end);
                  ("input", i)]))
  | OnToolEnd output => ObsSSE "tool_result" output
  end.

(** The observations that belong to tool calls. *)
Definition toolEvent (o : Obs) : bool :=
  match o with
  | ObsSSE event _ => String.eqb event "tool_call" || String.eqb event "tool_result"
  | ObsTool _ _ _ => true
  | _ => false
  end.

(** The message recorded for a registered tool that threw, and for a tool
    that is not registered. *)
Definition thrownRecord (name : string) (e : JSThrown) : BaseMessage :=
  AIMessage ("Tool " +:+ name +:+ " error: " +:+ messageOr "Tool execution failed" e)
            None.
Definition missingRecord (toolName : option string) : BaseMessage :=
  AIMessage ("Tool " +:+ show toolName +:+ " error: "
               +:+ "Tool " +:+ show toolName +:+ " not found") None.

(** The completion came back with at least one tool call. *)
Definition requestsTools (outcome : Outcome (option LLMResponse)) : Prop :=
  ∃ response tc tcs,
    outcome = Normal (Some response)
    ∧ collectToolCalls X response = Normal (tc :: tcs).

Definition toolEvents (obs : list Obs) : list Obs := List.filter toolEvent obs.

(** The shapes of a tool call among these observations, under the
    route's callback manager: announced and run, whether the tool returns
    or throws; announced and not found. *)
Inductive Announced : list Obs → Prop :=
| announced_nil : Announced []
| announced_run t args outcome rest :
    Announced rest →
    Announced (toolCallFrame X (Some t) args
                 :: ObsTool (tool_name t) args outcome :: rest)
| announced_missing args rest :
    Announced rest →
    Announced (toolCallFrame X None args :: rest).

(** One pass that ran tools, as it is recorded in the working sequence. *)
Record Round : Type := mkRound {
  round_text : string;
  round_calls : list ToolCall;
  round_results : list BaseMessage
}.

Definition recorded (r : Round) : list BaseMessage :=
  AIMessage (round_text r) (Some (round_calls r)) :: round_results r.

(** [m] is the tool-result message of the call [tc]. *)
Definition resultOf (tc : ToolCall) (m : BaseMessage) : Prop :=
  ∃ body, m = AIMessage (returnedText (tc_name tc) body) None
          ∨ m = AIMessage (errorText (tc_name tc) body) None.

Definition wellFormed (r : Round) : Prop :=
  round_calls r ≠ [] ∧ Forall2 resultOf (round_calls r) (round_results r).

(** The executions that a list of requested calls gives rise to: those of
    the calls whose tool is registered, in the order of the requests. *)
Definition executions (calls : list ToolCall) : list (string * JSValue) :=
  omap (λ tc, match toolMap_get X (tc_name tc) with
              | Some t => Some (tool_name t, parseArgs X (tc_args tc))
              | None => None
              end) calls.

End Turns.

Arguments Announced {W} X _.

(** * More of the code

    The rest of this part embeds what the turn above leaves out of the
    same sources and of the code around them:

      - [backend/src/models/memory.ts]: [clearSession];
      - [backend/src/tools/calculationTool.ts]: the calculator's [func];
      - [backend/src/routes/chat.ts] in its later revision, whose handler
        keeps track of the tokens that were streamed and decides from them
        what to commit;
      - [frontend/src/lib/sseClient.ts]: the reader of the response body,
        [connectWithFetch];
      - [frontend/src/hooks/useChatStream.ts]: the guard of [sendMessage]
        and the listeners it registers.

    The evaluation of JavaScript source by [new Function] and the
    response that [fetch] resolves to are taken as parameters, as the
    other external code is. *)

(** ** models/memory.ts: forgetting a session *)

Section Memory.
Context {W : Type}.

(** [this.sessions.delete(sessionId)] *)
Definition clearSession (sessionId : string) : M (W:=W) unit := λ st,
  (Normal tt, mkStore (world st) (delete sessionId (sessions st)), []).

(** The stored history of a session, as [getHistory] reads it. *)
Definition history (st : Store (W:=W)) (sessionId : string) : list ChatMessage :=
  default [] (sessions st !! sessionId).

End Memory.

(** ** The turn, continued *)

(** The text the custom executor returns when a completion call brings no
    response: it threw, or it resolved to nothing. *)
Definition apology (out : Outcome (option LLMResponse)) : string :=
  match out with
  | Thrown _ => llmFailed
  | Normal _ => noResponse
  end.

(** What is observed of a run apart from the frames written on the
    reply. *)
Definition offStream (o : Obs) : bool :=
  match o with
  | ObsSSE _ _ => false
  | _ => true
  end.

(** An entry of [invalid_tool_calls] whose arguments [JSON.parse] accepts,
    or which are not a string. *)
Definition parses {W : Type} (X : External W) (invalid : ToolCall) : Prop :=
  match tc_args invalid with
  | JStr s => ∃ v, JSON_parse X s = Normal v
  | _ => True
  end.

(** ** More concrete turns *)

Module Setups.

(** The Gemini provider without its key. *)
Definition keyless : External nat := {|
  JSON_stringify := Scenario.stringify;
  JSON_parse := Scenario.parse;
  String_of := λ _, "[object]";
  Date_now := λ w, Z.of_nat w;
  MODEL_PROVIDER := "gemini";
  OPENAI_API_KEY := None;
  GOOGLE_API_KEY := Some EmptyString;
  llm_invoke := λ messages w, (Scenario.text "4", S w);
  tools := [Scenario.lookup];
  agentExecutor_invoke := λ i history w, ([], Normal i, w)
|}.

(** The native strategy, with an executor that streams two tokens, runs a
    tool and returns the empty string. *)
Definition muted : External nat := {|
  JSON_stringify := Scenario.stringify;
  JSON_parse := Scenario.parse;
  String_of := λ _, "[object]";
  Date_now := λ w, Z.of_nat w;
  MODEL_PROVIDER := "openai";
  OPENAI_API_KEY := Some "key";
  GOOGLE_API_KEY := None;
  llm_invoke := λ messages w, (Normal None, w);
  tools := [];
  agentExecutor_invoke := λ i history w,
    ([OnLLMNewToken "Hel"; OnToolStart (JStr "lookup") (JObj []);
      OnToolEnd "X"; OnLLMNewToken "lo"],
     Normal EmptyString, S w)
|}.

(** The completion engine resolves to nothing. *)
Definition mute := Scenario.external (λ _, Normal None).

(** A store in which another session already holds a message. *)
Definition busy : Store (W:=nat) :=
  mkStore 0 (<["other" := [mkChatMessage user "old" 0]]> ∅).

End Setups.

(** ** Strings as the client reads them

    The string methods the client and the tools call.  The white space of
    ECMAScript ([WhiteSpace] and [LineTerminator]) among the code units
    below 256: tab, line feed, vertical tab, form feed, carriage return,
    space and no-break space; it is what [trim] strips and what [\s]
    matches. *)

Definition isWhiteSpace (c : Ascii.ascii) : bool :=
  let n := Ascii.nat_of_ascii c in
  (n =? 9) || (n =? 10) || (n =? 11) || (n =? 12) || (n =? 13) || (n =? 32)
  || (n =? 160).

Fixpoint trimStart (s : string) : string :=
  match s with
  | EmptyString => EmptyString
  | String c rest => if isWhiteSpace c then trimStart rest else s
  end.

Fixpoint trimEnd (s : string) : string :=
  match s with
  | EmptyString => EmptyString
  | String c rest =>
      match trimEnd rest with
      | EmptyString => if isWhiteSpace c then EmptyString else String c EmptyString
      | kept => String c kept
      end
  end.

(** [s.trim()] *)
Definition trim (s : string) : string := trimEnd (trimStart s).

(** [s.startsWith(p)] *)
Definition startsWith (p s : string) : bool := String.prefix p s.

(** [s.substring(start)] *)
Fixpoint substring (start : nat) (s : string) : string :=
  match start, s with
  | S n, String _ rest => substring n rest
  | _, _ => s
  end.

Definition isNewline (c : Ascii.ascii) : bool := Ascii.eqb c (Ascii.ascii_of_nat 10).

(** [s.split('\n')]: the pieces between the line feeds, at least one. *)
Fixpoint splitLines (s : string) : list string :=
  match s with
  | EmptyString => [EmptyString]
  | String c rest =>
      if isNewline c then EmptyString :: splitLines rest
      else match splitLines rest with
           | piece :: pieces => String c piece :: pieces
           | [] => [String c EmptyString]
           end
  end.

(** [s.includes('\n')] *)
Fixpoint hasNewline (s : string) : bool :=
  match s with
  | EmptyString => false
  | String c rest => isNewline c || hasNewline rest
  end.

(** ** The client: frontend/src/lib/sseClient.ts *)

(** The text that [reply.raw] has received when the frames [fs] have been
    written: one [wire] per frame. *)
Definition written (fs : list (string * string)) : string :=
  concat_strings (map (λ f, wire f.1 f.2) fs).

(** How a response body ends: [reader.read()] reports [done], or it
    rejects. *)
Inductive Ending : Type :=
| Closed
| Failed (error : JSThrown).

(** What [fetch] resolves to, as far as [connectWithFetch] reads it: the
    chunks of the body as the decoder returns them and how the body ends,
    or a response without body. *)
Inductive Fetched : Type :=
| Body (chunks : list string) (ending : Ending)
| NoBody.

Section Client.
Context (JSON_stringify : JSValue → string) (JSON_parse : string → Outcome JSValue).

(** The body of [for (const line of lines)]: the new value of
    [currentEventType] and the calls of [this.emit] as (event, data). *)
Definition processLine (currentEventType line : string)
  : string * list (string * string) :=
  let trimmedLine := trim line in
  if negb (nonempty trimmedLine) then (currentEventType, [])
  else if startsWith "event: " trimmedLine then
    (trim (substring 7 trimmedLine), [])
  else if startsWith "data: " trimmedLine then
    let data := substring 6 trimmedLine in
    if String.eqb (trim data) "{}" then
      (currentEventType,
       if String.eqb currentEventType "done" then [(currentEventType, EmptyString)]
       else [])
    else (currentEventType, [(currentEventType, data)])
  else (currentEventType, []).

Fixpoint processLines (currentEventType : string) (lines : list string)
  : string * list (string * string) :=
  match lines with
  | [] => (currentEventType, [])
  | line :: rest =>
      let '(currentEventType, emitted) := processLine currentEventType line in
      let '(currentEventType, later) := processLines currentEventType rest in
      (currentEventType, emitted ++ later)
  end.

(** [error.message] *)
Definition message_of (error : JSThrown) : JSValue :=
  match error with
  | ErrorObject message => JStr message
  | ThrownValue v => prop v "message"
  end.

(** [processStream], entered with the values of [buffer] and
    [currentEventType]; the rejection of the promise is handled where the
    function is called. *)
Fixpoint processStream (chunks : list string) (ending : Ending)
    (buffer currentEventType : string) : list (string * string) :=
  match chunks with
  | [] =>
      match ending with
      | Closed => [("done", EmptyString)]
      | Failed error =>
          [("error", JSON_stringify (JObj [("error", message_of error)]))]
      end
  | value :: rest =>
      let buffer := buffer +:+ value in
      let lines := splitLines buffer in
      let buffer := List.last lines EmptyString in        (* lines.pop() || '' *)
      let '(currentEventType, emitted) :=
        processLines currentEventType (removelast lines) in
      emitted ++ processStream rest ending buffer currentEventType
  end.

(** [connectWithFetch]: the calls of [this.emit], in order. *)
Definition connectWithFetch (response : Outcome Fetched) : list (string * string) :=
  match response with
  | Thrown error =>
      [("error",
        JSON_stringify (JObj [("error", JStr (messageOr "Unknown error" error))]))]
  | Normal NoBody =>
      [("error", JSON_stringify (JObj [("error", JStr "Response body is null")]))]
  | Normal (Body chunks ending) => processStream chunks ending EmptyString "message"
  end.

(** ** The client: frontend/src/hooks/useChatStream.ts *)

(** The state the listeners of [sendMessage] work on: the text of the
    assistant's message, the [isLoading] and [error] states, and whether
    the listeners are still registered on the client. *)
Record Chat : Type := mkChat {
  currentMessage : string;
  isLoading : bool;
  error : JSValue;
  listening : bool
}.

(** The state when [sendMessage] has registered its listeners. *)
Definition sending : Chat := mkChat EmptyString true JNull true.

(** [a || b] on strings *)
Definition orElse (a b : string) : string := if nonempty a then a else b.

(** What one call of [this.emit(event, data)] does to the state, through
    the listener registered for the event. *)
Definition listener (s : Chat) (emitted : string * string) : Chat :=
  let '(event, data) := emitted in
  if negb (listening s) then s
  else if String.eqb event "token" then
    mkChat (currentMessage s +:+ data) (isLoading s) (error s) (listening s)
  else if String.eqb event "error" then
    let fromData := JStr (orElse data "An error occurred") in
    let shown :=
      match JSON_parse data with
      | Normal JNull | Normal JUndefined => fromData
      | Normal errorData =>
          if truthy (prop errorData "error") then prop errorData "error"
          else JStr "An error occurred"
      | Thrown _ => fromData
      end in
    mkChat (currentMessage s) false shown (listening s)
  else if String.eqb event "done" then
    mkChat (currentMessage s) false (error s) false
  else s.

(** The state after the calls of [this.emit] of a connection. *)
Definition useChatStream (emitted : list (string * string)) : Chat :=
  foldl listener sending emitted.

End Client.

(** The guard of [sendMessage] and the body it posts: nothing is sent for
    a message that is blank or while a turn is loading. *)
Definition sendMessage (message : string) (loading : bool) (sessionId : string)
  : option JSValue :=
  if negb (nonempty (trim message)) || loading then None
  else Some (JObj [("message", JStr (trim message)); ("sessionId", JStr sessionId)]).

(** The complete lines that the text of a frame consists of: the event
    line, the lines of the payload behind [data: ], and the empty line
    that ends the frame. *)
Definition frameLines (f : string * string) : list string :=
  ("event: " +:+ f.1)
    :: match splitLines f.2 with
       | first :: others => ("data: " +:+ first) :: others
       | [] => []
       end
    ++ [EmptyString].

(** What the client emits for a frame whose payload is one line. *)
Definition delivered (f : string * string) : list (string * string) :=
  let '(event, payload) := f in
  if negb (nonempty (trimEnd payload)) then []
  else if String.eqb (trim payload) "{}" then
    (if String.eqb event "done" then [(event, EmptyString)] else [])
  else [(event, trimEnd payload)].

(** A frame that reaches the listeners as it was sent: the event name and
    the payload are one line each, the name has no white space around it,
    the payload is not blank, does not end in white space and is not the
    empty object. *)
Definition plainEvent (event : string) : bool :=
  nonempty event && negb (hasNewline event) && String.eqb (trim event) event.
Definition plainPayload (payload : string) : bool :=
  nonempty payload && negb (hasNewline payload)
  && String.eqb (trimEnd payload) payload
  && negb (String.eqb (trim payload) "{}").
Definition plainFrame (f : string * string) : bool :=
  plainEvent f.1 && plainPayload f.2.

(** ** tools/calculationTool.ts *)

(** The characters that [/[^0-9+\-*/().\s]/g] leaves in place. *)
Definition allowed (c : Ascii.ascii) : bool :=
  let n := Ascii.nat_of_ascii c in
  ((48 <=? n) && (n <=? 57))                           (* 0-9 *)
  || (n =? 43) || (n =? 45) || (n =? 42) || (n =? 47)   (* + - * / *)
  || (n =? 40) || (n =? 41) || (n =? 46)                (* ( ) . *)
  || isWhiteSpace c.

(** [expression.replace(/[^0-9+\-*/().\s]/g, '')] *)
Fixpoint sanitize (expression : string) : string :=
  match expression with
  | EmptyString => EmptyString
  | String c rest =>
      if allowed c then String c (sanitize rest) else sanitize rest
  end.

(** What the tool reads of the value of [new Function(source)()]: a finite
    number with its decimal form [`${result}`], or anything else (not a
    number, NaN, an infinity). *)
Inductive Evaluated : Type :=
| FiniteNumber (shown : string)
| OtherValue.

Definition quote : string := String (Ascii.ascii_of_nat 34) EmptyString.

(** [calculationTool.func({ expression })], over the evaluation of
    JavaScript source by [new Function(source)()]. *)
Definition calculator (evaluate : string → Outcome Evaluated) (expression : string)
  : string :=
  let sanitized := sanitize expression in
  match evaluate ("return " +:+ sanitized) with
  | Normal (FiniteNumber shown) => "Result: " +:+ shown
  | Normal OtherValue => "Error: Invalid calculation result"
  | Thrown error =>
      "Error calculating " +:+ quote +:+ expression +:+ quote +:+ ": "
        +:+ messageOr "Unknown error" error
  end.

(** ** routes/chat.ts, the revision that keeps track of what was streamed

    This revision of the handler declares two variables, [tokensStreamed]
    and [streamedContent], which its token callback updates and which it
    reads when the executor has returned.  They are kept next to the state
    of the outside world: the executors thread that state through their
    calls of the engine and of the tools, none of which reaches the
    variables.  Both executors of [createAgent] return a string as
    [output], so of the branches on [response.output] the ones for a
    string are reached. *)

Record Streamed : Type := mkStreamed {
  tokensStreamed : bool;
  streamedContent : string
}.

Section Tracking.
Context {W : Type} (X : External W).

Notation "'let*' x ':=' m 'in' k" := (bind m (λ x, k))
  (at level 10, x name, m at level 100, k at level 200).
Notation "m '>>' k" := (bind m (λ _, k))
  (at level 100, k at level 200, right associativity).

(** A tool of [X], over states that carry the two variables. *)
Definition trackedTool (t : Tool W) : Tool (W * Streamed) :=
  mkTool (tool_name t)
         (λ args w,
            match tool_invoke t args w.1 with
            | (outcome, w') => (outcome, (w', w.2))
            end).

(** The environment of [X], over states that carry the two variables. *)
Definition tracked : External (W * Streamed) := {|
  JSON_stringify := JSON_stringify X;
  JSON_parse := JSON_parse X;
  String_of := String_of X;
  Date_now := λ w, Date_now X w.1;
  MODEL_PROVIDER := MODEL_PROVIDER X;
  OPENAI_API_KEY := OPENAI_API_KEY X;
  GOOGLE_API_KEY := GOOGLE_API_KEY X;
  llm_invoke := λ messages w,
    match llm_invoke X messages w.1 with
    | (outcome, w') => (outcome, (w', w.2))
    end;
  tools := map trackedTool (tools X);
  agentExecutor_invoke := λ i chat_history w,
    match agentExecutor_invoke X i chat_history w.1 with
    | (calls, outcome, w') => (calls, outcome, (w', w.2))
    end
|}.

Definition setStreamed (s : Streamed) : M (W:=W * Streamed) unit := λ st,
  (Normal tt, mkStore ((world st).1, s) (sessions st), []).
Definition getStreamed : M (W:=W * Streamed) Streamed := λ st,
  (Normal (world st).2, st, []).

(** [tokensStreamed = true; streamedContent += token] *)
Definition note (s : Streamed) (token : string) : Streamed :=
  mkStreamed true (streamedContent s +:+ token).

(** The handler object of this revision; its other four methods write on
    the console only. *)
Definition trackingHandlers : Handlers := {|
  onLLMNewToken := λ token,
    let* s := getStreamed in
    setStreamed (note s token) >>
    sendToken tracked token;
  onToolStart := onToolStart (routeHandlers tracked);
  onToolEnd := onToolEnd (routeHandlers tracked)
|}.

Definition trackingManager : Callbacks := fromHandlers trackingHandlers.

Definition errorMsg : string :=
  "I apologize, but I encountered an issue processing your request. Please try again.".

(** "Determine final response", for an [output] that is a string. *)
Definition determineFinalResponse (s : Streamed) (output : string)
  : M (W:=W * Streamed) string :=
  if tokensStreamed s && nonempty (trim (streamedContent s)) then
    ret (streamedContent s)
  else if nonempty (trim output) then
    (if negb (tokensStreamed s) then sendToken tracked output else ret tt) >>
    ret output
  else if nonempty output then
    let finalResponse := JSON_stringify X (JStr output) in
    (if negb (tokensStreamed s) then sendToken tracked finalResponse else ret tt) >>
    ret finalResponse
  else ret EmptyString.

(** The [try] block of the handler. *)
Definition trackingTurn (message sessionId : string) : M (W:=W * Streamed) unit :=
  let* agent := createAgent tracked sessionId in
  agent_addMessage agent user message >>
  setStreamed (mkStreamed false EmptyString) >>
  let* history := agent_getHistory agent in
  let* output :=
    executor_invoke agent (mkInput message history) (Some trackingManager) in
  let* s := getStreamed in
  let* finalResponse := determineFinalResponse s output in
  (if nonempty finalResponse then agent_addMessage agent assistant finalResponse
   else
     console "[Chat] WARNING: No final response generated!" >>
     sendToken tracked errorMsg >>
     agent_addMessage agent assistant errorMsg) >>
  sendDone tracked.

Definition trackingRoute (body : JSValue) : M (W:=W * Streamed) unit :=
  match ChatRequestSchema_safeParse body with
  | inl errors => emit (ObsSend 400 "Invalid request" errors)
  | inr (message, sessionId) =>
      let sessionId := default "default" sessionId in
      emit (ObsSetHeader "Content-Type" "text/event-stream") >>
      emit (ObsSetHeader "Cache-Control" "no-cache") >>
      emit (ObsSetHeader "Connection" "keep-alive") >>
      emit (ObsSetHeader "Access-Control-Allow-Origin" "*") >>
      try_catch
        (trackingTurn message sessionId)
        (λ error,
           console "Chat error:" >>
           sendError tracked (messageOr "Unknown error occurred" error) >>
           sendDone tracked)
  end.

(** What the handler does between the final response and its commit when
    the final response is empty. *)
Definition noFinalResponse (finalResponse : string) : list Obs :=
  if nonempty finalResponse then []
  else [ObsConsole "[Chat] WARNING: No final response generated!";
        ObsSSE "token" errorMsg].

(** A store of [X] with values for the two variables. *)
Definition attach (s : Streamed) (st : Store (W:=W)) : Store (W:=W * Streamed) :=
  mkStore (world st, s) (sessions st).

(** The store in which the two variables hold what the tokens [l] leave
    of [s]. *)
Definition noted (s : Streamed) (l : list string) (st : Store (W:=W * Streamed))
  : Store (W:=W * Streamed) :=
  mkStore ((world st).1, foldl note s l) (sessions st).

End Tracking.

(** A store without sessions, for the route that keeps track. *)
Definition untouched : Store (W:=nat * Streamed) :=
  mkStore (0, mkStreamed false EmptyString) ∅.

Arguments trackingRoute {W} X body st.
Arguments trackingTurn {W} X message sessionId st.
Arguments trackingManager {W} X.
Arguments trackingHandlers {W} X.
Arguments tracked {W} X.
Arguments noted {W} s l st.
Arguments attach {W} s st.
Arguments trackedTool {W} t.

(** * Properties *)

Section Soundness.
Context {W : Type} (X : External W).

Lemma handleToolStart_frame (tool : option (Tool W)) (args : JSValue) (st : Store (W:=W)) :
  (λ tl i,
     sendToolCall X
       (if truthy (prop tl "name") then prop tl "name"
        else match tl with JStr _ => tl | _ => JStr "unknown" end) i)
    (toolView tool) args st
  = (Normal tt, st, [toolCallFrame X tool args]).
Proof.
  destruct tool as [t|]; [|reflexivity].
  cbn. unfold toolCallFrame, shownName.
  destruct (nonempty (tool_name t)); reflexivity.
Qed.

Lemma executeTool_run (tc : ToolCall) (st : Store (W:=W)) :
  ∃ m st' o,
    executeTool X (Some (callbackManager X)) tc st = (Normal m, st', o)
    ∧ ToolRun X tc st m st' o.
Proof.
  unfold executeTool, bind.
  cbn [handler callbackManager fromHandlers routeHandlers onToolStart
       handleToolStart handleToolEnd].
  rewrite handleToolStart_frame.
  destruct (toolMap_get X (tc_name tc)) as [t|] eqn:Hget.
  - unfold try_catch, bind, invokeTool.
    destruct (tool_invoke t (parseArgs X (tc_args tc)) (world st))
      as [[v|e] w] eqn:Hinv.
    + eexists _, _, _. split; [reflexivity|].
      apply (tool_returned X tc st t v w Hget Hinv).
    + eexists _, _, _. split; [reflexivity|].
      apply (tool_threw X tc st t e w Hget Hinv).
  - eexists _, _, _. split; [reflexivity|].
    apply (tool_missing X tc st Hget).
Qed.

Lemma executeTools_run (tcs : list ToolCall) (st : Store (W:=W)) :
  ∃ ms st' o,
    mapM (executeTool X (Some (callbackManager X))) tcs st = (Normal ms, st', o)
    ∧ ToolsRun X tcs st ms st' o.
Proof.
  revert st. induction tcs as [|tc tcs IH]; intros st.
  - eexists _, _, _. split; [reflexivity|constructor].
  - destruct (executeTool_run tc st) as (m & st1 & o1 & E1 & R1).
    destruct (IH st1) as (ms & st2 & o2 & E2 & R2).
    exists (m :: ms), st2, (o1 ++ o2). split.
    + cbn [mapM]. unfold bind at 1. rewrite E1.
      unfold bind at 1. rewrite E2. cbn. rewrite app_nil_r. reflexivity.
    + econstructor; eassumption.
Qed.

Lemma finalResponse_run (responseContent : string) (st : Store (W:=W)) :
  finalResponse (Some (callbackManager X)) responseContent st
  = (Normal (answer responseContent), st, []).
Proof. destruct responseContent; reflexivity. Qed.

Lemma pass_run (messages : list BaseMessage) (st : Store (W:=W)) :
  ∃ r st' o,
    pass X (Some (callbackManager X)) messages st = (r, st', o)
    ∧ PassRun X messages st r st' o.
Proof.
  unfold pass, bind at 1, try_catch, bind at 1, llmWithTools_invoke.
  destruct (llm_invoke X messages (world st)) as [[[response|]|e] w] eqn:Hllm.
  - cbn [ret]. unfold bind at 1, lift.
    destruct (collectToolCalls X response) as [[|tc tcs]|e] eqn:Hcalls.
    + unfold bind at 1. rewrite finalResponse_run.
      eexists _, _, _. split; [reflexivity|].
      apply (pass_final X messages st response w Hllm Hcalls).
    + unfold bind at 1.
      destruct (executeTools_run (tc :: tcs) (mkStore w (sessions st)))
        as (ms & st2 & o2 & E2 & R2).
      rewrite E2. eexists _, _, _. split; [reflexivity|].
      cbn. rewrite app_nil_r.
      apply (pass_tools X messages st response w tc tcs ms st2 o2 Hllm Hcalls R2).
    + eexists _, _, _. split; [reflexivity|].
      apply (pass_malformed X messages st response e w Hllm Hcalls).
  - eexists _, _, _. split; [reflexivity|].
    apply (pass_no_response X messages st w Hllm).
  - eexists _, _, _. split; [reflexivity|].
    apply (pass_llm_failed X messages st e w Hllm).
Qed.

Lemma maxIterationsReached_run (messages : list BaseMessage) (st : Store (W:=W)) :
  maxIterationsReached (Some (callbackManager X)) messages st
  = (Normal (if nonempty (lastContent messages) then lastContent messages else exhausted),
     st, [maxIterationsLine]).
Proof.
  unfold maxIterationsReached, bind, console, emit.
  cbn [handler callbackManager fromHandlers handleLLMNewToken].
  fold (lastContent messages).
  destruct (lastContent messages); reflexivity.
Qed.

Lemma executorLoop_run (n : nat) (messages : list BaseMessage) (st : Store (W:=W)) :
  ∃ r st' o,
    executorLoop X (Some (callbackManager X)) n messages st = (r, st', o)
    ∧ LoopRun X n messages st r st' o.
Proof.
  revert messages st. induction n as [|n IH]; intros messages st.
  - cbn [executorLoop]. unfold bind. rewrite maxIterationsReached_run.
    eexists _, _, _. split; [reflexivity|]. constructor.
  - cbn [executorLoop]. unfold bind.
    destruct (pass_run messages st) as (r1 & st1 & o1 & E1 & R1).
    rewrite E1. destruct r1 as [[output|messages']|e].
    + eexists _, _, _. split; [reflexivity|].
      cbn. rewrite app_nil_r. apply loop_return. exact R1.
    + destruct (IH messages' st1) as (r2 & st2 & o2 & E2 & R2).
      rewrite E2. eexists _, _, _. split; [reflexivity|].
      eapply loop_continue; eassumption.
    + eexists _, _, _. split; [reflexivity|].
      apply loop_thrown. exact R1.
Qed.

End Soundness.

(** Induction on a run of the loop, with the names the proofs below use:
    [HP] for the pass, [R] for the rest of the run, [IH] for what is known
    of it. *)
Ltac loop_induction :=
  induction 1 as [messages st|n messages st output st1 o1 HP
                 |n messages st e' st1 o1 HP
                 |n messages st messages' st1 o1 r st2 o2 HP R IH].
Ltac loop_induction_on R :=
  induction R as [messages st|n messages st output' st1 o1 HP
                 |n messages st e' st1 o1 HP
                 |n messages st messages' st1 o1 r st2 o2 HP _ IH].

Section TurnLemmas.
Context {W : Type} (X : External W).

Lemma bind_eq {A B : Type} (m : M (W:=W) A) (k : A → M B) (st : Store (W:=W)) :
  bind m k st =
  match m st with
  | (Normal a, st1, o1) =>
      match k a st1 with (r, st2, o2) => (r, st2, o1 ++ o2) end
  | (Thrown e, st1, o1) => (Thrown e, st1, o1)
  end.
Proof. reflexivity. Qed.

Lemma createLLM_manual (st : Store (W:=W)) :
  manual X → createLLM X st = (Normal tt, st, []).
Proof.
  intros [Hp Hk]. unfold createLLM. rewrite Hp, Hk. reflexivity.
Qed.

Lemma createLLM_native (st : Store (W:=W)) :
  native X → createLLM X st = (Normal tt, st, []).
Proof.
  intros [Hp Hk]. unfold createLLM. rewrite Hp, Hk. reflexivity.
Qed.

(** [createLLM] returns in the two configurations only. *)
Lemma createLLM_cases (st : Store (W:=W)) :
  manual X ∨ native X ∨ ∃ e, createLLM X st = (Thrown e, st, []).
Proof.
  unfold manual, native, createLLM.
  destruct (String.eqb (MODEL_PROVIDER X) "openai") eqn:Ho.
  - apply String.eqb_eq in Ho.
    destruct (missing (OPENAI_API_KEY X)) eqn:Hk; eauto.
  - destruct (String.eqb (MODEL_PROVIDER X) "gemini") eqn:Hg.
    + apply String.eqb_eq in Hg.
      destruct (missing (GOOGLE_API_KEY X)) eqn:Hk; eauto.
    + eauto.
Qed.

Lemma addMessage_run (sessionId : string) (r : Role) (text : string) (st : Store (W:=W)) :
  bind (newDate X)
       (λ timestamp, memory_addMessage sessionId (mkChatMessage r text timestamp)) st
  = (Normal tt, committed X st sessionId r text,
     [ObsAddMessage sessionId (stamped X st r text)]).
Proof. reflexivity. Qed.

Lemma getLangChainMessages_run (sessionId : string) (st : Store (W:=W)) :
  getLangChainMessages sessionId st
  = (Normal (toLangChain (default [] (sessions st !! sessionId))), st, []).
Proof. reflexivity. Qed.

Lemma committed_lookup (st : Store (W:=W)) (sessionId : string) (r : Role) (text : string) :
  sessions (committed X st sessionId r text) !! sessionId
  = Some (default [] (sessions st !! sessionId) ++ [stamped X st r text]).
Proof. cbn. apply lookup_insert_eq. Qed.

Lemma sendDone_run (st : Store (W:=W)) :
  sendDone X st = (Normal tt, st, [doneFrame X; ObsEnd]).
Proof. reflexivity. Qed.

Lemma gemini_invoke_eq (i : ExecutorInput) (callbacks : option Callbacks)
    (st : Store (W:=W)) :
  gemini_invoke X i callbacks st =
  match gemini_run X i callbacks st with
  | (Normal r, st', o) => (Normal (snd r), st', o)
  | (Thrown e, st', o) => (Thrown e, st', o)
  end.
Proof.
  unfold gemini_invoke, bind.
  destruct (gemini_run X i callbacks st) as [[[r|e] st'] o];
    cbn; rewrite ?app_nil_r; reflexivity.
Qed.

Lemma turn_manual (message sessionId : string) (st : Store (W:=W)) :
  manual X →
  turn X message sessionId st =
  match gemini_run X (turnInput X st sessionId message) (Some (callbackManager X))
                   (committed X st sessionId user message) with
  | (Normal (ws, output), st2, o) =>
      (Normal tt, committed X st2 sessionId assistant output,
       ObsAddMessage sessionId (stamped X st user message)
         :: o ++ [ObsAddMessage sessionId (stamped X st2 assistant output);
                  doneFrame X; ObsEnd])
  | (Thrown e, st2, o) =>
      (Thrown e, st2, ObsAddMessage sessionId (stamped X st user message) :: o)
  end.
Proof.
  intros Hm. unfold turn, createAgent. rewrite bind_eq, bind_eq.
  rewrite (createLLM_manual st Hm). destruct Hm as [Hp Hk]. rewrite Hp.
  cbn [String.eqb Ascii.eqb Bool.eqb ret agent_addMessage agent_getHistory executor_invoke].
  rewrite bind_eq, addMessage_run.
  rewrite bind_eq, getLangChainMessages_run, committed_lookup.
  rewrite bind_eq, gemini_invoke_eq.
  cbn [from_option id]. fold (turnInput X st sessionId message).
  destruct (gemini_run X (turnInput X st sessionId message) (Some (callbackManager X))
              (committed X st sessionId user message)) as [[[[ws output]|e] st2] o].
  - cbn [ret snd]. rewrite bind_eq, addMessage_run, sendDone_run.
    cbn. rewrite ?app_nil_r. reflexivity.
  - reflexivity.
Qed.

Lemma turn_failed_factory (message sessionId : string) (st : Store (W:=W)) (e : JSThrown) :
  createLLM X st = (Thrown e, st, []) →
  turn X message sessionId st = (Thrown e, st, []).
Proof.
  intros E. unfold turn, createAgent. rewrite bind_eq, bind_eq, E. reflexivity.
Qed.

Lemma chatRoute_invalid (body : JSValue) (st : Store (W:=W)) (errors : list ZodIssue) :
  ChatRequestSchema_safeParse body = inl errors →
  chatRoute X body st = (Normal tt, st, [ObsSend 400 "Invalid request" errors]).
Proof. intros E. unfold chatRoute. rewrite E. reflexivity. Qed.

Lemma chatRoute_valid (body : JSValue) (st : Store (W:=W))
    (message : string) (sessionId : option string) :
  ChatRequestSchema_safeParse body = inr (message, sessionId) →
  chatRoute X body st =
  match turn X message (default "default" sessionId) st with
  | (Normal _, st', o) => (Normal tt, st', headers ++ o)
  | (Thrown e, st', o) => (Normal tt, st', headers ++ o ++ caught X e)
  end.
Proof.
  intros E. unfold chatRoute. rewrite E.
  unfold bind, try_catch, emit.
  destruct (turn X message (default "default" sessionId) st) as [[[[]|e] st'] o];
    reflexivity.
Qed.

End TurnLemmas.

Section Shapes.
Context {W : Type} (X : External W).

Lemma frames_app (a b : list Obs) : frames (a ++ b) = frames a ++ frames b.
Proof. apply omap_app. Qed.
Lemma tokens_app (a b : list Obs) : tokens (a ++ b) = tokens a ++ tokens b.
Proof. apply omap_app. Qed.
Lemma llmCalls_app (a b : list Obs) : llmCalls (a ++ b) = llmCalls a ++ llmCalls b.
Proof. apply omap_app. Qed.
Lemma toolRuns_app (a b : list Obs) : toolRuns (a ++ b) = toolRuns a ++ toolRuns b.
Proof. apply omap_app. Qed.
Lemma commits_app (a b : list Obs) : commits (a ++ b) = commits a ++ commits b.
Proof. apply omap_app. Qed.

Lemma tool_streaming tc (st : Store (W:=W)) m st' o :
  ToolRun X tc st m st' o → Forall (λ o, streaming o = true) o.
Proof. intros []; repeat constructor. Qed.

Lemma tools_streaming tcs (st : Store (W:=W)) ms st' o :
  ToolsRun X tcs st ms st' o → Forall (λ o, streaming o = true) o.
Proof.
  induction 1; [constructor|].
  apply Forall_app. split; [eapply tool_streaming; eassumption|assumption].
Qed.

Lemma pass_streaming messages (st : Store (W:=W)) r st' o :
  PassRun X messages st r st' o → Forall (λ o, streaming o = true) o.
Proof.
  intros []; repeat constructor.
  eapply tools_streaming; eassumption.
Qed.

Lemma loop_streaming n messages (st : Store (W:=W)) r st' o :
  LoopRun X n messages st r st' o → Forall (λ o, streaming o = true) o.
Proof.
  induction 1.
  - repeat constructor.
  - eapply pass_streaming; eassumption.
  - eapply pass_streaming; eassumption.
  - apply Forall_app. split; [eapply pass_streaming; eassumption|assumption].
Qed.

(** The executor leaves the session map alone. *)
Lemma tool_sessions tc (st : Store (W:=W)) m st' o :
  ToolRun X tc st m st' o → sessions st' = sessions st.
Proof. intros []; reflexivity. Qed.

Lemma tools_sessions tcs (st : Store (W:=W)) ms st' o :
  ToolsRun X tcs st ms st' o → sessions st' = sessions st.
Proof.
  induction 1; [reflexivity|].
  etransitivity; [eassumption|]. eapply tool_sessions; eassumption.
Qed.

Lemma pass_sessions messages (st : Store (W:=W)) r st' o :
  PassRun X messages st r st' o → sessions st' = sessions st.
Proof.
  intros []; try reflexivity.
  etransitivity; [eapply tools_sessions; eassumption|reflexivity].
Qed.

Lemma loop_sessions n messages (st : Store (W:=W)) r st' o :
  LoopRun X n messages st r st' o → sessions st' = sessions st.
Proof.
  induction 1; try reflexivity; try (eapply pass_sessions; eassumption).
  etransitivity; [eassumption|]. eapply pass_sessions; eassumption.
Qed.

Lemma gemini_run_loop (i : ExecutorInput) (st : Store (W:=W)) :
  ∃ r st' o,
    gemini_run X i (Some (callbackManager X)) st = (r, st', o)
    ∧ LoopRun X maxIterations (chat_history i ++ [HumanMessage (input i)]) st r st' o.
Proof. apply executorLoop_run. Qed.

End Shapes.

Section Native.
Context {W : Type} (X : External W).

Lemma replay_run (calls : list CallbackCall) (st : Store (W:=W)) :
  ∃ units,
    mapM (replay (Some (callbackManager X))) calls st
    = (Normal units, st, map (replayed X) calls).
Proof.
  induction calls as [|c calls [units IH]].
  - exists []. reflexivity.
  - exists (tt :: units). cbn [mapM]. rewrite bind_eq.
    assert (replay (Some (callbackManager X)) c st = (Normal tt, st, [replayed X c])) as ->
      by (destruct c; reflexivity).
    cbn beta iota. rewrite bind_eq, IH. cbn. rewrite app_nil_r. reflexivity.
Qed.

Lemma replayed_streaming (calls : list CallbackCall) :
  Forall (λ o, streaming o = true) (map (replayed X) calls).
Proof.
  induction calls as [|c calls IH]; constructor; [destruct c; reflexivity|exact IH].
Qed.

Lemma openai_invoke_run (i : ExecutorInput) (st : Store (W:=W)) :
  openai_invoke X i (Some (callbackManager X)) st =
  match agentExecutor_invoke X (input i) (chat_history i) (world st) with
  | (calls, outcome, w) =>
      (outcome, mkStore w (sessions st),
       map (replayed X) calls ++ [ObsNative (input i) outcome])
  end.
Proof.
  unfold openai_invoke. rewrite bind_eq. unfold agentExecutor.
  destruct (agentExecutor_invoke X (input i) (chat_history i) (world st))
    as [[calls outcome] w].
  cbn [fst snd]. rewrite bind_eq.
  destruct (replay_run calls (mkStore w (sessions st))) as [units ->].
  destruct outcome; cbn; rewrite ?app_nil_r; reflexivity.
Qed.

Lemma turn_native (message sessionId : string) (st : Store (W:=W)) :
  native X →
  turn X message sessionId st =
  match agentExecutor_invoke X message (chat_history (turnInput X st sessionId message))
                             (world st) with
  | (calls, Normal output, w) =>
      let st2 := mkStore w (sessions (committed X st sessionId user message)) in
      (Normal tt, committed X st2 sessionId assistant output,
       ObsAddMessage sessionId (stamped X st user message)
         :: (map (replayed X) calls ++ [ObsNative message (Normal output)])
         ++ [ObsAddMessage sessionId (stamped X st2 assistant output);
             doneFrame X; ObsEnd])
  | (calls, Thrown e, w) =>
      (Thrown e, mkStore w (sessions (committed X st sessionId user message)),
       ObsAddMessage sessionId (stamped X st user message)
         :: map (replayed X) calls ++ [ObsNative message (Thrown e)])
  end.
Proof.
  intros Hn. unfold turn, createAgent. rewrite bind_eq, bind_eq.
  rewrite (createLLM_native X st Hn). destruct Hn as [Hp Hk]. rewrite Hp.
  cbn [String.eqb Ascii.eqb Bool.eqb ret agent_addMessage agent_getHistory executor_invoke].
  rewrite bind_eq, addMessage_run.
  rewrite bind_eq, getLangChainMessages_run, committed_lookup.
  cbn [from_option id]. fold (turnInput X st sessionId message).
  rewrite bind_eq, openai_invoke_run.
  change (input (turnInput X st sessionId message)) with message.
  change (world (committed X st sessionId user message)) with (world st).
  destruct (agentExecutor_invoke X message
              (chat_history (turnInput X st sessionId message)) (world st))
    as [[calls [output|e]] w].
  - cbn beta iota. rewrite bind_eq, addMessage_run, sendDone_run.
    cbn. rewrite ?app_nil_r. reflexivity.
  - reflexivity.
Qed.

(** Whatever the strategy, a [try] block that completes ends with the
    commit of the answer and the closing of the stream, and nothing before
    them, or in a [try] block that throws, is more than streaming and the
    commit of the user message. *)
Lemma turn_shape (message sessionId : string) (st : Store (W:=W)) :
  match turn X message sessionId st with
  | (Normal _, st', o) =>
      ∃ pre output t,
        o = pre ++ [ObsAddMessage sessionId (mkChatMessage assistant output t);
                    doneFrame X; ObsEnd]
        ∧ Forall (λ o, inner o = true) pre
  | (Thrown e, st', o) => Forall (λ o, inner o = true) o
  end.
Proof.
  assert (Hin : ∀ l, Forall (λ o, streaming o = true) l → Forall (λ o, inner o = true) l).
  { intros l Hl. eapply Forall_impl; [exact Hl|].
    intros [] H; try exact H; discriminate. }
  destruct (createLLM_cases X st) as [Hm|[Hn|[e He]]].
  - rewrite (turn_manual X message sessionId st Hm).
    destruct (gemini_run_loop X (turnInput X st sessionId message)
                (committed X st sessionId user message)) as (r & st2 & o & -> & R).
    apply loop_streaming, Hin in R.
    destruct r as [[ws output]|e].
    + eexists (_ :: o), output, _. split; [reflexivity|].
      constructor; [reflexivity|exact R].
    + constructor; [reflexivity|exact R].
  - rewrite (turn_native message sessionId st Hn).
    destruct (agentExecutor_invoke X message
                (chat_history (turnInput X st sessionId message)) (world st))
      as [[calls [output|e]] w].
    + eexists (_ :: _ ++ [_]), output, _. split; [reflexivity|].
      constructor; [reflexivity|]. apply Forall_app. split.
      * apply Hin, replayed_streaming.
      * repeat constructor.
    + constructor; [reflexivity|]. apply Forall_app. split.
      * apply Hin, replayed_streaming.
      * repeat constructor.
  - rewrite (turn_failed_factory X message sessionId st e He). constructor.
Qed.

Lemma inner_frames (l : list Obs) :
  Forall (λ o, inner o = true) l →
  Forall (λ f, f.1 ≠ "done" ∧ f.1 ≠ "error") (frames l).
Proof.
  induction 1 as [|o l Ho _ IH]; [constructor|].
  destruct o; cbn [frames omap]; try exact IH.
  constructor; [|exact IH]. cbn in Ho |- *.
  split; intros ->; discriminate Ho.
Qed.

End Native.

(** [C1] Every turn that passes request validation writes exactly one
    [done] frame, and writes it last: the frames of the reply are some frames
    none of which is a [done] frame, followed by the [done] frame.  This
    holds for either strategy and whether the [try] block of the route
    completes or throws. *)
Theorem done_frame_once_and_last {W : Type} (X : External W)
    (body : JSValue) (st : Store (W:=W)) (message : string) (sessionId : option string) :
  ChatRequestSchema_safeParse body = inr (message, sessionId) →
  ∃ pre,
    frames (observations (chatRoute X body st))
    = pre ++ [("done", JSON_stringify X (JObj []))]
    ∧ Forall (λ f, f.1 ≠ "done") pre.
Proof.
  intros Hvalid. rewrite (chatRoute_valid X body st message sessionId Hvalid).
  pose proof (turn_shape X message (default "default" sessionId) st) as Hshape.
  destruct (turn X message (default "default" sessionId) st) as [[[[]|e] st'] o].
  - destruct Hshape as (pre & output & t & -> & Hpre).
    exists (frames pre). split.
    + unfold observations. cbn [snd]. rewrite !frames_app. reflexivity.
    + eapply Forall_impl; [apply inner_frames, Hpre|]. intros f [Hd _]. exact Hd.
  - exists (frames o ++ [("error",
              JSON_stringify X (JObj [("error", JStr (messageOr "Unknown error occurred" e))]))]).
    split.
    + unfold observations. cbn [snd]. rewrite !frames_app.
      cbn. rewrite <- app_assoc. reflexivity.
    + apply Forall_app. split.
      * eapply Forall_impl; [apply inner_frames, Hshape|]. intros f [Hd _]. exact Hd.
      * repeat constructor. discriminate.
Qed.

Lemma done_frame_once_and_last_witness :
  ChatRequestSchema_safeParse (Scenario.request "q") = inr ("q", None)
  ∧ (∃ pre,
       frames (observations (chatRoute Scenario.lookupThenAnswer (Scenario.request "q")
                                       Scenario.fresh))
       = pre ++ [("done", "{}")]
       ∧ Forall (λ f, f.1 ≠ "done") pre)
  ∧ (∃ pre,
       frames (observations (chatRoute Scenario.garbled (Scenario.request "q")
                                       Scenario.fresh))
       = pre ++ [("done", "{}")]
       ∧ Forall (λ f, f.1 ≠ "done") pre).
Proof.
  split; [reflexivity|]. split.
  - apply (done_frame_once_and_last Scenario.lookupThenAnswer (Scenario.request "q")
             Scenario.fresh "q" None).
    reflexivity.
  - apply (done_frame_once_and_last Scenario.garbled (Scenario.request "q")
             Scenario.fresh "q" None).
    reflexivity.
Defined.

(** [C9] A request whose [message] is missing or is the empty string is
    answered with the 400 response [{ error: 'Invalid request', details }],
    a body sent with [reply.send] and not a frame of the event stream; the
    store is returned as it was, so no session is touched, and nothing else
    is observed: no header of the stream is set and no frame is written. *)
Theorem empty_message_rejected {W : Type} (X : External W)
    (body : JSValue) (st : Store (W:=W)) :
  prop body "message" = JUndefined ∨ prop body "message" = JStr EmptyString →
  ∃ details,
    details ≠ []
    ∧ chatRoute X body st = (Normal tt, st, [ObsSend 400 "Invalid request" details]).
Proof.
  intros Hmsg.
  assert (∃ details, details ≠ [] ∧ ChatRequestSchema_safeParse body = inl details)
    as (details & Hne & Hparse).
  { destruct body as [| | | | |items|fields];
      try (exists [InvalidType []]; split; [discriminate|reflexivity]).
    cbn [prop] in Hmsg. unfold ChatRequestSchema_safeParse.
    destruct Hmsg as [-> | ->]; destruct (assoc "sessionId" fields);
      eexists; (split; [|reflexivity]); discriminate. }
  exists details. split; [exact Hne|].
  apply chatRoute_invalid, Hparse.
Qed.

Lemma empty_message_rejected_witness :
  prop (Scenario.request EmptyString) "message" = JStr EmptyString
  ∧ ∃ details,
      details ≠ []
      ∧ chatRoute Scenario.plain (Scenario.request EmptyString) Scenario.fresh
        = (Normal tt, Scenario.fresh, [ObsSend 400 "Invalid request" details]).
Proof.
  split; [reflexivity|].
  apply (empty_message_rejected Scenario.plain (Scenario.request EmptyString)
           Scenario.fresh).
  right. reflexivity.
Defined.

Section Manual.
Context {W : Type} (X : External W).

Lemma transcript_committed (st : Store (W:=W)) (sessionId : string) (r : Role) (text : string) :
  transcript (committed X st sessionId r text) sessionId
  = transcript st sessionId ++ [(r, text)].
Proof.
  unfold transcript. rewrite committed_lookup. cbn [from_option id].
  rewrite map_app. reflexivity.
Qed.

Lemma transcript_sessions (st st' : Store (W:=W)) (sessionId : string) :
  sessions st' = sessions st → transcript st' sessionId = transcript st sessionId.
Proof. unfold transcript. intros ->. reflexivity. Qed.

(** A turn of the manual strategy, as the route runs it: the loop starts
    from the session (the user message included) followed by the input,
    the answer is committed on the store the loop leaves, and an exception
    goes to the [catch]. *)
Lemma route_manual (body : JSValue) (st : Store (W:=W))
    (message : string) (sessionId : option string) :
  manual X →
  ChatRequestSchema_safeParse body = inr (message, sessionId) →
  let sid := default "default" sessionId in
  let i := turnInput X st sid message in
  let st1 := committed X st sid user message in
  ∃ r st2 o,
    gemini_run X i (Some (callbackManager X)) st1 = (r, st2, o)
    ∧ LoopRun X maxIterations (chat_history i ++ [HumanMessage message]) st1 r st2 o
    ∧ match r with
      | Normal (ws, output) =>
          chatRoute X body st
          = (Normal tt, committed X st2 sid assistant output,
             headers
               ++ (ObsAddMessage sid (stamped X st user message) :: o)
               ++ [ObsAddMessage sid (stamped X st2 assistant output);
                   doneFrame X; ObsEnd])
      | Thrown e =>
          chatRoute X body st
          = (Normal tt, st2,
             headers ++ (ObsAddMessage sid (stamped X st user message) :: o)
               ++ caught X e)
      end.
Proof.
  intros Hm Hvalid. cbn zeta.
  destruct (gemini_run_loop X (turnInput X st (default "default" sessionId) message)
              (committed X st (default "default" sessionId) user message))
    as (r & st2 & o & E & R).
  exists r, st2, o. split; [exact E|]. split; [exact R|].
  rewrite (chatRoute_valid X body st message sessionId Hvalid).
  rewrite (turn_manual X message (default "default" sessionId) st Hm), E.
  destruct r as [[ws output]|e]; reflexivity.
Qed.

Lemma tools_no_llm tcs (st : Store (W:=W)) ms st' o :
  ToolsRun X tcs st ms st' o → Forall (λ o, isLLM o = false) o.
Proof.
  induction 1 as [|tc tcs st m st1 o1 ms st2 o2 H1 _ IH]; [constructor|].
  apply Forall_app. split; [|exact IH].
  destruct H1; repeat constructor.
Qed.

Lemma no_llm_elem (l : list Obs) msgs out :
  Forall (λ o, isLLM o = false) l → ObsLLM msgs out ∈ l → False.
Proof.
  intros Hl Hin. rewrite Forall_forall in Hl.
  specialize (Hl _ Hin). discriminate.
Qed.

(** The completion call of a pass is its first observation, and its only
    one of that kind. *)
Lemma pass_llm messages (st : Store (W:=W)) r st' o msgs out :
  PassRun X messages st r st' o →
  ObsLLM msgs out ∈ o →
  ∃ rest, o = ObsLLM messages out :: rest ∧ msgs = messages
          ∧ Forall (λ o, isLLM o = false) rest.
Proof.
  intros HP Hin.
  assert (∃ out' rest, o = ObsLLM messages out' :: rest
                       ∧ Forall (λ o, isLLM o = false) rest)
    as (out' & rest & -> & Hrest).
  { destruct HP; eexists _, _; (split; [reflexivity|]);
      first [eapply tools_no_llm; eassumption
            |repeat constructor]. }
  apply elem_of_cons in Hin as [Heq|Hin].
  - injection Heq as -> ->. eauto.
  - exfalso. eapply no_llm_elem; eassumption.
Qed.

Lemma exhausted_no_llm msgs out :
  ObsLLM msgs out ∈ [maxIterationsLine] → False.
Proof.
  intros Hin. apply list_elem_of_singleton in Hin. discriminate.
Qed.

(** A completion call that throws ends the loop with the fixed apology. *)
Lemma loop_llm_failed n messages (st : Store (W:=W)) r st' o msgs e :
  LoopRun X n messages st r st' o →
  ObsLLM msgs (Thrown e) ∈ o →
  ∃ ws, r = Normal (ws, llmFailed).
Proof.
  loop_induction; intros Hin.
  - exfalso. eapply exhausted_no_llm, Hin.
  - destruct (pass_llm _ _ _ _ _ _ _ HP Hin) as (rest & -> & -> & _).
    inversion HP; subst. eauto.
  - destruct (pass_llm _ _ _ _ _ _ _ HP Hin) as (rest & -> & -> & _).
    inversion HP.
  - apply elem_of_app in Hin as [Hin|Hin]; [|exact (IH Hin)].
    destruct (pass_llm _ _ _ _ _ _ _ HP Hin) as (rest & -> & -> & _).
    inversion HP.
Qed.

(** A response whose invalid tool calls do not parse makes the loop
    throw. *)
Lemma loop_malformed n messages (st : Store (W:=W)) r st' o msgs response e :
  LoopRun X n messages st r st' o →
  ObsLLM msgs (Normal (Some response)) ∈ o →
  collectToolCalls X response = Thrown e →
  r = Thrown e.
Proof.
  loop_induction; intros Hin Hc.
  - exfalso. eapply exhausted_no_llm, Hin.
  - destruct (pass_llm _ _ _ _ _ _ _ HP Hin) as (rest & -> & -> & _).
    inversion HP; subst; congruence.
  - destruct (pass_llm _ _ _ _ _ _ _ HP Hin) as (rest & -> & -> & _).
    inversion HP; subst; congruence.
  - apply elem_of_app in Hin as [Hin|Hin]; [|exact (IH Hin Hc)].
    destruct (pass_llm _ _ _ _ _ _ _ HP Hin) as (rest & -> & -> & _).
    inversion HP; subst; congruence.
Qed.

(** The completion calls of a turn of the route are those of its loop. *)
Lemma route_llm (o tail : list Obs) (sid : string) (m : ChatMessage) msgs out :
  Forall (λ o, isLLM o = false) tail →
  ObsLLM msgs out ∈ headers ++ (ObsAddMessage sid m :: o) ++ tail →
  ObsLLM msgs out ∈ o.
Proof.
  intros Htail Hin.
  apply elem_of_app in Hin as [Hin|Hin].
  { exfalso. eapply no_llm_elem; [|exact Hin]. repeat constructor. }
  apply elem_of_app in Hin as [Hin|Hin].
  - apply elem_of_cons in Hin as [Heq|Hin]; [discriminate|exact Hin].
  - exfalso. eapply no_llm_elem; eassumption.
Qed.

End Manual.

Section Failures.
Context {W : Type} (X : External W).

Lemma streaming_commits (l : list Obs) :
  Forall (λ o, streaming o = true) l → commits l = [].
Proof.
  induction 1 as [|o l Ho _ IH]; [reflexivity|].
  destruct o; try discriminate Ho; exact IH.
Qed.

Lemma frames_route (sessionId : string) (m : ChatMessage) (o tail : list Obs) :
  frames (headers ++ (ObsAddMessage sessionId m :: o) ++ tail) = frames o ++ frames tail.
Proof. rewrite !frames_app. reflexivity. Qed.

Lemma tokens_route (sessionId : string) (m : ChatMessage) (o tail : list Obs) :
  tokens (headers ++ (ObsAddMessage sessionId m :: o) ++ tail) = tokens o ++ tokens tail.
Proof. rewrite !tokens_app. reflexivity. Qed.

Lemma llmCalls_route (sessionId : string) (m : ChatMessage) (o tail : list Obs) :
  llmCalls (headers ++ (ObsAddMessage sessionId m :: o) ++ tail)
  = llmCalls o ++ llmCalls tail.
Proof. rewrite !llmCalls_app. reflexivity. Qed.

Lemma commits_commit (sessionId : string) (m : ChatMessage) (l : list Obs) :
  commits (ObsAddMessage sessionId m :: l) = (sessionId, m) :: commits l.
Proof. reflexivity. Qed.

(** What the route makes of a [try] block that throws. *)
Lemma route_thrown (body : JSValue) (st st' : Store (W:=W)) (message : string)
    (sessionId : option string) (reason : JSThrown) (o : list Obs) :
  ChatRequestSchema_safeParse body = inr (message, sessionId) →
  turn X message (default "default" sessionId) st = (Thrown reason, st', o) →
  finalStore (chatRoute X body st) = st'
  ∧ commits (observations (chatRoute X body st)) = commits o
  ∧ ∃ pre,
      frames (observations (chatRoute X body st))
      = pre ++ [("error",
                 JSON_stringify X
                   (JObj [("error", JStr (messageOr "Unknown error occurred" reason))]));
                ("done", JSON_stringify X (JObj []))]
      ∧ Forall (λ f, f.1 ≠ "done" ∧ f.1 ≠ "error") pre.
Proof.
  intros Hvalid Hturn.
  pose proof (turn_shape X message (default "default" sessionId) st) as Hshape.
  rewrite (chatRoute_valid X body st message sessionId Hvalid), Hturn.
  rewrite Hturn in Hshape.
  split; [reflexivity|]. split.
  - unfold observations. cbn [snd]. rewrite !commits_app. cbn.
    rewrite app_nil_r. reflexivity.
  - exists (frames o). split.
    + unfold observations. cbn [snd]. rewrite !frames_app. reflexivity.
    + apply inner_frames, Hshape.
Qed.

Lemma native_failure (message sessionId : string) (st st' : Store (W:=W))
    (r : Outcome unit) (o : list Obs) (i : string) (reason : JSThrown) :
  native X →
  turn X message sessionId st = (r, st', o) →
  ObsNative i (Thrown reason) ∈ o →
  r = Thrown reason
  ∧ sessions st' = sessions (committed X st sessionId user message)
  ∧ commits o = [(sessionId, stamped X st user message)].
Proof.
  intros Hn Heq Hin. rewrite (turn_native X message sessionId st Hn) in Heq.
  assert (Hrep : ∀ calls o', ObsNative i (Thrown reason) ∈ map (replayed X) calls ++ o'
                             → ObsNative i (Thrown reason) ∈ o').
  { intros calls o' H. induction calls as [|c calls IH]; [exact H|].
    apply elem_of_cons in H as [H|H]; [destruct c; discriminate|exact (IH H)]. }
  assert (Hcom : ∀ calls o', commits (map (replayed X) calls ++ o') = commits o').
  { intros calls o'. rewrite commits_app.
    rewrite (streaming_commits _ (replayed_streaming X calls)). reflexivity. }
  destruct (agentExecutor_invoke X message
              (chat_history (turnInput X st sessionId message)) (world st))
    as [[calls [output|e]] w]; cbn zeta in Heq.
  - exfalso. apply (f_equal snd) in Heq. cbn [snd] in Heq. subst o.
    apply elem_of_cons in Hin as [Hin|Hin]; [discriminate|].
    rewrite <- app_assoc in Hin. apply Hrep in Hin.
    repeat (apply elem_of_cons in Hin as [Hin|Hin]; [discriminate|]).
    inversion Hin.
  - pose proof (f_equal snd Heq) as Ho.
    pose proof (f_equal (λ x, snd (fst x)) Heq) as Hs.
    pose proof (f_equal (λ x, fst (fst x)) Heq) as Hr.
    cbn [fst snd] in Ho, Hs, Hr. subst o st' r.
    apply elem_of_cons in Hin as [Hin|Hin]; [discriminate|].
    apply Hrep in Hin. apply list_elem_of_singleton in Hin.
    assert (reason = e) as -> by congruence.
    split; [reflexivity|]. split; [reflexivity|].
    rewrite commits_commit, Hcom. reflexivity.
Qed.

(** The observations of a validated request are the headers, those of the
    [try] block and, when it throws, those of the [catch]. *)
Lemma route_elem (body : JSValue) (st : Store (W:=W)) (message : string)
    (sessionId : option string) (x : Obs) :
  ChatRequestSchema_safeParse body = inr (message, sessionId) →
  x ∈ observations (chatRoute X body st) →
  streaming x = true →
  x ∈ observations (turn X message (default "default" sessionId) st).
Proof.
  intros Hvalid Hin Hx.
  rewrite (chatRoute_valid X body st message sessionId Hvalid) in Hin.
  destruct (turn X message (default "default" sessionId) st) as [[[[]|e] st'] o];
    unfold observations in *; cbn [snd] in *.
  - apply elem_of_app in Hin as [Hin|Hin]; [|exact Hin].
    exfalso. unfold headers in Hin.
    repeat (apply elem_of_cons in Hin as [->|Hin]; [discriminate Hx|]).
    inversion Hin.
  - apply elem_of_app in Hin as [Hin|Hin].
    + exfalso. unfold headers in Hin.
      repeat (apply elem_of_cons in Hin as [->|Hin]; [discriminate Hx|]).
      inversion Hin.
    + apply elem_of_app in Hin as [Hin|Hin]; [exact Hin|].
      exfalso. unfold caught, errorFrame, doneFrame in Hin.
      repeat (apply elem_of_cons in Hin as [->|Hin]; [discriminate Hx|]).
      inversion Hin.
Qed.

End Failures.

(** [C2], as the code has it.  A failure of the completion engine that
    makes the executor raise reaches the [catch] of the route: this is so
    for LangChain's executor when it rejects, and for the manual loop when
    a response carries invalid tool calls whose arguments do not parse.
    The client then receives an [error] frame followed by [done], no
    assistant message is committed, and the session has gained the user
    message only.  A completion call that itself throws under the manual
    strategy is caught inside the loop instead: no [error] frame is
    written, and the fixed text "I encountered an error processing your
    request. Please try again." is committed as the assistant message just
    before [done]. *)
Theorem engine_failure_paths {W : Type} (X : External W)
    (body : JSValue) (st : Store (W:=W)) (message : string) (sessionId : option string) :
  ChatRequestSchema_safeParse body = inr (message, sessionId) →
  let sid := default "default" sessionId in
  let run := chatRoute X body st in
  (∀ reason,
     (native X ∧ ∃ i, ObsNative i (Thrown reason) ∈ observations run)
     ∨ (manual X ∧ ∃ msgs response,
          ObsLLM msgs (Normal (Some response)) ∈ observations run
          ∧ collectToolCalls X response = Thrown reason) →
     (∃ pre,
        frames (observations run)
        = pre ++ [("error",
                   JSON_stringify X
                     (JObj [("error", JStr (messageOr "Unknown error occurred" reason))]));
                  ("done", JSON_stringify X (JObj []))]
        ∧ Forall (λ f, f.1 ≠ "done" ∧ f.1 ≠ "error") pre)
     ∧ commits (observations run) = [(sid, stamped X st user message)]
     ∧ transcript (finalStore run) sid = transcript st sid ++ [(user, message)])
  ∧ (manual X →
     ∀ msgs reason,
       ObsLLM msgs (Thrown reason) ∈ observations run →
       Forall (λ f, f.1 ≠ "error") (frames (observations run))
       ∧ (∃ pre t,
            observations run
            = pre ++ [ObsAddMessage sid (mkChatMessage assistant llmFailed t);
                      doneFrame X; ObsEnd])
       ∧ transcript (finalStore run) sid
         = transcript st sid ++ [(user, message); (assistant, llmFailed)]).
Proof.
  intros Hvalid sid run. split.
  - intros reason Hfail.
    assert (∃ st' o,
              turn X message sid st = (Thrown reason, st', o)
              ∧ sessions st' = sessions (committed X st sid user message)
              ∧ commits o = [(sid, stamped X st user message)])
      as (st' & o & Hturn & Hs & Hc).
    { destruct Hfail as [[Hn [i Hin]]|[Hm (msgs & response & Hin & Hcalls)]].
      - apply (route_elem X body st message sessionId _ Hvalid) in Hin; [|reflexivity].
        fold sid in Hin.
        destruct (turn X message sid st) as [[r st'] o] eqn:Hturn.
        destruct (native_failure X message sid st st' r o i reason Hn Hturn Hin)
          as (-> & Hs & Hc).
        eauto.
      - apply (route_elem X body st message sessionId _ Hvalid) in Hin; [|reflexivity].
        fold sid in Hin. rewrite (turn_manual X message sid st Hm) in Hin |- *.
        destruct (gemini_run_loop X (turnInput X st sid message)
                    (committed X st sid user message)) as (r & st2 & o & E & R).
        rewrite E in Hin |- *.
        assert (ObsLLM msgs (Normal (Some response)) ∈ o) as Hin'.
        { destruct r as [[ws output]|e]; unfold observations in Hin; cbn [snd] in Hin.
          - apply elem_of_cons in Hin as [Hin|Hin]; [discriminate|].
            apply elem_of_app in Hin as [Hin|Hin]; [exact Hin|].
            repeat (apply elem_of_cons in Hin as [Hin|Hin]; [discriminate|]).
            inversion Hin.
          - apply elem_of_cons in Hin as [Hin|Hin]; [discriminate|exact Hin]. }
        rewrite (loop_malformed X _ _ _ _ _ _ _ _ _ R Hin' Hcalls).
        eexists _, _. split; [reflexivity|]. split.
        + eapply loop_sessions, R.
        + rewrite commits_commit.
          rewrite (streaming_commits _ (loop_streaming X _ _ _ _ _ _ R)). reflexivity. }
    destruct (route_thrown X body st st' message sessionId reason o Hvalid Hturn)
      as (Hst & Hcom & Hfr).
    split; [exact Hfr|]. split.
    + subst run. rewrite Hcom. exact Hc.
    + subst run. rewrite Hst.
      rewrite (transcript_sessions _ _ sid Hs). apply transcript_committed.
  - intros Hm msgs reason Hin.
    destruct (route_manual X body st message sessionId Hm Hvalid)
      as (r & st2 & o & _ & R & Hroute).
    fold sid in R, Hroute.
    assert (ObsLLM msgs (Thrown reason) ∈ o) as Hin'.
    { subst run. destruct r as [[ws output]|e]; rewrite Hroute in Hin;
        unfold observations in Hin; cbn [snd] in Hin;
        (eapply route_llm; [|exact Hin]); repeat constructor. }
    destruct (loop_llm_failed X _ _ _ _ _ _ _ _ R Hin') as [ws ->].
    subst run. rewrite Hroute. unfold observations, finalStore. cbn [fst snd].
    split; [|split].
    + rewrite frames_route. apply Forall_app. split.
      * eapply Forall_impl.
        -- apply inner_frames. eapply Forall_impl; [eapply loop_streaming, R|].
           intros [] H; try exact H; discriminate.
        -- intros f [_ He]. exact He.
      * repeat constructor. discriminate.
    + eexists (headers ++ _ :: o), _. rewrite <- app_assoc. reflexivity.
    + rewrite transcript_committed.
      rewrite (transcript_sessions (committed X st sid user message) st2 sid
                 (loop_sessions X _ _ _ _ _ _ R)).
      rewrite transcript_committed, <- app_assoc. reflexivity.
Qed.

(** [C2] does not hold as stated: with the manual strategy and an engine
    that cannot be reached, the only completion call of the turn throws,
    the stream carries no [error] frame, and an assistant message is
    committed to the session. *)
Lemma unreachable_engine_is_absorbed :
  let run := chatRoute Scenario.unreachable (Scenario.request "q") Scenario.fresh in
  llmOutcomes (observations run) = [Thrown (ErrorObject "fetch failed")]
  ∧ frames (observations run) = [("done", "{}")]
  ∧ transcript (finalStore run) "default"
    = [(user, "q");
       (assistant, "I encountered an error processing your request. Please try again.")].
Proof. repeat split; vm_compute; reflexivity. Qed.

Lemma engine_failure_paths_witness :
  ChatRequestSchema_safeParse (Scenario.request "q") = inr ("q", None)
  ∧ (let run := chatRoute Scenario.garbled (Scenario.request "q") Scenario.fresh in
     manual Scenario.garbled
     ∧ collectToolCalls Scenario.garbled
         (mkLLMResponse (JStr EmptyString) (Some [])
            (Some [mkToolCall (Some "lookup") (JStr "{oops")]))
       = Thrown (ErrorObject "Unexpected token in JSON")
     ∧ (∃ pre,
          frames (observations run)
          = pre ++ [("error", "{error: Unexpected token in JSON}"); ("done", "{}")]
          ∧ Forall (λ f, f.1 ≠ "done" ∧ f.1 ≠ "error") pre)
     ∧ transcript (finalStore run) "default" = [(user, "q")])
  ∧ (let run := chatRoute Scenario.rejecting (Scenario.request "q") Scenario.fresh in
     native Scenario.rejecting
     ∧ (∃ pre,
          frames (observations run)
          = pre ++ [("error", "{error: 429 Too Many Requests}"); ("done", "{}")]
          ∧ Forall (λ f, f.1 ≠ "done" ∧ f.1 ≠ "error") pre)
     ∧ transcript (finalStore run) "default" = [(user, "q")])
  ∧ (let run := chatRoute Scenario.unreachable (Scenario.request "q") Scenario.fresh in
     manual Scenario.unreachable
     ∧ Forall (λ f, f.1 ≠ "error") (frames (observations run))
     ∧ transcript (finalStore run) "default"
       = transcript Scenario.fresh "default" ++ [(user, "q"); (assistant, llmFailed)]).
Proof.
  split; [reflexivity|]. split; [|split].
  - assert (Hm : manual Scenario.garbled) by (split; reflexivity).
    split; [exact Hm|]. split; [reflexivity|].
    destruct (engine_failure_paths Scenario.garbled (Scenario.request "q")
                Scenario.fresh "q" None eq_refl) as [Hraise _].
    destruct (Hraise (ErrorObject "Unexpected token in JSON")) as (Hfr & _ & Htr).
    + right. split; [exact Hm|].
      exists [HumanMessage "q"; HumanMessage "q"].
      exists (mkLLMResponse (JStr EmptyString) (Some [])
                (Some [mkToolCall (Some "lookup") (JStr "{oops")])).
      split; [|reflexivity].
      apply list_elem_of_In. vm_compute. tauto.
    + split; [exact Hfr|exact Htr].
  - assert (Hn : native Scenario.rejecting) by (split; reflexivity).
    split; [exact Hn|].
    destruct (engine_failure_paths Scenario.rejecting (Scenario.request "q")
                Scenario.fresh "q" None eq_refl) as [Hraise _].
    destruct (Hraise (ErrorObject "429 Too Many Requests")) as (Hfr & _ & Htr).
    + left. split; [exact Hn|]. exists "q".
      apply list_elem_of_In. vm_compute. tauto.
    + split; [exact Hfr|exact Htr].
  - assert (Hm : manual Scenario.unreachable) by (split; reflexivity).
    split; [exact Hm|].
    destruct (engine_failure_paths Scenario.unreachable (Scenario.request "q")
                Scenario.fresh "q" None eq_refl) as [_ Habsorb].
    destruct (Habsorb Hm [HumanMessage "q"; HumanMessage "q"]
                (ErrorObject "fetch failed")) as (Hfr & _ & Htr).
    + apply list_elem_of_In. vm_compute. tauto.
    + split; [exact Hfr|exact Htr].
Defined.

Section Answers.
Context {W : Type} (X : External W).

Lemma tools_tokens tcs (st : Store (W:=W)) ms st' o :
  ToolsRun X tcs st ms st' o → tokens o = [].
Proof.
  induction 1 as [|tc tcs st m st1 o1 ms st2 o2 H1 _ IH]; [reflexivity|].
  rewrite tokens_app, IH. destruct H1; reflexivity.
Qed.

Lemma pass_tokens messages (st : Store (W:=W)) r st' o :
  PassRun X messages st r st' o → tokens o = [].
Proof.
  intros []; try reflexivity.
  change (tokens (ObsLLM ?m ?r :: ?l)) with (tokens l).
  eapply tools_tokens; eassumption.
Qed.

(** The executor finds no [handleLLMNewToken] on the route's callback
    manager: its run writes no token frame. *)
Lemma loop_tokens n messages (st : Store (W:=W)) r st' o :
  LoopRun X n messages st r st' o → tokens o = [].
Proof.
  induction 1; try reflexivity; try (eapply pass_tokens; eassumption).
  rewrite tokens_app, IHLoopRun. rewrite (pass_tokens _ _ _ _ _ H). reflexivity.
Qed.

(** The pass that receives a response without tool calls is the last one:
    the loop returns the text of the response, or the fallback when the
    text is empty. *)
Lemma loop_final n messages (st : Store (W:=W)) r st' o msgs response :
  LoopRun X n messages st r st' o →
  ObsLLM msgs (Normal (Some response)) ∈ o →
  collectToolCalls X response = Normal [] →
  ∃ ws, r = Normal (ws, answer (extractContent X (response_content response))).
Proof.
  loop_induction; intros Hin Hc.
  - exfalso. eapply exhausted_no_llm, Hin.
  - destruct (pass_llm X _ _ _ _ _ _ _ HP Hin) as (rest & -> & -> & _).
    inversion HP; subst; try congruence. eauto.
  - destruct (pass_llm X _ _ _ _ _ _ _ HP Hin) as (rest & -> & -> & _).
    inversion HP; subst; congruence.
  - apply elem_of_app in Hin as [Hin|Hin].
    + destruct (pass_llm X _ _ _ _ _ _ _ HP Hin) as (rest & -> & -> & _).
      inversion HP; subst; congruence.
    + exact (IH Hin Hc).
Qed.

(** A completion call that brings no response is the last one: the loop
    returns the apology of the case. *)
Lemma loop_apology n messages (st : Store (W:=W)) r st' o msgs out :
  LoopRun X n messages st r st' o →
  ObsLLM msgs out ∈ o →
  (∀ response, out ≠ Normal (Some response)) →
  (∃ ws, r = Normal (ws, apology out)) ∧ tokens o = [].
Proof.
  intros R Hin Hout. split; [|eapply loop_tokens, R].
  revert Hin Hout. induction R as [messages st|n messages st output st1 o1 HP
                                  |n messages st e' st1 o1 HP
                                  |n messages st messages' st1 o1 r st2 o2 HP R IH];
    intros Hin Hout.
  - exfalso. eapply exhausted_no_llm, Hin.
  - destruct (pass_llm X _ _ _ _ _ _ _ HP Hin) as (rest & -> & -> & _).
    inversion HP; subst; try (exfalso; eapply Hout; reflexivity); eauto.
  - destruct (pass_llm X _ _ _ _ _ _ _ HP Hin) as (rest & -> & -> & _).
    inversion HP; subst. exfalso; eapply Hout; reflexivity.
  - apply elem_of_app in Hin as [Hin|Hin].
    + destruct (pass_llm X _ _ _ _ _ _ _ HP Hin) as (rest & -> & -> & _).
      inversion HP; subst. exfalso; eapply Hout; reflexivity.
    + exact (IH Hin Hout).
Qed.

(** Whatever path the loop takes, what it returns is not empty. *)
Lemma loop_output_nonempty n messages (st : Store (W:=W)) ws output st' o :
  LoopRun X n messages st (Normal (ws, output)) st' o → nonempty output = true.
Proof.
  remember (Normal (ws, output)) as r eqn:Hr. intros R. revert ws output Hr.
  loop_induction_on R;
    intros ws output Hr.
  - injection Hr as <- <-.
    destruct (nonempty (lastContent messages)) eqn:E; [exact E|reflexivity].
  - injection Hr as <- <-. inversion HP; subst; try reflexivity.
    unfold answer.
    destruct (nonempty (extractContent X (response_content response))) eqn:E;
      [exact E|reflexivity].
  - discriminate.
  - eapply IH, Hr.
Qed.

Lemma safeParse_nonempty (body : JSValue) (message : string) (sessionId : option string) :
  ChatRequestSchema_safeParse body = inr (message, sessionId) →
  nonempty message = true.
Proof.
  unfold ChatRequestSchema_safeParse. destruct body; try discriminate.
  destruct (assoc "message" fields) as [| | | |s| |]; try
    (destruct (assoc "sessionId" fields); discriminate).
  destruct (nonempty s) eqn:E;
    destruct (assoc "sessionId" fields); try discriminate;
    intros H; injection H as <- _; exact E.
Qed.

Lemma history_committed (st : Store (W:=W)) (sessionId : string) (r : Role) (text : string) :
  history (committed X st sessionId r text) sessionId
  = history st sessionId ++ [stamped X st r text].
Proof. unfold history. rewrite committed_lookup. reflexivity. Qed.

Lemma history_sessions (st st' : Store (W:=W)) (sessionId : string) :
  sessions st' = sessions st → history st' sessionId = history st sessionId.
Proof. unfold history. intros ->. reflexivity. Qed.

Lemma route_failed_factory (body : JSValue) (st : Store (W:=W)) (message : string)
    (sessionId : option string) (e : JSThrown) :
  ChatRequestSchema_safeParse body = inr (message, sessionId) →
  createLLM X st = (Thrown e, st, []) →
  chatRoute X body st = (Normal tt, st, headers ++ caught X e).
Proof.
  intros Hvalid E.
  rewrite (chatRoute_valid X body st message sessionId Hvalid).
  rewrite (turn_failed_factory X message _ st e E). reflexivity.
Qed.

Lemma manual_not_native : manual X → native X → False.
Proof. intros [Hm _] [Hn _]. rewrite Hm in Hn. discriminate. Qed.

End Answers.

Section ManualViews.
Context {W : Type} (X : External W).

(** The views of a turn of the manual strategy, in terms of the run of its
    loop. *)
Lemma manual_turn (body : JSValue) (st : Store (W:=W))
    (message : string) (sessionId : option string) :
  manual X →
  ChatRequestSchema_safeParse body = inr (message, sessionId) →
  let sid := default "default" sessionId in
  let run := chatRoute X body st in
  let i := turnInput X st sid message in
  let st1 := committed X st sid user message in
  ∃ r st2 o,
    gemini_run X i (Some (callbackManager X)) st1 = (r, st2, o)
    ∧ LoopRun X maxIterations (chat_history i ++ [HumanMessage message]) st1 r st2 o
    ∧ (∀ x, x ∈ observations run → streaming x = true → x ∈ o)
    ∧ (∀ x, x ∈ o → x ∈ observations run)
    ∧ tokens (observations run) = tokens o
    ∧ llmCalls (observations run) = llmCalls o
    ∧ match r with
      | Normal (ws, output) =>
          observations run
          = (headers ++ ObsAddMessage sid (stamped X st user message) :: o)
              ++ [ObsAddMessage sid (stamped X st2 assistant output); doneFrame X; ObsEnd]
          ∧ commits (observations run)
            = [(sid, stamped X st user message); (sid, stamped X st2 assistant output)]
          ∧ frames (observations run)
            = frames o ++ [("done", JSON_stringify X (JObj []))]
          ∧ transcript (finalStore run) sid
            = transcript st sid ++ [(user, message); (assistant, output)]
      | Thrown e =>
          commits (observations run) = [(sid, stamped X st user message)]
          ∧ frames (observations run)
            = frames o
                ++ [("error",
                     JSON_stringify X
                       (JObj [("error", JStr (messageOr "Unknown error occurred" e))]));
                    ("done", JSON_stringify X (JObj []))]
          ∧ transcript (finalStore run) sid = transcript st sid ++ [(user, message)]
      end.
Proof.
  intros Hm Hvalid. cbn zeta.
  destruct (route_manual X body st message sessionId Hm Hvalid)
    as (r & st2 & o & E & R & Hroute).
  exists r, st2, o. split; [exact E|]. split; [exact R|].
  pose proof (loop_streaming X _ _ _ _ _ _ R) as Hstream.
  pose proof (loop_sessions X _ _ _ _ _ _ R) as Hsess.
  set (sid := default "default" sessionId) in *.
  assert (Hmem : ∀ x tail,
            Forall (λ o, streaming o = false) tail →
            x ∈ headers ++ (ObsAddMessage sid (stamped X st user message) :: o) ++ tail →
            streaming x = true → x ∈ o).
  { intros x tail Htail Hin Hx.
    apply elem_of_app in Hin as [Hin|Hin].
    { exfalso. unfold headers in Hin.
      repeat (apply elem_of_cons in Hin as [->|Hin]; [discriminate Hx|]).
      inversion Hin. }
    apply elem_of_app in Hin as [Hin|Hin].
    - apply elem_of_cons in Hin as [->|Hin]; [discriminate Hx|exact Hin].
    - exfalso. rewrite Forall_forall in Htail. specialize (Htail _ Hin). congruence. }
  assert (Hsub : ∀ x tail,
            x ∈ o →
            x ∈ headers ++ (ObsAddMessage sid (stamped X st user message) :: o) ++ tail).
  { intros x tail Hin. apply elem_of_app. right. apply elem_of_app. left.
    apply elem_of_cons. right. exact Hin. }
  destruct r as [[ws output]|e]; rewrite Hroute;
    unfold observations, finalStore; cbn [fst snd].
  - split; [intros x; apply Hmem; repeat constructor|].
    split; [intros x; apply Hsub|].
    split; [rewrite tokens_route, app_nil_r; reflexivity|].
    split; [rewrite llmCalls_route, app_nil_r; reflexivity|].
    split; [rewrite <- app_assoc; reflexivity|].
    split; [|split].
    + rewrite !commits_app, commits_commit, (streaming_commits _ Hstream). reflexivity.
    + rewrite frames_route. reflexivity.
    + rewrite transcript_committed.
      rewrite (transcript_sessions (committed X st sid user message) st2 sid Hsess).
      rewrite transcript_committed, <- app_assoc. reflexivity.
  - split; [intros x; apply Hmem; repeat constructor|].
    split; [intros x; apply Hsub|].
    split; [rewrite tokens_route, app_nil_r; reflexivity|].
    split; [rewrite llmCalls_route, app_nil_r; reflexivity|].
    split; [|split].
    + rewrite !commits_app, commits_commit, (streaming_commits _ Hstream). reflexivity.
    + rewrite frames_route. reflexivity.
    + rewrite (transcript_sessions (committed X st sid user message) st2 sid Hsess).
      apply transcript_committed.
Qed.

End ManualViews.







Section Budget.
Context {W : Type} (X : External W).

Lemma no_llm_calls (l : list Obs) :
  Forall (λ o, isLLM o = false) l → llmCalls l = [].
Proof.
  induction 1 as [|o l Ho _ IH]; [reflexivity|].
  destruct o; try discriminate Ho; exact IH.
Qed.

(** A pass calls the completion engine once, first, with [messages]. *)
Lemma pass_head messages (st : Store (W:=W)) r st' o :
  PassRun X messages st r st' o →
  ∃ out rest, o = ObsLLM messages out :: rest ∧ llmCalls o = [messages].
Proof.
  intros HP.
  assert (∃ out rest, o = ObsLLM messages out :: rest
                      ∧ Forall (λ o, isLLM o = false) rest)
    as (out & rest & -> & Hrest).
  { destruct HP; eexists _, _; (split; [reflexivity|]);
      first [eapply tools_no_llm; eassumption
            |repeat constructor]. }
  exists out, rest. split; [reflexivity|].
  change (llmCalls (ObsLLM ?m ?r :: ?l)) with (m :: llmCalls l).
  rewrite (no_llm_calls _ Hrest). reflexivity.
Qed.

(** The loop calls the completion engine at most [n] times when it is
    entered with [n] passes left. *)
Lemma loop_rounds n messages (st : Store (W:=W)) r st' o :
  LoopRun X n messages st r st' o → length (llmCalls o) ≤ n.
Proof.
  loop_induction.
  - cbn. lia.
  - destruct (pass_head _ _ _ _ _ HP) as (out & rest & _ & ->). cbn. lia.
  - destruct (pass_head _ _ _ _ _ HP) as (out & rest & _ & ->). cbn. lia.
  - destruct (pass_head _ _ _ _ _ HP) as (out & rest & _ & Hc).
    rewrite llmCalls_app, Hc. cbn. lia.
Qed.

Lemma tools_results tcs (st : Store (W:=W)) ms st' o :
  ToolsRun X tcs st ms st' o →
  length ms = length tcs
  ∧ Forall (λ m, nonempty (messageContent m) = true) ms.
Proof.
  induction 1 as [|tc tcs st m st1 o1 ms st2 o2 H1 _ [IHl IHf]].
  - split; [reflexivity|constructor].
  - split; [cbn; rewrite IHl; reflexivity|].
    constructor; [|exact IHf]. destruct H1; reflexivity.
Qed.

Lemma lastContent_app (l results : list BaseMessage) :
  results ≠ [] →
  Forall (λ m, nonempty (messageContent m) = true) results →
  nonempty (lastContent (l ++ results)) = true.
Proof.
  intros Hne Hall. unfold lastContent.
  destruct (last results) as [m|] eqn:Hlast.
  - rewrite last_app, Hlast.
    rewrite Forall_forall in Hall. apply Hall.
    apply last_Some in Hlast as [l' ->]. apply elem_of_app. right. constructor.
  - apply last_None in Hlast. contradiction.
Qed.

(** After a pass that ran tools the working sequence ends with a
    tool-result message, whose text is not empty. *)
Lemma pass_continue_last messages (st : Store (W:=W)) messages' st' o :
  PassRun X messages st (Normal (Continue messages')) st' o →
  nonempty (lastContent messages') = true.
Proof.
  inversion 1 as [| | | |response w tc tcs results st2 o2 Hllm Hcalls HT]; subst.
  destruct (tools_results _ _ _ _ _ HT) as [Hlen Hall].
  rewrite cons_middle, app_assoc. apply lastContent_app; [|exact Hall].
  destruct results; [discriminate Hlen|discriminate].
Qed.

Lemma loop_last n messages (st : Store (W:=W)) ws output st' o :
  LoopRun X n messages st (Normal (ws, output)) st' o →
  nonempty (lastContent messages) = true →
  nonempty (lastContent ws) = true.
Proof.
  remember (Normal (ws, output)) as r eqn:Hr. intros R. revert ws output Hr.
  loop_induction_on R;
    intros ws output Hr Hlast.
  - injection Hr as <- _. exact Hlast.
  - injection Hr as <- _. exact Hlast.
  - discriminate.
  - eapply IH; [exact Hr|]. eapply pass_continue_last, HP.
Qed.

(** When every completion of the run asks for tools, the loop uses up its
    passes and returns the text of the last message of the working
    sequence. *)
Lemma loop_exhausts n messages (st : Store (W:=W)) r st' o :
  LoopRun X n messages st r st' o →
  (∀ msgs out, ObsLLM msgs out ∈ o → requestsTools X out) →
  length (llmCalls o) = n
  ∧ ∃ ws, r = Normal (ws, if nonempty (lastContent ws) then lastContent ws
                          else exhausted).
Proof.
  loop_induction; intros Hall.
  - split; [reflexivity|eauto].
  - exfalso. destruct (pass_head _ _ _ _ _ HP) as (out & rest & -> & _).
    destruct (Hall messages out) as (response & tc & tcs & -> & Hc); [constructor|].
    inversion HP; subst; congruence.
  - exfalso. destruct (pass_head _ _ _ _ _ HP) as (out & rest & -> & _).
    destruct (Hall messages out) as (response & tc & tcs & -> & Hc); [constructor|].
    inversion HP; subst; congruence.
  - destruct IH as (Hlen & Hr).
    { intros msgs out Hin. apply (Hall msgs out), elem_of_app. right. exact Hin. }
    destruct (pass_head _ _ _ _ _ HP) as (out & rest & _ & Hc).
    split; [|exact Hr].
    rewrite llmCalls_app, Hc. cbn. rewrite Hlen. reflexivity.
Qed.

End Budget.

(** [C4] A turn of the manual strategy calls the completion engine at most
    [maxIterations] = 5 times.  When every completion of the turn comes
    back asking for tools, so that the chain of tool calls is cut by the
    budget, the turn still completes: there were exactly five rounds, the
    executor returns, without raising, the text of the last message of its
    working sequence, which is not empty; that text is committed as the
    assistant message, and the commit is followed by [done]; no [error]
    frame is written. *)
Theorem round_budget {W : Type} (X : External W)
    (body : JSValue) (st : Store (W:=W)) (message : string) (sessionId : option string) :
  manual X →
  ChatRequestSchema_safeParse body = inr (message, sessionId) →
  let sid := default "default" sessionId in
  let run := chatRoute X body st in
  length (llmCalls (observations run)) ≤ maxIterations
  ∧ ((∀ msgs out, ObsLLM msgs out ∈ observations run → requestsTools X out) →
     length (llmCalls (observations run)) = maxIterations
     ∧ Forall (λ f, f.1 ≠ "error") (frames (observations run))
     ∧ ∃ ws text pre t,
         (gemini_run X (turnInput X st sid message) (Some (callbackManager X))
                     (committed X st sid user message)).1.1
         = Normal (ws, text)
         ∧ text = lastContent ws
         ∧ nonempty text = true
         ∧ observations run
           = pre ++ [ObsAddMessage sid (mkChatMessage assistant text t);
                     doneFrame X; ObsEnd]).
Proof.
  intros Hm Hvalid sid run.
  destruct (manual_turn X body st message sessionId Hm Hvalid)
    as (r & st2 & o & E & R & Hmem & Hsub & Htok & Hllm & Hviews).
  fold sid run in E, R, Hmem, Hsub, Htok, Hllm, Hviews.
  split; [rewrite Hllm; eapply loop_rounds, R|].
  intros Hall.
  destruct (loop_exhausts X _ _ _ _ _ _ R) as (Hlen & ws & ->).
  { intros msgs out Hin. apply (Hall msgs out), Hsub, Hin. }
  assert (nonempty (lastContent ws) = true) as Hlast.
  { eapply loop_last; [exact R|].
    unfold lastContent. rewrite last_snoc. cbn.
    eapply safeParse_nonempty, Hvalid. }
  rewrite Hlast in *. destruct Hviews as (Hobs & _ & Hfr & _).
  split; [rewrite Hllm; exact Hlen|]. split.
  - rewrite Hfr. apply Forall_app. split; [|repeat constructor; discriminate].
    eapply Forall_impl.
    + apply inner_frames. eapply Forall_impl; [eapply loop_streaming, R|].
      intros [] H; try exact H; discriminate.
    + intros f [_ He]. exact He.
  - exists ws, (lastContent ws). eexists _, _.
    split; [rewrite E; reflexivity|]. split; [reflexivity|].
    split; [exact Hlast|exact Hobs].
Qed.

Lemma round_budget_witness :
  let run := chatRoute Scenario.alwaysLookup (Scenario.request "q") Scenario.fresh in
  manual Scenario.alwaysLookup
  ∧ ChatRequestSchema_safeParse (Scenario.request "q") = inr ("q", None)
  ∧ (∀ msgs out,
       ObsLLM msgs out ∈ observations run → requestsTools Scenario.alwaysLookup out)
  ∧ length (llmCalls (observations run)) = 5
  ∧ Forall (λ f, f.1 ≠ "error") (frames (observations run))
  ∧ ∃ pre t,
      observations run
      = pre ++ [ObsAddMessage "default"
                  (mkChatMessage assistant "Tool lookup returned: X" t);
                ObsSSE "done" "{}"; ObsEnd].
Proof.
  cbv zeta.
  assert (Hm : manual Scenario.alwaysLookup) by (split; reflexivity).
  assert (Hall : ∀ msgs out,
            ObsLLM msgs out
              ∈ observations (chatRoute Scenario.alwaysLookup (Scenario.request "q")
                                        Scenario.fresh)
            → requestsTools Scenario.alwaysLookup out).
  { intros msgs out Hin. apply list_elem_of_In in Hin. vm_compute in Hin.
    repeat (destruct Hin as [Hin|Hin];
            [first [discriminate Hin
                   |injection Hin as _ <-; eexists _, _, _; split; reflexivity]|]).
    destruct Hin. }
  split; [exact Hm|]. split; [reflexivity|]. split; [exact Hall|].
  destruct (round_budget Scenario.alwaysLookup (Scenario.request "q") Scenario.fresh
              "q" None Hm eq_refl) as [_ Hcut].
  destruct (Hcut Hall) as (Hlen & Hquiet & ws & text & pre & t & Hrun & _ & _ & Hobs).
  split; [exact Hlen|]. split; [exact Hquiet|].
  exists pre, t. rewrite Hobs. repeat f_equal.
  vm_compute in Hrun. injection Hrun as _ <-. reflexivity.
Defined.

Section Feedback.
Context {W : Type} (X : External W).

(** A tool is registered under its own name. *)
Lemma toolMap_name (n : string) (t : Tool W) :
  toolMap X !! n = Some t → tool_name t = n.
Proof.
  unfold toolMap.
  assert (∀ l (m : gmap string (Tool W)),
            (∀ n t, m !! n = Some t → tool_name t = n) →
            ∀ n t, foldl (λ m tool, <[tool_name tool := tool]> m) m l !! n = Some t →
                   tool_name t = n) as Hfold.
  { induction l as [|tool l IH]; intros m Hm n' t' Hlook; [exact (Hm _ _ Hlook)|].
    cbn [foldl] in Hlook. eapply IH; [|exact Hlook].
    intros n'' t'' H. apply lookup_insert_Some in H as [[<- <-]|[_ H]];
      [reflexivity|exact (Hm _ _ H)]. }
  apply Hfold. intros n' t' H. rewrite lookup_empty in H. discriminate.
Qed.

Lemma toolMap_get_name (toolName : option string) (t : Tool W) :
  toolMap_get X toolName = Some t → toolName = Some (tool_name t).
Proof.
  destruct toolName as [n|]; [|discriminate].
  intros H. apply toolMap_name in H. rewrite H. reflexivity.
Qed.

Lemma tools_thrown tcs (st : Store (W:=W)) ms st' o name args e :
  ToolsRun X tcs st ms st' o →
  ObsTool name args (Thrown e) ∈ o →
  thrownRecord name e ∈ ms.
Proof.
  induction 1 as [|tc tcs st m st1 o1 ms st2 o2 H1 _ IH]; intros Hin.
  - inversion Hin.
  - apply elem_of_cons.
    apply elem_of_app in Hin as [Hin|Hin]; [left|right; exact (IH Hin)].
    destruct H1 as [t v w Hget _|t e' w Hget _|Hget];
      repeat (apply elem_of_cons in Hin as [Hin|Hin]; [try discriminate Hin|]);
      try (inversion Hin; fail).
    injection Hin as -> _ ->.
    apply toolMap_get_name in Hget. rewrite Hget. reflexivity.
Qed.

(** A pass that returns or throws runs no tool. *)
Lemma pass_end_no_tool messages (st : Store (W:=W)) r st' o :
  PassRun X messages st r st' o →
  (∀ messages', r ≠ Normal (Continue messages')) →
  toolRuns o = [].
Proof.
  intros HP Hr. destruct HP; try reflexivity.
  exfalso. eapply Hr. reflexivity.
Qed.

Lemma toolRuns_split (pre post : list Obs) name args outcome :
  toolRuns (pre ++ ObsTool name args outcome :: post) ≠ [].
Proof.
  rewrite toolRuns_app. cbn. intros H. apply app_eq_nil in H as [_ H]. discriminate.
Qed.

(** A loop entered with passes left starts by a completion call on its
    [messages]. *)
Lemma loop_head n messages (st : Store (W:=W)) r st' o :
  LoopRun X (S n) messages st r st' o → ∃ rest, llmCalls o = messages :: rest.
Proof.
  inversion 1 as [|? ? ? ? ? ? HP|? ? ? ? ? ? HP|? ? ? ? ? ? ? ? ? HP]; subst;
    destruct (pass_head X _ _ _ _ _ HP) as (out & rest & _ & Hc).
  - eauto.
  - eauto.
  - rewrite llmCalls_app, Hc. eauto.
Qed.

Lemma llmCalls_suffix (pre post l : list Obs) (x : Obs) :
  Forall (λ o, isLLM o = false) l → l = pre ++ x :: post → llmCalls post = [].
Proof.
  intros Hl ->. apply Forall_app in Hl as [_ Hl].
  apply Forall_cons in Hl as [_ Hl]. apply no_llm_calls, Hl.
Qed.

Lemma pass_continue_inv messages (st : Store (W:=W)) messages' st' o :
  PassRun X messages st (Normal (Continue messages')) st' o →
  ∃ response w tc tcs results otools,
    o = ObsLLM messages (Normal (Some response)) :: otools
    ∧ llm_invoke X messages (world st) = (Normal (Some response), w)
    ∧ collectToolCalls X response = Normal (tc :: tcs)
    ∧ ToolsRun X (tc :: tcs) (withWorld st w) results st' otools
    ∧ messages'
      = messages
          ++ [AIMessage (extractContent X (response_content response)) (Some (tc :: tcs))]
          ++ results.
Proof.
  inversion 1; subst. eexists _, _, _, _, _, _.
  split; [reflexivity|]. split; [eassumption|]. split; [eassumption|].
  split; [eassumption|reflexivity].
Qed.

(** Where a tool throws in a run of the loop, the text of the error is in
    the next completion request, or, when the budget is spent, in the
    working sequence with which the loop returns. *)
Lemma loop_fed_back n messages (st : Store (W:=W)) r st' o :
  LoopRun X n messages st r st' o →
  ∀ pre post name args e,
    o = pre ++ ObsTool name args (Thrown e) :: post →
    (∃ msgs rest, llmCalls post = msgs :: rest ∧ thrownRecord name e ∈ msgs)
    ∨ (llmCalls post = []
       ∧ length (llmCalls pre) = n
       ∧ maxIterationsLine ∈ post
       ∧ ∃ ws output, r = Normal (ws, output) ∧ thrownRecord name e ∈ ws).
Proof.
  loop_induction;
    intros pre post name args e Ho.
  - exfalso. apply (toolRuns_split pre post name args (Thrown e)). rewrite <- Ho.
    reflexivity.
  - exfalso. apply (toolRuns_split pre post name args (Thrown e)). rewrite <- Ho.
    eapply pass_end_no_tool; [exact HP|]. discriminate.
  - exfalso. apply (toolRuns_split pre post name args (Thrown e)). rewrite <- Ho.
    eapply pass_end_no_tool; [exact HP|]. discriminate.
  - destruct (pass_head X _ _ _ _ _ HP) as (out & rest1 & Ho1 & Hc1).
    apply app_eq_inv in Ho as [(l & -> & Hl)|(l & -> & ->)].
    + destruct l as [|x l'].
      * cbn in Hl. subst o2. rewrite app_nil_r in Hc1.
        destruct (IH [] post name args e eq_refl)
          as [Hnext|(Hnone & Hlen & Hline & Hret)]; [left; exact Hnext|].
        right. split; [exact Hnone|]. split; [|split; [exact Hline|exact Hret]].
        rewrite Hc1. cbn in Hlen |- *. rewrite <- Hlen. reflexivity.
      * injection Hl as <- ->.
        destruct (pass_continue_inv _ _ _ _ _ HP)
          as (response & w & tc & tcs & results & otools & Hobs & _ & _ & HT & ->).
        destruct pre as [|p pre']; [discriminate Hobs|].
        injection Hobs as -> Htools.
        assert (thrownRecord name e ∈ results) as Hrec.
        { eapply tools_thrown; [exact HT|]. rewrite <- Htools.
          apply elem_of_app. right. constructor. }
        pose proof (tools_no_llm X _ _ _ _ _ HT) as Hno. rewrite <- Htools in Hno.
        assert (llmCalls l' = []) as Hquiet.
        { eapply llmCalls_suffix; [exact Hno|reflexivity]. }
        assert (thrownRecord name e
                  ∈ messages
                      ++ [AIMessage (extractContent X (response_content response))
                            (Some (tc :: tcs))] ++ results) as Hfed.
        { apply elem_of_app. right. apply elem_of_app. right. exact Hrec. }
        rewrite llmCalls_app, Hquiet. cbn [app].
        destruct n as [|n].
        -- right. inversion R; subst. split; [|split; [|split]].
           ++ reflexivity.
           ++ change (llmCalls (ObsLLM ?m ?r :: ?l)) with (m :: llmCalls l).
              rewrite (no_llm_calls pre'); [reflexivity|].
              apply Forall_app in Hno as [Hno _]. exact Hno.
           ++ apply elem_of_app. right. constructor.
           ++ eexists _, _. split; [reflexivity|exact Hfed].
        -- left. destruct (loop_head _ _ _ _ _ _ R) as [rest ->].
           eexists _, _. split; [reflexivity|exact Hfed].
    + destruct (IH l post name args e eq_refl)
        as [Hnext|(Hnone & Hlen & Hline & Hret)]; [left; exact Hnext|].
      right. split; [exact Hnone|]. split; [|split; [exact Hline|exact Hret]].
      rewrite llmCalls_app, Hc1. cbn. rewrite Hlen. reflexivity.
Qed.

End Feedback.

(** [C5], as the code has it.  When the registered executor of a tool
    throws during a run of the manual loop, the run goes on: the message
    "Tool <name> error: <text>" is appended to the working sequence as the
    tool's result, where <text> is the message of the thrown error, or
    "Tool execution failed" when what was thrown is not an [Error]; and the
    next thing the loop asks of the completion engine is a completion of a
    sequence that holds this message.  The exception is the fifth round: the
    budget is then spent, no further completion is requested, and the loop
    returns normally with a working sequence that holds the message. *)
Theorem thrown_tool_is_fed_back {W : Type} (X : External W)
    (i : ExecutorInput) (st : Store (W:=W))
    (pre post : list Obs) (name : string) (args : JSValue) (e : JSThrown) :
  observations (gemini_run X i (Some (callbackManager X)) st)
  = pre ++ ObsTool name args (Thrown e) :: post →
  (∃ msgs rest, llmCalls post = msgs :: rest ∧ thrownRecord name e ∈ msgs)
  ∨ (llmCalls post = []
     ∧ length (llmCalls pre) = maxIterations
     ∧ maxIterationsLine ∈ post
     ∧ ∃ ws output,
         (gemini_run X i (Some (callbackManager X)) st).1.1 = Normal (ws, output)
         ∧ thrownRecord name e ∈ ws).
Proof.
  destruct (gemini_run_loop X i st) as (r & st' & o & E & R).
  rewrite E. unfold observations. cbn [fst snd]. intros Ho.
  exact (loop_fed_back X _ _ _ _ _ _ R pre post name args e Ho).
Qed.

Lemma thrown_tool_is_fed_back_witness :
  let obs := observations
               (gemini_run Scenario.boomThenAnswer (mkInput "q" [])
                  (Some (callbackManager Scenario.boomThenAnswer)) Scenario.fresh) in
  obs = take 2 obs ++ ObsTool "boom" (JObj []) (Thrown (ErrorObject "kaput")) :: drop 3 obs
  ∧ ∃ msgs rest,
      llmCalls (drop 3 obs) = msgs :: rest
      ∧ AIMessage "Tool boom error: kaput" None ∈ msgs.
Proof.
  cbv zeta. split; [reflexivity|].
  destruct (thrown_tool_is_fed_back Scenario.boomThenAnswer (mkInput "q" [])
              Scenario.fresh
              (take 2 (observations
                         (gemini_run Scenario.boomThenAnswer (mkInput "q" [])
                            (Some (callbackManager Scenario.boomThenAnswer))
                            Scenario.fresh)))
              (drop 3 (observations
                         (gemini_run Scenario.boomThenAnswer (mkInput "q" [])
                            (Some (callbackManager Scenario.boomThenAnswer))
                            Scenario.fresh)))
              "boom" (JObj []) (ErrorObject "kaput") eq_refl)
    as [Hnext|(Hnone & _)].
  - exact Hnext.
  - discriminate Hnone.
Defined.

(** [C5] does not hold as stated: when the tool throws in the fifth round
    of a turn, the loop does not request another completion.  Here the
    tool throws in every round; after its fifth failure no completion call
    is observed, and the recorded error text is what the turn commits as
    its answer. *)
Lemma fifth_round_failure_ends_the_turn :
  let run := chatRoute Scenario.alwaysBoom (Scenario.request "q") Scenario.fresh in
  let obs := observations run in
  obs = take 23 obs ++ ObsTool "boom" (JObj []) (Thrown (ErrorObject "kaput")) :: drop 24 obs
  ∧ length (llmCalls (take 23 obs)) = 5
  ∧ llmCalls (drop 24 obs) = []
  ∧ transcript (finalStore run) "default"
    = [(user, "q"); (assistant, "Tool boom error: kaput")].
Proof. repeat split; vm_compute; reflexivity. Qed.

Section Missing.
Context {W : Type} (X : External W).

Lemma tools_missing tcs (st : Store (W:=W)) ms st' o tc :
  ToolsRun X tcs st ms st' o →
  tc ∈ tcs →
  toolMap_get X (tc_name tc) = None →
  missingRecord (tc_name tc) ∈ ms.
Proof.
  induction 1 as [|tc' tcs st m st1 o1 ms st2 o2 H1 _ IH]; intros Hin Hget.
  - inversion Hin.
  - apply elem_of_cons. apply elem_of_cons in Hin as [->|Hin]; [left|right; auto].
    destruct H1; [congruence|congruence|reflexivity].
Qed.

Lemma executions_cons (tc : ToolCall) (tcs : list ToolCall) :
  executions X (tc :: tcs)
  = match toolMap_get X (tc_name tc) with
    | Some t => (tool_name t, parseArgs X (tc_args tc)) :: executions X tcs
    | None => executions X tcs
    end.
Proof.
  unfold executions. cbn [omap list_omap].
  destruct (toolMap_get X (tc_name tc)); reflexivity.
Qed.

(** The tools that run in a pass are those of the requested calls that
    are registered, in the order of the requests. *)
Lemma tools_executions tcs (st : Store (W:=W)) ms st' o :
  ToolsRun X tcs st ms st' o → toolRuns o = executions X tcs.
Proof.
  induction 1 as [|tc tcs st m st1 o1 ms st2 o2 H1 _ IH]; [reflexivity|].
  rewrite toolRuns_app, IH, executions_cons.
  destruct H1 as [t v w Hget _|t e w Hget _|Hget]; rewrite Hget; reflexivity.
Qed.

Lemma llm_first (a : list BaseMessage) (b : Outcome (option LLMResponse))
    (rest pre post : list Obs) msgs out :
  Forall (λ o, isLLM o = false) rest →
  ObsLLM a b :: rest = pre ++ ObsLLM msgs out :: post →
  pre = [] ∧ a = msgs ∧ b = out ∧ rest = post.
Proof.
  intros Hrest H. destruct pre as [|p pre'].
  - injection H as -> -> ->. auto.
  - exfalso. injection H as _ ->. apply Forall_app in Hrest as [_ Hrest].
    apply Forall_cons in Hrest as [Hx _]. discriminate Hx.
Qed.

Lemma llmCalls_split (pre post : list Obs) msgs out :
  llmCalls (pre ++ ObsLLM msgs out :: post) ≠ [].
Proof.
  rewrite llmCalls_app. cbn. intros H. apply app_eq_nil in H as [_ H]. discriminate.
Qed.

(** Where a response asks for a tool that is not registered, the other
    calls of the response are run all the same, the "not found" message is
    in the next completion request, or, when the budget is spent, in the
    working sequence with which the loop returns. *)
Lemma loop_missing n messages (st : Store (W:=W)) r st' o :
  LoopRun X n messages st r st' o →
  ∀ pre post msgs response calls tc,
    o = pre ++ ObsLLM msgs (Normal (Some response)) :: post →
    collectToolCalls X response = Normal calls →
    tc ∈ calls →
    toolMap_get X (tc_name tc) = None →
    ∃ otools later,
      post = otools ++ later
      ∧ toolRuns otools = executions X calls
      ∧ llmCalls otools = []
      ∧ ((∃ msgs' rest, llmCalls later = msgs' :: rest
                        ∧ missingRecord (tc_name tc) ∈ msgs')
         ∨ (llmCalls later = []
            ∧ S (length (llmCalls pre)) = n
            ∧ maxIterationsLine ∈ later
            ∧ ∃ ws output, r = Normal (ws, output)
                           ∧ missingRecord (tc_name tc) ∈ ws)).
Proof.
  loop_induction;
    intros pre post msgs response calls tc Ho Hcalls Hin Hget.
  - exfalso. apply (llmCalls_split pre post msgs (Normal (Some response))).
    rewrite <- Ho.
    reflexivity.
  - exfalso.
    assert (ObsLLM msgs (Normal (Some response)) ∈ o1) as Hmem
      by (rewrite Ho; apply elem_of_app; right; constructor).
    destruct (pass_llm X _ _ _ _ _ _ _ HP Hmem) as (rest & -> & -> & _).
    inversion HP; subst. rewrite Hcalls in *.
    match goal with H : Normal calls = Normal [] |- _ => injection H as -> end.
    inversion Hin.
  - exfalso.
    assert (ObsLLM msgs (Normal (Some response)) ∈ o1) as Hmem
      by (rewrite Ho; apply elem_of_app; right; constructor).
    destruct (pass_llm X _ _ _ _ _ _ _ HP Hmem) as (rest & -> & -> & _).
    inversion HP; subst. congruence.
  - destruct (pass_continue_inv X _ _ _ _ _ HP)
      as (response0 & w & tc0 & tcs0 & results & otools & -> & _ & Hcalls0 & HT & ->).
    pose proof (tools_no_llm X _ _ _ _ _ HT) as Hno.
    assert (Hlater : ∀ l,
              o2 = l ++ ObsLLM msgs (Normal (Some response)) :: post →
              ∃ otools' later,
                post = otools' ++ later
                ∧ toolRuns otools' = executions X calls
                ∧ llmCalls otools' = []
                ∧ ((∃ msgs' rest, llmCalls later = msgs' :: rest
                                  ∧ missingRecord (tc_name tc) ∈ msgs')
                   ∨ (llmCalls later = []
                      ∧ S (length (llmCalls
                                     ((ObsLLM messages (Normal (Some response0)) :: otools)
                                        ++ l))) = S n
                      ∧ maxIterationsLine ∈ later
                      ∧ ∃ ws output, r = Normal (ws, output)
                                     ∧ missingRecord (tc_name tc) ∈ ws))).
    { intros l Hl.
      destruct (IH l post msgs response calls tc Hl Hcalls Hin Hget)
        as (otools' & later & Hp & Hruns & Hq & Hend).
      exists otools', later. split; [exact Hp|]. split; [exact Hruns|].
      split; [exact Hq|].
      destruct Hend as [Hnext|(Hnone & Hlen & Hline & Hret)]; [left; exact Hnext|].
      right. split; [exact Hnone|]. split; [|split; [exact Hline|exact Hret]].
      rewrite llmCalls_app.
      change (llmCalls (ObsLLM ?m ?r :: ?l)) with (m :: llmCalls l).
      rewrite (no_llm_calls _ Hno). cbn. rewrite Hlen. reflexivity. }
    apply app_eq_inv in Ho as [(l & Ho1 & Hl)|(l & -> & Hl)].
    + destruct l as [|x l'].
      * cbn in Hl. rewrite app_nil_r in Ho1. subst pre.
        rewrite <- (app_nil_r (ObsLLM _ _ :: otools)).
        apply Hlater. symmetry. exact Hl.
      * injection Hl as <- ->.
        apply llm_first in Ho1 as (-> & _ & Hresp & <-); [|exact Hno].
        injection Hresp as <-.
        rewrite Hcalls0 in Hcalls. injection Hcalls as <-.
        exists otools, o2. split; [reflexivity|].
        split; [eapply tools_executions, HT|].
        split; [apply no_llm_calls, Hno|].
        assert (missingRecord (tc_name tc)
                  ∈ messages
                      ++ [AIMessage (extractContent X (response_content response0))
                            (Some (tc0 :: tcs0))] ++ results) as Hfed.
        { apply elem_of_app. right. apply elem_of_app. right.
          eapply tools_missing; eassumption. }
        destruct n as [|n].
        -- right. inversion R; subst. split; [|split; [reflexivity|split]].
           ++ reflexivity.
           ++ constructor.
           ++ eexists _, _. split; [reflexivity|exact Hfed].
        -- left. destruct (loop_head X _ _ _ _ _ _ R) as [rest ->].
           eexists _, _. split; [reflexivity|exact Hfed].
    + apply Hlater. exact Hl.
Qed.

End Missing.

(** [C10], as the code has it.  When a response of the completion engine
    asks for a tool whose name is not in the registry, the run of the manual
    loop goes on: the calls of the response that name registered tools are
    all run, in order; the message "Tool <name> error: Tool <name> not
    found" is appended to the working sequence as the result of the call;
    and the next completion request carries a sequence that holds this
    message.  The exception is the fifth round: the budget is then spent, no
    further completion is requested, and the loop returns normally with a
    working sequence that holds the message. *)
Theorem missing_tool_is_fed_back {W : Type} (X : External W)
    (i : ExecutorInput) (st : Store (W:=W)) (pre post : list Obs)
    (msgs : list BaseMessage) (response : LLMResponse)
    (calls : list ToolCall) (tc : ToolCall) :
  observations (gemini_run X i (Some (callbackManager X)) st)
  = pre ++ ObsLLM msgs (Normal (Some response)) :: post →
  collectToolCalls X response = Normal calls →
  tc ∈ calls →
  toolMap_get X (tc_name tc) = None →
  ∃ otools later,
    post = otools ++ later
    ∧ toolRuns otools = executions X calls
    ∧ llmCalls otools = []
    ∧ ((∃ msgs' rest, llmCalls later = msgs' :: rest
                      ∧ missingRecord (tc_name tc) ∈ msgs')
       ∨ (llmCalls later = []
          ∧ S (length (llmCalls pre)) = maxIterations
          ∧ maxIterationsLine ∈ later
          ∧ ∃ ws output,
              (gemini_run X i (Some (callbackManager X)) st).1.1 = Normal (ws, output)
              ∧ missingRecord (tc_name tc) ∈ ws)).
Proof.
  destruct (gemini_run_loop X i st) as (r & st' & o & E & R).
  rewrite E. unfold observations. cbn [fst snd]. intros Ho Hcalls Hin Hget.
  exact (loop_missing X _ _ _ _ _ _ R pre post msgs response calls tc Ho Hcalls Hin Hget).
Qed.

Lemma missing_tool_is_fed_back_witness :
  let obs := observations
               (gemini_run Scenario.alwaysGhost (mkInput "q" [])
                  (Some (callbackManager Scenario.alwaysGhost)) Scenario.fresh) in
  obs = ObsLLM [HumanMessage "q"] (Scenario.call "ghost") :: drop 1 obs
  ∧ toolMap_get Scenario.alwaysGhost (Some "ghost") = None
  ∧ ∃ otools later,
      drop 1 obs = otools ++ later
      ∧ ∃ msgs' rest,
          llmCalls later = msgs' :: rest
          ∧ AIMessage "Tool ghost error: Tool ghost not found" None ∈ msgs'.
Proof.
  cbv zeta. split; [reflexivity|]. split; [reflexivity|].
  destruct (missing_tool_is_fed_back Scenario.alwaysGhost (mkInput "q" [])
              Scenario.fresh []
              (drop 1 (observations
                         (gemini_run Scenario.alwaysGhost (mkInput "q" [])
                            (Some (callbackManager Scenario.alwaysGhost))
                            Scenario.fresh)))
              [HumanMessage "q"]
              (mkLLMResponse (JStr EmptyString)
                             (Some [mkToolCall (Some "ghost") (JObj [])]) None)
              [mkToolCall (Some "ghost") (JObj [])]
              (mkToolCall (Some "ghost") (JObj []))
              eq_refl eq_refl (list_elem_of_here _ _) eq_refl)
    as (otools & later & Hpost & _ & _ & [Hnext|(_ & Hlen & _)]).
  - exists otools, later. split; [exact Hpost|exact Hnext].
  - discriminate Hlen.
Defined.

(** [C10] does not hold as stated: when the unregistered tool is asked
    for in the fifth round, the loop goes on neither to another tool call
    nor to another completion round.  Here every response asks for the
    tool "ghost"; after the fifth response no tool runs and no completion is
    requested, and the "not found" text is what the turn commits as its
    answer. *)
Lemma fifth_round_missing_tool_ends_the_turn :
  let run := chatRoute Scenario.alwaysGhost (Scenario.request "q") Scenario.fresh in
  let obs := observations run in
  (∃ msgs, obs = take 17 obs ++ ObsLLM msgs (Scenario.call "ghost") :: drop 18 obs)
  ∧ toolMap_get Scenario.alwaysGhost (Some "ghost") = None
  ∧ length (llmCalls (take 17 obs)) = 4
  ∧ llmCalls (drop 18 obs) = []
  ∧ toolRuns (drop 18 obs) = []
  ∧ transcript (finalStore run) "default"
    = [(user, "q"); (assistant, "Tool ghost error: Tool ghost not found")].
Proof.
  cbv zeta. split; [eexists; vm_compute; reflexivity|].
  repeat split; vm_compute; reflexivity.
Qed.

Section Announcements.
Context {W : Type} (X : External W).

Lemma toolEvents_app (a b : list Obs) : toolEvents (a ++ b) = toolEvents a ++ toolEvents b.
Proof. apply List.filter_app. Qed.

Lemma tool_announced tc (st : Store (W:=W)) m st' o rest :
  ToolRun X tc st m st' o → Announced X rest → Announced X (toolEvents o ++ rest).
Proof.
  intros [t v w _ _|t e w _ _|_] Hrest.
  - apply (announced_run X t _ (Normal v) rest Hrest).
  - apply (announced_run X t _ (Thrown e) rest Hrest).
  - apply (announced_missing X _ rest Hrest).
Qed.

Lemma tools_announced tcs (st : Store (W:=W)) ms st' o rest :
  ToolsRun X tcs st ms st' o → Announced X rest → Announced X (toolEvents o ++ rest).
Proof.
  induction 1 as [|tc tcs st m st1 o1 ms st2 o2 H1 _ IH]; intros Hrest; [exact Hrest|].
  rewrite toolEvents_app, <- app_assoc.
  eapply tool_announced; [exact H1|]. apply IH, Hrest.
Qed.

Lemma pass_announced messages (st : Store (W:=W)) r st' o rest :
  PassRun X messages st r st' o → Announced X rest → Announced X (toolEvents o ++ rest).
Proof.
  intros [] Hrest; try exact Hrest.
  change (toolEvents (ObsLLM ?m ?r :: ?l)) with (toolEvents l).
  eapply tools_announced; eassumption.
Qed.

Lemma loop_announced n messages (st : Store (W:=W)) r st' o :
  LoopRun X n messages st r st' o → Announced X (toolEvents o).
Proof.
  loop_induction.
  - constructor.
  - rewrite <- (app_nil_r (toolEvents o1)).
    eapply pass_announced; [exact HP|constructor].
  - rewrite <- (app_nil_r (toolEvents o1)).
    eapply pass_announced; [exact HP|constructor].
  - rewrite toolEvents_app. eapply pass_announced; [exact HP|exact IH].
Qed.

End Announcements.




Section WorkingSequence.
Context {W : Type} (X : External W).

Lemma tools_resultOf tcs (st : Store (W:=W)) ms st' o :
  ToolsRun X tcs st ms st' o → Forall2 resultOf tcs ms.
Proof.
  induction 1 as [|tc tcs st m st1 o1 ms st2 o2 H1 _ IH]; constructor; [|exact IH].
  destruct H1; eexists; eauto.
Qed.

Lemma executions_app (a b : list ToolCall) :
  executions X (a ++ b) = executions X a ++ executions X b.
Proof. apply omap_app. Qed.

(** The working sequence with which the loop returns is the one it was
    entered with, followed by the record of each pass that ran tools: the
    assistant message with the calls, then the result of each call in the
    order of the calls.  The tools ran in that order. *)
Lemma loop_working_sequence n messages (st : Store (W:=W)) ws output st' o :
  LoopRun X n messages st (Normal (ws, output)) st' o →
  ∃ rounds,
    ws = messages ++ concat (map recorded rounds)
    ∧ Forall wellFormed rounds
    ∧ toolRuns o = executions X (concat (map round_calls rounds)).
Proof.
  remember (Normal (ws, output)) as r eqn:Hr. intros R. revert ws output Hr.
  loop_induction_on R;
    intros ws output Hr.
  - injection Hr as <- _. exists []. split; [cbn; rewrite app_nil_r; reflexivity|].
    split; [constructor|]. reflexivity.
  - injection Hr as <- _. exists []. split; [cbn; rewrite app_nil_r; reflexivity|].
    split; [constructor|].
    eapply pass_end_no_tool; [exact HP|discriminate].
  - discriminate.
  - destruct (IH ws output Hr) as (rounds & -> & Hwf & Hruns).
    destruct (pass_continue_inv X _ _ _ _ _ HP)
      as (response & w & tc & tcs & results & otools & -> & _ & _ & HT & ->).
    exists (mkRound (extractContent X (response_content response)) (tc :: tcs) results
              :: rounds).
    split; [|split].
    + cbn [map concat recorded round_text round_calls round_results].
      rewrite <- !app_assoc. reflexivity.
    + constructor; [|exact Hwf]. split; [discriminate|].
      eapply tools_resultOf, HT.
    + rewrite toolRuns_app. cbn [map concat round_calls].
      rewrite executions_app, <- Hruns.
      change (toolRuns (ObsLLM ?m ?r :: ?l)) with (toolRuns l).
      rewrite (tools_executions X _ _ _ _ _ HT). reflexivity.
Qed.

End WorkingSequence.

(** [C8], as the code has it.  In a turn of the manual strategy whose
    executor returns, the working sequence at the end of the turn is the
    session history, the user message as it was read back from the session,
    the user message again as the input, and then, for each round that
    called tools, an assistant message recording the calls followed by one
    tool-result message for each call, in the order of the calls; so no
    tool-result message precedes the assistant message that records its
    call.  The tools ran one after the other in the order of the requests.
    The answer is not appended to the working sequence: it is committed
    to the session, which gains the user message and the answer and
    nothing else. *)
Theorem working_sequence_order {W : Type} (X : External W)
    (body : JSValue) (st : Store (W:=W)) (message : string) (sessionId : option string)
    (ws : list BaseMessage) (output : string) :
  manual X →
  ChatRequestSchema_safeParse body = inr (message, sessionId) →
  let sid := default "default" sessionId in
  let run := chatRoute X body st in
  (gemini_run X (turnInput X st sid message) (Some (callbackManager X))
              (committed X st sid user message)).1.1
  = Normal (ws, output) →
  ∃ rounds,
    ws = toLangChain (default [] (sessions st !! sid))
           ++ [HumanMessage message; HumanMessage message]
           ++ concat (map recorded rounds)
    ∧ Forall wellFormed rounds
    ∧ toolRuns (observations run) = executions X (concat (map round_calls rounds))
    ∧ (toolRuns (observations run) ≠ [] → rounds ≠ [])
    ∧ transcript (finalStore run) sid
      = transcript st sid ++ [(user, message); (assistant, output)].
Proof.
  intros Hm Hvalid sid run Hrun.
  destruct (route_manual X body st message sessionId Hm Hvalid)
    as (r & st2 & o & E & R & Hroute).
  fold sid in E, R, Hroute. rewrite E in Hrun. cbn [fst] in Hrun. subst r.
  destruct (loop_working_sequence X _ _ _ _ _ _ _ R) as (rounds & -> & Hwf & Hruns).
  assert (toolRuns (observations run)
          = executions X (concat (map round_calls rounds))) as Hall.
  { subst run. rewrite Hroute. unfold observations. cbn [snd].
    rewrite !toolRuns_app.
    change (toolRuns (ObsAddMessage ?s ?m :: ?l)) with (toolRuns l).
    cbn [toolRuns headers omap list_omap app]. rewrite app_nil_r. exact Hruns. }
  exists rounds. split; [|split; [exact Hwf|split; [exact Hall|split]]].
  - unfold turnInput, toLangChain. cbn [chat_history].
    rewrite map_app, <- !app_assoc. reflexivity.
  - rewrite Hall. intros Hne ->. apply Hne. reflexivity.
  - subst run. rewrite Hroute. unfold finalStore. cbn [fst snd].
    rewrite transcript_committed.
    rewrite (transcript_sessions (committed X st sid user message) st2 sid
               (loop_sessions X _ _ _ _ _ _ R)).
    rewrite transcript_committed, <- app_assoc. reflexivity.
Qed.

Lemma working_sequence_order_witness :
  let run := chatRoute Scenario.lookupThenAnswer (Scenario.request "q") Scenario.fresh in
  manual Scenario.lookupThenAnswer
  ∧ ChatRequestSchema_safeParse (Scenario.request "q") = inr ("q", None)
  ∧ ∃ rounds,
      [HumanMessage "q"; HumanMessage "q";
       AIMessage EmptyString (Some [mkToolCall (Some "lookup") (JObj [])]);
       AIMessage "Tool lookup returned: X" None]
      = ([HumanMessage "q"; HumanMessage "q"] ++ concat (map recorded rounds))
      ∧ Forall wellFormed rounds
      ∧ toolRuns (observations run)
        = executions Scenario.lookupThenAnswer (concat (map round_calls rounds)).
Proof.
  assert (Hm : manual Scenario.lookupThenAnswer) by (split; reflexivity).
  split; [exact Hm|]. split; [reflexivity|].
  destruct (working_sequence_order Scenario.lookupThenAnswer (Scenario.request "q")
              Scenario.fresh "q" None
              [HumanMessage "q"; HumanMessage "q";
               AIMessage EmptyString (Some [mkToolCall (Some "lookup") (JObj [])]);
               AIMessage "Tool lookup returned: X" None]
              "Answer based on X" Hm eq_refl eq_refl)
    as (rounds & Hws & Hwf & Hruns & _ & _).
  exists rounds. split; [exact Hws|]. split; [exact Hwf|exact Hruns].
Defined.

(** [C8] does not hold as stated: the working sequence does not end with
    the assistant's answer, and the session does not hold the tool
    messages.  In the turn below a lookup is followed by the answer "Answer
    based on X": the working sequence with which the executor returns ends
    with the tool-result message and holds the answer nowhere, and the
    session has gained two messages, the user's and the answer. *)
Lemma answer_is_not_in_the_working_sequence :
  let run := chatRoute Scenario.lookupThenAnswer (Scenario.request "q") Scenario.fresh in
  let executor :=
    gemini_run Scenario.lookupThenAnswer
      (turnInput Scenario.lookupThenAnswer Scenario.fresh "default" "q")
      (Some (callbackManager Scenario.lookupThenAnswer))
      (committed Scenario.lookupThenAnswer Scenario.fresh "default" user "q") in
  (executor.1.1
   = Normal ([HumanMessage "q"; HumanMessage "q";
             AIMessage EmptyString (Some [mkToolCall (Some "lookup") (JObj [])]);
             AIMessage "Tool lookup returned: X" None],
            "Answer based on X"))
  ∧ ("Answer based on X"
     ∉ map messageContent
         [HumanMessage "q"; HumanMessage "q";
          AIMessage EmptyString (Some [mkToolCall (Some "lookup") (JObj [])]);
          AIMessage "Tool lookup returned: X" None])
  ∧ transcript (finalStore run) "default"
    = [(user, "q"); (assistant, "Answer based on X")].
Proof.
  cbv zeta. split; [vm_compute; reflexivity|]. split; [|vm_compute; reflexivity].
  intros Hin. apply list_elem_of_In in Hin. cbn in Hin.
  repeat (destruct Hin as [Hin|Hin]; [discriminate Hin|]). exact Hin.
Qed.
(** * Further properties *)

(** ** The conversation store *)

Section MemoryLemmas.
Context {W : Type}.

Lemma addMessage_eq (sessionId : string) (m : ChatMessage) (st : Store (W:=W)) :
  memory_addMessage sessionId m st
  = (Normal tt,
     mkStore (world st) (<[sessionId := history st sessionId ++ [m]]> (sessions st)),
     [ObsAddMessage sessionId m]).
Proof. reflexivity. Qed.

Lemma addMessages_run (sessionId : string) (ms : list ChatMessage) (st : Store (W:=W)) :
  ∃ units st',
    mapM (memory_addMessage sessionId) ms st
    = (Normal units, st', map (ObsAddMessage sessionId) ms)
    ∧ world st' = world st
    ∧ history st' sessionId = history st sessionId ++ ms
    ∧ ∀ other, other ≠ sessionId → sessions st' !! other = sessions st !! other.
Proof.
  revert st. induction ms as [|m ms IH]; intros st.
  - exists [], st. cbn. rewrite app_nil_r. auto.
  - cbn [mapM]. rewrite bind_eq, addMessage_eq.
    destruct (IH (mkStore (world st)
                    (<[sessionId := history st sessionId ++ [m]]> (sessions st))))
      as (units & st' & E & Hw & Hh & Ho).
    rewrite bind_eq, E. cbn. rewrite app_nil_r.
    exists (tt :: units), st'. split; [reflexivity|]. split; [exact Hw|]. split.
    + rewrite Hh. unfold history at 1. cbn. rewrite lookup_insert_eq. cbn.
      rewrite <- app_assoc. reflexivity.
    + intros other Hne. rewrite (Ho other Hne). cbn.
      apply lookup_insert_ne. congruence.
Qed.

End MemoryLemmas.

(** X1.  Messages added to a session one after another are all kept, in the
    order they were added, behind what the session already held; every
    other session is left as it was. *)
Theorem history_keeps_every_message {W : Type} (sessionId : string)
    (ms : list ChatMessage) (st : Store (W:=W)) :
  let run := mapM (memory_addMessage sessionId) ms st in
  (getHistory sessionId (finalStore run)).1.1
  = Normal (history st sessionId ++ ms)
  ∧ observations run = map (ObsAddMessage sessionId) ms
  ∧ ∀ other, other ≠ sessionId →
      (getHistory other (finalStore run)).1.1 = (getHistory other st).1.1.
Proof.
  cbn zeta.
  destruct (addMessages_run sessionId ms st) as (units & st' & E & _ & Hh & Ho).
  rewrite E. unfold finalStore, observations. cbn.
  split; [f_equal; exact Hh|]. split; [reflexivity|].
  intros other Hne. rewrite (Ho other Hne). reflexivity.
Qed.

Lemma history_keeps_every_message_witness :
  "b" ≠ "a"
  ∧ (getHistory "b"
       (finalStore (mapM (memory_addMessage "a")
                      [mkChatMessage user "hi" 1; mkChatMessage assistant "ho" 2]
                      Scenario.fresh))).1.1
    = (getHistory "b" Scenario.fresh).1.1.
Proof.
  split; [discriminate|].
  apply (history_keeps_every_message "a"
           [mkChatMessage user "hi" 1; mkChatMessage assistant "ho" 2] Scenario.fresh).
  discriminate.
Defined.

(** X2.  Clearing a session forgets everything it held and nothing else:
    whatever is added afterwards is the whole of its history, and the
    other sessions are left as they were. *)
Theorem cleared_session_starts_afresh {W : Type} (sessionId : string)
    (ms : list ChatMessage) (st : Store (W:=W)) :
  let run := bind (clearSession sessionId)
                  (λ _, mapM (memory_addMessage sessionId) ms) st in
  (getHistory sessionId (finalStore run)).1.1 = Normal ms
  ∧ world (finalStore run) = world st
  ∧ ∀ other, other ≠ sessionId →
      (getHistory other (finalStore run)).1.1 = (getHistory other st).1.1.
Proof.
  cbn zeta. rewrite bind_eq. cbn [clearSession].
  destruct (addMessages_run sessionId ms
              (mkStore (world st) (delete sessionId (sessions st))))
    as (units & st' & E & Hw & Hh & Ho).
  rewrite E. unfold finalStore, observations. cbn.
  split; [|split].
  - f_equal. change (history st' sessionId = ms). rewrite Hh.
    unfold history. cbn. rewrite lookup_delete_eq. reflexivity.
  - exact Hw.
  - intros other Hne. rewrite (Ho other Hne). cbn.
    rewrite lookup_delete_ne by congruence. reflexivity.
Qed.

Lemma cleared_session_starts_afresh_witness :
  "b" ≠ "a"
  ∧ (getHistory "b"
       (finalStore (bind (clearSession "a")
                         (λ _, mapM (memory_addMessage "a") [mkChatMessage user "hi" 1])
                         Setups.busy))).1.1
    = (getHistory "b" Setups.busy).1.1.
Proof.
  split; [discriminate|].
  apply (cleared_session_starts_afresh "a" [mkChatMessage user "hi" 1] Setups.busy).
  discriminate.
Defined.

(** X3.  Messages added to two different sessions do not interfere: the
    store is the same whichever of the two is added first. *)
Theorem sessions_are_independent {W : Type} (a b : string) (m n : ChatMessage)
    (st : Store (W:=W)) :
  a ≠ b →
  finalStore (bind (memory_addMessage a m) (λ _, memory_addMessage b n) st)
  = finalStore (bind (memory_addMessage b n) (λ _, memory_addMessage a m) st).
Proof.
  intros Hne. unfold finalStore. cbn.
  rewrite (lookup_insert_ne (sessions st) a b) by congruence.
  rewrite (lookup_insert_ne (sessions st) b a) by congruence.
  f_equal. apply insert_insert_ne. congruence.
Qed.

Lemma sessions_are_independent_witness :
  "a" ≠ "b"
  ∧ finalStore (bind (memory_addMessage "a" (mkChatMessage user "hi" 1))
                     (λ _, memory_addMessage "b" (mkChatMessage user "ho" 2))
                     Scenario.fresh)
    = finalStore (bind (memory_addMessage "b" (mkChatMessage user "ho" 2))
                       (λ _, memory_addMessage "a" (mkChatMessage user "hi" 1))
                       Scenario.fresh).
Proof.
  split; [discriminate|].
  apply (sessions_are_independent "a" "b"). discriminate.
Defined.

(** ** The route *)

Section RouteLemmas.
Context {W : Type} (X : External W).

Lemma committed_other (st : Store (W:=W)) (sessionId other : string) (r : Role)
    (text : string) :
  other ≠ sessionId →
  sessions (committed X st sessionId r text) !! other = sessions st !! other.
Proof. intros Hne. cbn. apply lookup_insert_ne. congruence. Qed.

(** The sessions of the store after a turn, in each configuration. *)
Lemma route_sessions (body : JSValue) (st : Store (W:=W)) (message : string)
    (sessionId : option string) (other : string) :
  ChatRequestSchema_safeParse body = inr (message, sessionId) →
  other ≠ default "default" sessionId →
  sessions (finalStore (chatRoute X body st)) !! other = sessions st !! other.
Proof.
  intros Hvalid Hne.
  destruct (createLLM_cases X st) as [Hm|[Hn|[e E]]].
  - destruct (route_manual X body st message sessionId Hm Hvalid)
      as (r & st2 & o & _ & R & Hrun).
    apply loop_sessions in R.
    destruct r as [[ws output]|e]; rewrite Hrun; unfold finalStore; cbn [fst snd].
    + rewrite committed_other by exact Hne. rewrite R.
      apply committed_other, Hne.
    + rewrite R. apply committed_other, Hne.
  - rewrite (chatRoute_valid X body st message sessionId Hvalid).
    rewrite (turn_native X message _ st Hn).
    destruct (agentExecutor_invoke X message _ (world st)) as [[calls [output|e]] w];
      unfold finalStore; cbn [fst snd].
    + rewrite committed_other by exact Hne. cbn [sessions].
      apply committed_other, Hne.
    + cbn [sessions]. apply committed_other, Hne.
  - rewrite (route_failed_factory X body st message sessionId e Hvalid E). reflexivity.
Qed.

End RouteLemmas.



(** X5.  When the provider is not configured (its key is missing or empty,
    or its name is neither "openai" nor "gemini"), a valid request is
    answered by the response headers, one error frame whose message names
    what is wrong, and the done frame; the store is not touched, not even
    by the user's message. *)
Theorem misconfigured_provider_is_reported {W : Type} (X : External W)
    (body : JSValue) (st : Store (W:=W)) (message : string) (sessionId : option string) :
  ChatRequestSchema_safeParse body = inr (message, sessionId) →
  ¬ manual X →
  ¬ native X →
  ∃ reason,
    chatRoute X body st
    = (Normal tt, st,
       headers ++ [ObsConsole "Chat error:"; errorFrame X reason; doneFrame X; ObsEnd])
    ∧ ((MODEL_PROVIDER X = "openai"
        ∧ reason = "OPENAI_API_KEY is required when using OpenAI provider")
       ∨ (MODEL_PROVIDER X = "gemini"
          ∧ reason = "GOOGLE_API_KEY is required when using Gemini provider")
       ∨ (MODEL_PROVIDER X ≠ "openai" ∧ MODEL_PROVIDER X ≠ "gemini"
          ∧ reason = "Unsupported model provider: " +:+ MODEL_PROVIDER X)).
Proof.
  intros Hvalid Hm Hn.
  assert (∃ reason,
            createLLM X st = (Thrown (ErrorObject reason), st, [])
            ∧ ((MODEL_PROVIDER X = "openai"
                ∧ reason = "OPENAI_API_KEY is required when using OpenAI provider")
               ∨ (MODEL_PROVIDER X = "gemini"
                  ∧ reason = "GOOGLE_API_KEY is required when using Gemini provider")
               ∨ (MODEL_PROVIDER X ≠ "openai" ∧ MODEL_PROVIDER X ≠ "gemini"
                  ∧ reason = "Unsupported model provider: " +:+ MODEL_PROVIDER X)))
    as (reason & E & Hreason).
  { unfold createLLM.
    destruct (String.eqb (MODEL_PROVIDER X) "openai") eqn:Eo.
    - apply String.eqb_eq in Eo.
      destruct (missing (OPENAI_API_KEY X)) eqn:Ek.
      + eexists. split; [reflexivity|]. left. auto.
      + exfalso. apply Hn. split; assumption.
    - apply String.eqb_neq in Eo.
      destruct (String.eqb (MODEL_PROVIDER X) "gemini") eqn:Eg.
      + apply String.eqb_eq in Eg.
        destruct (missing (GOOGLE_API_KEY X)) eqn:Ek.
        * eexists. split; [reflexivity|]. right. left. auto.
        * exfalso. apply Hm. split; assumption.
      + apply String.eqb_neq in Eg.
        eexists. split; [reflexivity|]. right. right. auto. }
  exists reason. split; [|exact Hreason].
  rewrite (route_failed_factory X body st message sessionId _ Hvalid E). reflexivity.
Qed.

Lemma misconfigured_provider_is_reported_witness :
  ChatRequestSchema_safeParse (Scenario.request "q") = inr ("q", None)
  ∧ ¬ manual Setups.keyless
  ∧ ¬ native Setups.keyless
  ∧ ∃ reason,
      chatRoute Setups.keyless (Scenario.request "q") Scenario.fresh
      = (Normal tt, Scenario.fresh,
         headers ++ [ObsConsole "Chat error:"; errorFrame Setups.keyless reason;
                     doneFrame Setups.keyless; ObsEnd]).
Proof.
  assert (Hm : ¬ manual Setups.keyless) by (intros [_ H]; discriminate H).
  assert (Hn : ¬ native Setups.keyless) by (intros [H _]; discriminate H).
  split; [reflexivity|]. split; [exact Hm|]. split; [exact Hn|].
  destruct (misconfigured_provider_is_reported Setups.keyless (Scenario.request "q")
              Scenario.fresh "q" None eq_refl Hm Hn) as (reason & E & _).
  exists reason. exact E.
Defined.

(** X6.  A request body is accepted exactly when it is an object whose
    [message] is a non-empty string and whose [sessionId] is absent or a
    string (the empty string included); the parsed message and session id
    are then the ones of the body. *)
Theorem accepted_requests (body : JSValue) (message : string) (sessionId : option string) :
  ChatRequestSchema_safeParse body = inr (message, sessionId)
  ↔ ∃ fields,
      body = JObj fields
      ∧ assoc "message" fields = JStr message
      ∧ nonempty message = true
      ∧ assoc "sessionId" fields
        = match sessionId with Some s => JStr s | None => JUndefined end.
Proof.
  split.
  - unfold ChatRequestSchema_safeParse. destruct body as [| | | | | |fields]; try discriminate.
    intros H. exists fields. split; [reflexivity|].
    destruct (assoc "message" fields) as [| | | |s| |];
      try (destruct (assoc "sessionId" fields); discriminate H).
    destruct (nonempty s) eqn:E;
      destruct (assoc "sessionId" fields) as [| | | |s'| |]; try discriminate H;
      injection H as <- <-; auto.
  - intros (fields & -> & Hm & Hne & Hs). unfold ChatRequestSchema_safeParse.
    rewrite Hm, Hne, Hs. destruct sessionId; reflexivity.
Qed.




Section AcrossTurns.
Context {W : Type} (X : External W).

Lemma toLangChain_app (a b : list ChatMessage) :
  toLangChain (a ++ b) = toLangChain a ++ toLangChain b.
Proof. apply map_app. Qed.

(** The first completion request of a turn under the manual strategy. *)
Lemma first_request (body : JSValue) (st : Store (W:=W)) (message : string)
    (sessionId : option string) :
  manual X →
  ChatRequestSchema_safeParse body = inr (message, sessionId) →
  head (llmCalls (observations (chatRoute X body st)))
  = Some (toLangChain (history st (default "default" sessionId))
            ++ [HumanMessage message; HumanMessage message]).
Proof.
  intros Hm Hvalid.
  destruct (manual_turn X body st message sessionId Hm Hvalid)
    as (r & st2 & o & _ & R & _ & _ & _ & Hllm & _).
  rewrite Hllm. destruct (loop_head X _ _ _ _ _ _ R) as [rest ->].
  cbn [head]. f_equal. unfold turnInput. cbn [chat_history].
  rewrite toLangChain_app, <- app_assoc. reflexivity.
Qed.

End AcrossTurns.

(** X8.  What one turn leaves to the next is the pair of the user's
    message and the answer: when a second request arrives on the session
    of a completed turn of the manual strategy, its first completion
    request holds the earlier history, that pair, and the new message
    (twice, as in every turn); the tool calls and tool results of the first
    turn are not part of it. *)
Theorem next_turn_sees_the_exchange {W : Type} (X : External W)
    (body1 body2 : JSValue) (st : Store (W:=W)) (m1 m2 : string)
    (sessionId : option string) (ws : list BaseMessage) (output : string) :
  manual X →
  ChatRequestSchema_safeParse body1 = inr (m1, sessionId) →
  ChatRequestSchema_safeParse body2 = inr (m2, sessionId) →
  let sid := default "default" sessionId in
  let first := chatRoute X body1 st in
  let second := chatRoute X body2 (finalStore first) in
  (gemini_run X (turnInput X st sid m1) (Some (callbackManager X))
              (committed X st sid user m1)).1.1
  = Normal (ws, output) →
  head (llmCalls (observations second))
  = Some (toLangChain (history st sid)
            ++ [HumanMessage m1; AIMessage output None;
                HumanMessage m2; HumanMessage m2]).
Proof.
  intros Hm Hv1 Hv2 sid first second Hrun.
  subst second. rewrite (first_request X body2 _ m2 sessionId Hm Hv2). fold sid.
  f_equal.
  destruct (route_manual X body1 st m1 sessionId Hm Hv1)
    as (r & st2 & o & E & R & Hroute).
  fold sid in E, R, Hroute. rewrite E in Hrun. cbn in Hrun. subst r.
  subst first. rewrite Hroute. unfold finalStore. cbn [fst snd].
  rewrite history_committed.
  rewrite (history_sessions (committed X st sid user m1) st2 sid
             (loop_sessions X _ _ _ _ _ _ R)).
  rewrite history_committed, !toLangChain_app, <- !app_assoc. reflexivity.
Qed.

Lemma next_turn_sees_the_exchange_witness :
  let first := chatRoute Scenario.lookupThenAnswer (Scenario.request "q") Scenario.fresh in
  manual Scenario.lookupThenAnswer
  ∧ ChatRequestSchema_safeParse (Scenario.request "q") = inr ("q", None)
  ∧ ChatRequestSchema_safeParse (Scenario.request "more") = inr ("more", None)
  ∧ toolRuns (observations first) = [("lookup", JObj [])]
  ∧ head (llmCalls (observations
                      (chatRoute Scenario.lookupThenAnswer (Scenario.request "more")
                                 (finalStore first))))
    = Some [HumanMessage "q"; AIMessage "Answer based on X" None;
            HumanMessage "more"; HumanMessage "more"].
Proof.
  cbv zeta.
  assert (Hm : manual Scenario.lookupThenAnswer) by (split; reflexivity).
  split; [exact Hm|]. split; [reflexivity|]. split; [reflexivity|].
  split; [vm_compute; reflexivity|].
  apply (next_turn_sees_the_exchange Scenario.lookupThenAnswer
           (Scenario.request "q") (Scenario.request "more") Scenario.fresh "q" "more" None
           [HumanMessage "q"; HumanMessage "q";
            AIMessage EmptyString (Some [mkToolCall (Some "lookup") (JObj [])]);
            AIMessage "Tool lookup returned: X" None]
           "Answer based on X" Hm eq_refl eq_refl).
  vm_compute. reflexivity.
Defined.

(** X9.  Under the native strategy the stream is what LangChain's executor
    reported to the handlers, call by call and in its order, followed by
    the done frame; what the executor returns is committed as the
    assistant's message as it is, the empty string included. *)
Theorem native_stream_replays_the_executor {W : Type} (X : External W)
    (body : JSValue) (st : Store (W:=W)) (message : string) (sessionId : option string)
    (calls : list CallbackCall) (output : string) (w : W) :
  native X →
  ChatRequestSchema_safeParse body = inr (message, sessionId) →
  let sid := default "default" sessionId in
  let run := chatRoute X body st in
  agentExecutor_invoke X message
    (toLangChain (history st sid ++ [stamped X st user message])) (world st)
  = (calls, Normal output, w) →
  frames (observations run)
  = frames (map (replayed X) calls) ++ [("done", JSON_stringify X (JObj []))]
  ∧ length (frames (map (replayed X) calls)) = length calls
  ∧ world (finalStore run) = w
  ∧ transcript (finalStore run) sid
    = transcript st sid ++ [(user, message); (assistant, output)].
Proof.
  intros Hn Hvalid sid run Hexec. subst run.
  rewrite (chatRoute_valid X body st message sessionId Hvalid). fold sid.
  rewrite (turn_native X message sid st Hn).
  change (chat_history (turnInput X st sid message))
    with (toLangChain (history st sid ++ [stamped X st user message])).
  rewrite Hexec. unfold observations, finalStore. cbn [fst snd].
  split; [|split; [|split]].
  - rewrite !frames_app. cbn [frames omap list_omap headers app].
    rewrite !frames_app. cbn. rewrite app_nil_r. reflexivity.
  - clear. induction calls as [|c calls IH]; [reflexivity|].
    destruct c; cbn; f_equal; exact IH.
  - reflexivity.
  - rewrite transcript_committed.
    rewrite (transcript_sessions (committed X st sid user message)
               (mkStore w (sessions (committed X st sid user message))) sid eq_refl).
    rewrite transcript_committed, <- app_assoc. reflexivity.
Qed.

Lemma native_stream_replays_the_executor_witness :
  let run := chatRoute Setups.muted (Scenario.request "q") Scenario.fresh in
  native Setups.muted
  ∧ ChatRequestSchema_safeParse (Scenario.request "q") = inr ("q", None)
  ∧ frames (observations run)
    = [("token", "Hel"); ("tool_call", "{tool: lookup}"); ("tool_result", "X");
       ("token", "lo"); ("done", "{}")]
  ∧ transcript (finalStore run) "default" = [(user, "q"); (assistant, EmptyString)].
Proof.
  cbv zeta.
  assert (Hn : native Setups.muted) by (split; reflexivity).
  split; [exact Hn|]. split; [reflexivity|].
  destruct (native_stream_replays_the_executor Setups.muted (Scenario.request "q")
              Scenario.fresh "q" None
              [OnLLMNewToken "Hel"; OnToolStart (JStr "lookup") (JObj []);
               OnToolEnd "X"; OnLLMNewToken "lo"]
              EmptyString 1 Hn eq_refl eq_refl) as (Hf & _ & _ & Ht).
  split; [exact Hf|exact Ht].
Defined.

(** ** The custom executor *)

Section Registry.
Context {W : Type}.

Lemma registry_lookup (l : list (Tool W)) (n : string) :
  match foldl (λ (m : gmap string (Tool W)) tool, <[tool_name tool := tool]> m) ∅ l !! n with
  | Some t =>
      ∃ pre post, l = pre ++ t :: post ∧ tool_name t = n
                  ∧ Forall (λ u, tool_name u ≠ n) post
  | None => Forall (λ u, tool_name u ≠ n) l
  end.
Proof.
  induction l as [|u l IH] using rev_ind.
  - cbn. rewrite lookup_empty. constructor.
  - rewrite foldl_app. cbn [foldl].
    destruct (decide (tool_name u = n)) as [Heq|Hne].
    + rewrite <- Heq, lookup_insert_eq. exists l, []. auto.
    + rewrite lookup_insert_ne by exact Hne.
      destruct (foldl (λ (m : gmap string (Tool W)) tool, <[tool_name tool := tool]> m) ∅ l !! n) as [t|].
      * destruct IH as (pre & post & -> & Hn & Hpost).
        exists pre, (post ++ [u]). rewrite <- app_assoc. split; [reflexivity|].
        split; [exact Hn|]. apply Forall_app. split; [exact Hpost|].
        constructor; [exact Hne|constructor].
      * apply Forall_app. split; [exact IH|]. constructor; [exact Hne|constructor].
Qed.

End Registry.

(** X10.  Looking a name up in the executor's tool map gives the last tool
    of the registry that carries the name; the lookup fails exactly when no
    tool of the registry carries it. *)
Theorem last_registration_wins {W : Type} (X : External W) (n : string) :
  match toolMap_get X (Some n) with
  | Some t =>
      ∃ pre post, tools X = pre ++ t :: post ∧ tool_name t = n
                  ∧ Forall (λ u, tool_name u ≠ n) post
  | None => Forall (λ u, tool_name u ≠ n) (tools X)
  end.
Proof. unfold toolMap_get, toolMap. apply registry_lookup. Qed.

Section ToolCalls.
Context {W : Type} (X : External W).

Lemma coerceInvalid_cases (l : list ToolCall) :
  match coerceInvalid X l with
  | Normal calls =>
      map tc_name calls = map tc_name l ∧ Forall (parses X) l
  | Thrown e =>
      ∃ pre invalid post s,
        l = pre ++ invalid :: post
        ∧ Forall (parses X) pre
        ∧ tc_args invalid = JStr s
        ∧ JSON_parse X s = Thrown e
  end.
Proof.
  induction l as [|invalid l IH]; [split; constructor|].
  cbn [coerceInvalid].
  assert (Hhead : ∀ args,
            (match tc_args invalid with
             | JStr s => JSON_parse X s
             | a => Normal a
             end) = Normal args → parses X invalid).
  { unfold parses. intros args. destruct (tc_args invalid); eauto. }
  destruct (match tc_args invalid with
            | JStr s => JSON_parse X s
            | a => Normal a
            end) as [args|e] eqn:Hparsed.
  - specialize (Hhead args eq_refl).
    destruct (coerceInvalid X l) as [calls|e].
    + destruct IH as [Hnames Hall]. split; [cbn; f_equal; exact Hnames|].
      constructor; assumption.
    + destruct IH as (pre & inv & post & s & -> & Hpre & Hs & He).
      exists (invalid :: pre), inv, post, s. split; [reflexivity|].
      split; [constructor; assumption|]. split; assumption.
  - exists [], invalid, l. destruct (tc_args invalid) as [| | | |s| |]; try discriminate.
    exists s. split; [reflexivity|]. split; [constructor|]. split; [reflexivity|exact Hparsed].
Qed.

End ToolCalls.

(** X11.  The tool calls of a response are its [tool_calls] when there are
    any, whatever [invalid_tool_calls] holds.  Otherwise they are the
    entries of [invalid_tool_calls], one call per entry and under the same
    names, provided every string of arguments parses; the first entry
    whose arguments do not parse makes the collection throw the parser's
    error, and nothing else does. *)
Theorem first_unparsable_call_decides {W : Type} (X : External W) (response : LLMResponse) :
  match response_tool_calls response with
  | Some (c :: cs) => collectToolCalls X response = Normal (c :: cs)
  | _ =>
      match collectToolCalls X response, response_invalid_tool_calls response with
      | Normal calls, Some invalid =>
          map tc_name calls = map tc_name invalid ∧ Forall (parses X) invalid
      | Normal calls, None => calls = []
      | Thrown e, Some invalid =>
          ∃ pre first post s,
            invalid = pre ++ first :: post
            ∧ Forall (parses X) pre
            ∧ tc_args first = JStr s
            ∧ JSON_parse X s = Thrown e
      | Thrown e, None => False
      end
  end.
Proof.
  unfold collectToolCalls.
  destruct (response_tool_calls response) as [[|c cs]|];
    [|reflexivity|];
    (destruct (response_invalid_tool_calls response) as [invalid|]; [|reflexivity]);
    exact (coerceInvalid_cases X invalid).
Qed.

Section WithoutHandlers.
Context {W : Type} (X : External W).

Lemma executeTool_quiet (tc : ToolCall) (st : Store (W:=W)) :
  ∃ m st' o,
    executeTool X (Some (callbackManager X)) tc st = (Normal m, st', o)
    ∧ executeTool X None tc st = (Normal m, st', List.filter offStream o).
Proof.
  unfold executeTool, bind.
  cbn [handler callbackManager fromHandlers routeHandlers onToolStart
       handleToolStart handleToolEnd].
  rewrite handleToolStart_frame. cbn [ret].
  destruct (toolMap_get X (tc_name tc)) as [t|].
  - unfold try_catch, bind, invokeTool.
    destruct (tool_invoke t (parseArgs X (tc_args tc)) (world st)) as [[v|e] w];
      eexists _, _, _; split; reflexivity.
  - eexists _, _, _; split; reflexivity.
Qed.

Lemma executeTools_quiet (tcs : list ToolCall) (st : Store (W:=W)) :
  ∃ ms st' o,
    mapM (executeTool X (Some (callbackManager X))) tcs st = (Normal ms, st', o)
    ∧ mapM (executeTool X None) tcs st = (Normal ms, st', List.filter offStream o).
Proof.
  revert st. induction tcs as [|tc tcs IH]; intros st.
  - eexists _, _, _. split; reflexivity.
  - destruct (executeTool_quiet tc st) as (m & st1 & o1 & E1 & Q1).
    destruct (IH st1) as (ms & st2 & o2 & E2 & Q2).
    exists (m :: ms), st2, (o1 ++ o2). cbn [mapM].
    rewrite !bind_eq, E1, Q1, !bind_eq, E2, Q2. cbn.
    rewrite !app_nil_r, List.filter_app. split; reflexivity.
Qed.

Lemma pass_eq (callbacks : option Callbacks) (messages : list BaseMessage)
    (st : Store (W:=W)) :
  pass X callbacks messages st =
  match llm_invoke X messages (world st) with
  | (Thrown e, w) =>
      (Normal (Return llmFailed), mkStore w (sessions st),
       [ObsLLM messages (Thrown e); ObsConsole "[Gemini Executor] Error invoking LLM:"])
  | (Normal None, w) =>
      (Normal (Return noResponse), mkStore w (sessions st),
       [ObsLLM messages (Normal None);
        ObsConsole "[Gemini Executor] No response from LLM"])
  | (Normal (Some response), w) =>
      match collectToolCalls X response with
      | Thrown e =>
          (Thrown e, mkStore w (sessions st), [ObsLLM messages (Normal (Some response))])
      | Normal [] =>
          match finalResponse callbacks (extractContent X (response_content response))
                              (mkStore w (sessions st)) with
          | (Normal output, st2, o2) =>
              (Normal (Return output), st2,
               ObsLLM messages (Normal (Some response)) :: o2)
          | (Thrown e, st2, o2) =>
              (Thrown e, st2, ObsLLM messages (Normal (Some response)) :: o2)
          end
      | Normal (tc :: tcs) =>
          match mapM (executeTool X callbacks) (tc :: tcs) (mkStore w (sessions st)) with
          | (Normal toolResults, st2, o2) =>
              (Normal (Continue
                 (messages
                    ++ [AIMessage (extractContent X (response_content response))
                                  (Some (tc :: tcs))]
                    ++ toolResults)),
               st2, ObsLLM messages (Normal (Some response)) :: o2)
          | (Thrown e, st2, o2) =>
              (Thrown e, st2, ObsLLM messages (Normal (Some response)) :: o2)
          end
      end
  end.
Proof.
  unfold pass. rewrite bind_eq. unfold try_catch. rewrite bind_eq.
  unfold llmWithTools_invoke.
  destruct (llm_invoke X messages (world st)) as [[[response|]|e] w];
    [|reflexivity|reflexivity].
  cbn [ret]. cbn iota beta. rewrite bind_eq. unfold lift.
  destruct (collectToolCalls X response) as [[|tc tcs]|e]; [| |reflexivity].
  - rewrite bind_eq.
    destruct (finalResponse callbacks (extractContent X (response_content response))
                            (mkStore w (sessions st))) as [[[output|e] st2] o2];
      cbn; rewrite ?app_nil_r; reflexivity.
  - rewrite bind_eq.
    destruct (mapM (executeTool X callbacks) (tc :: tcs) (mkStore w (sessions st)))
      as [[[toolResults|e] st2] o2];
      cbn; rewrite ?app_nil_r; reflexivity.
Qed.

Lemma pass_quiet (messages : list BaseMessage) (st : Store (W:=W)) :
  ∃ r st' o,
    pass X (Some (callbackManager X)) messages st = (r, st', o)
    ∧ pass X None messages st = (r, st', List.filter offStream o).
Proof.
  rewrite !pass_eq.
  destruct (llm_invoke X messages (world st)) as [[[response|]|e] w];
    [|eexists _, _, _; split; reflexivity|eexists _, _, _; split; reflexivity].
  destruct (collectToolCalls X response) as [[|tc tcs]|e];
    [| |eexists _, _, _; split; reflexivity].
  - rewrite finalResponse_run.
    assert (finalResponse (W:=W) None (extractContent X (response_content response))
                          (mkStore w (sessions st))
            = (Normal (answer (extractContent X (response_content response))),
               mkStore w (sessions st), [])) as -> by reflexivity.
    eexists _, _, _. split; reflexivity.
  - destruct (executeTools_quiet (tc :: tcs) (mkStore w (sessions st)))
      as (ms & st2 & o2 & E2 & Q2).
    rewrite E2, Q2. eexists _, _, _. split; reflexivity.
Qed.

Lemma executorLoop_quiet (n : nat) (messages : list BaseMessage) (st : Store (W:=W)) :
  ∃ r st' o,
    executorLoop X (Some (callbackManager X)) n messages st = (r, st', o)
    ∧ executorLoop X None n messages st = (r, st', List.filter offStream o).
Proof.
  revert messages st. induction n as [|n IH]; intros messages st.
  - cbn [executorLoop]. rewrite !bind_eq, maxIterationsReached_run.
    eexists _, _, _. split; [reflexivity|].
    cbn. fold (lastContent messages).
    destruct (lastContent messages); reflexivity.
  - cbn [executorLoop]. rewrite !bind_eq.
    destruct (pass_quiet messages st) as (r1 & st1 & o1 & E1 & Q1).
    rewrite E1, Q1. destruct r1 as [[output|messages']|e].
    + eexists _, _, _. split; [reflexivity|].
      cbn. rewrite !app_nil_r. reflexivity.
    + destruct (IH messages' st1) as (r2 & st2 & o2 & E2 & Q2).
      rewrite E2, Q2. eexists _, _, _. split; [reflexivity|].
      rewrite List.filter_app. reflexivity.
    + eexists _, _, _. split; reflexivity.
Qed.

End WithoutHandlers.

(** X12.  The route's handlers only add frames: run without callbacks, the
    custom executor returns the same output and the same working sequence,
    leaves the outside world in the same state, and makes the same
    completion requests and tool executions in the same order; what differs
    is that nothing is written on the reply. *)
Theorem handlers_only_add_frames {W : Type} (X : External W)
    (i : ExecutorInput) (st : Store (W:=W)) :
  let streamed := gemini_run X i (Some (callbackManager X)) st in
  let quiet := gemini_run X i None st in
  quiet.1.1 = streamed.1.1
  ∧ finalStore quiet = finalStore streamed
  ∧ observations quiet = List.filter offStream (observations streamed)
  ∧ frames (observations quiet) = []
  ∧ llmCalls (observations quiet) = llmCalls (observations streamed)
  ∧ toolRuns (observations quiet) = toolRuns (observations streamed).
Proof.
  cbn zeta. unfold gemini_run.
  destruct (executorLoop_quiet X (maxIterations - 0)
              (chat_history i ++ [HumanMessage (input i)]) st)
    as (r & st' & o & E & Q).
  rewrite E, Q. unfold finalStore, observations. cbn [fst snd].
  split; [reflexivity|]. split; [reflexivity|]. split; [reflexivity|].
  clear. induction o as [|x o IH]; [repeat split|].
  destruct IH as (Hf & Hl & Ht).
  destruct x; cbn; repeat split; try assumption; f_equal; assumption.
Qed.

(** ** The client *)

Section Strings.

Lemma append_cons (c : Ascii.ascii) (s t : string) :
  String c s +:+ t = String c (s +:+ t).
Proof. reflexivity. Qed.

Lemma append_nil_l (t : string) : EmptyString +:+ t = t.
Proof. reflexivity. Qed.

Lemma append_nil_r (s : string) : s +:+ EmptyString = s.
Proof. induction s as [|c s IH]; [reflexivity|]. rewrite append_cons, IH. reflexivity. Qed.

Lemma append_assoc (a b c : string) : (a +:+ b) +:+ c = a +:+ (b +:+ c).
Proof.
  induction a as [|x a IH]; [reflexivity|]. rewrite !append_cons, IH. reflexivity.
Qed.

Lemma concat_strings_app (a b : list string) :
  concat_strings (a ++ b) = concat_strings a +:+ concat_strings b.
Proof.
  induction a as [|x a IH]; [reflexivity|].
  cbn [app concat_strings foldr]. fold (concat_strings (a ++ b)).
  fold (concat_strings a). rewrite IH, append_assoc. reflexivity.
Qed.

Lemma splitLines_cons (c : Ascii.ascii) (s : string) :
  splitLines (String c s)
  = if isNewline c then EmptyString :: splitLines s
    else match splitLines s with
         | piece :: pieces => String c piece :: pieces
         | [] => [String c EmptyString]
         end.
Proof. reflexivity. Qed.

Lemma splitLines_nonempty (s : string) : splitLines s ≠ [].
Proof.
  induction s as [|c s IH]; [discriminate|].
  rewrite splitLines_cons. destruct (isNewline c); [discriminate|].
  destruct (splitLines s); discriminate.
Qed.

Lemma splitLines_plain (s : string) : hasNewline s = false → splitLines s = [s].
Proof.
  induction s as [|c s IH]; [reflexivity|].
  cbn [hasNewline]. intros H. apply orb_false_iff in H as [Hc Hs].
  rewrite splitLines_cons, Hc, (IH Hs). reflexivity.
Qed.

Lemma splitLines_line (l rest : string) :
  hasNewline l = false →
  splitLines (l +:+ newline +:+ rest) = l :: splitLines rest.
Proof.
  induction l as [|c l IH]; [reflexivity|].
  cbn [hasNewline]. intros H. apply orb_false_iff in H as [Hc Hl].
  rewrite append_cons, splitLines_cons, Hc, (IH Hl). reflexivity.
Qed.

Lemma last_splitLines (s : string) :
  hasNewline (List.last (splitLines s) EmptyString) = false.
Proof.
  induction s as [|c s IH]; [reflexivity|].
  rewrite splitLines_cons. destruct (isNewline c) eqn:Hc.
  - pose proof (splitLines_nonempty s) as Hne.
    destruct (splitLines s) as [|p ps]; [contradiction|]. exact IH.
  - pose proof (splitLines_nonempty s) as Hne.
    destruct (splitLines s) as [|p ps]; [contradiction|].
    destruct ps as [|q qs]; [|exact IH].
    cbn [List.last hasNewline] in IH |- *. rewrite Hc, IH. reflexivity.
Qed.

(** The lines of a text that continues: the complete lines stay, the
    unfinished one is continued. *)
Lemma splitLines_app (a b : string) :
  splitLines (a +:+ b)
  = removelast (splitLines a) ++ splitLines (List.last (splitLines a) EmptyString +:+ b).
Proof.
  induction a as [|c a IH]; [reflexivity|].
  rewrite append_cons, !splitLines_cons.
  pose proof (splitLines_nonempty a) as Hne.
  destruct (isNewline c) eqn:Hc.
  - rewrite IH. destruct (splitLines a) as [|p ps]; [contradiction|]. reflexivity.
  - rewrite IH. destruct (splitLines a) as [|p ps]; [contradiction|].
    destruct ps as [|q qs].
    + cbn [removelast List.last app]. rewrite append_cons, splitLines_cons, Hc.
      reflexivity.
    + pose proof (splitLines_nonempty (List.last (p :: q :: qs) EmptyString +:+ b)).
      cbn [removelast List.last app] in *. reflexivity.
Qed.

End Strings.

Section Reader.
Context (JSON_stringify : JSValue → string).

Lemma processLines_app (cur : string) (a b : list string) :
  processLines cur (a ++ b)
  = ((processLines (processLines cur a).1 b).1,
     (processLines cur a).2 ++ (processLines (processLines cur a).1 b).2).
Proof.
  revert cur. induction a as [|l a IH]; intros cur.
  - cbn. destruct (processLines cur b). reflexivity.
  - cbn [app processLines]. destruct (processLine cur l) as [cur1 out1].
    rewrite IH. destruct (processLines cur1 a) as [cur2 out2]. cbn [fst snd].
    destruct (processLines cur2 b) as [cur3 out3]. cbn [fst snd].
    rewrite app_assoc. reflexivity.
Qed.

(** What the reader emits when the stream ends. *)
Lemma processStream_nil (ending : Ending) (buffer cur : string) :
  processStream JSON_stringify [] ending buffer cur
  = processStream JSON_stringify [] ending EmptyString "message".
Proof. reflexivity. Qed.

(** The reader works line by line on the text it has received, however
    the text was cut into chunks. *)
Lemma processStream_lines (chunks : list string) (ending : Ending) (buffer cur : string) :
  hasNewline buffer = false →
  processStream JSON_stringify chunks ending buffer cur
  = (processLines cur (removelast (splitLines (buffer +:+ concat_strings chunks)))).2
      ++ processStream JSON_stringify [] ending EmptyString "message".
Proof.
  revert buffer cur. induction chunks as [|value chunks IH]; intros buffer cur Hbuf.
  - cbn [concat_strings foldr]. rewrite append_nil_r, (splitLines_plain _ Hbuf).
    reflexivity.
  - cbn [processStream concat_strings foldr]. fold (concat_strings chunks).
    rewrite <- append_assoc, (splitLines_app (buffer +:+ value)).
    rewrite removelast_app by apply splitLines_nonempty.
    rewrite processLines_app.
    destruct (processLines cur (removelast (splitLines (buffer +:+ value))))
      as [cur1 out1].
    cbn [fst snd]. rewrite (IH _ cur1 (last_splitLines _)), app_assoc. reflexivity.
Qed.

End Reader.

(** X13.  The client reads the response line by line, and the way the
    body is cut into chunks does not matter: two bodies that carry the same
    text and end the same way make the client emit the same events in the
    same order. *)
Theorem chunking_does_not_matter (JSON_stringify : JSValue → string)
    (chunks chunks' : list string) (ending : Ending) :
  concat_strings chunks = concat_strings chunks' →
  connectWithFetch JSON_stringify (Normal (Body chunks ending))
  = connectWithFetch JSON_stringify (Normal (Body chunks' ending)).
Proof.
  intros H. unfold connectWithFetch.
  rewrite (processStream_lines JSON_stringify chunks ending EmptyString "message" eq_refl).
  rewrite (processStream_lines JSON_stringify chunks' ending EmptyString "message" eq_refl).
  rewrite H. reflexivity.
Qed.

Lemma chunking_does_not_matter_witness :
  concat_strings ["event: to"; "ken" +:+ newline +:+ "da"; "ta: hi" +:+ newline; newline]
  = concat_strings [wire "token" "hi"]
  ∧ connectWithFetch Scenario.stringify
      (Normal (Body ["event: to"; "ken" +:+ newline +:+ "da"; "ta: hi" +:+ newline; newline]
                    Closed))
    = [("token", "hi"); ("done", EmptyString)].
Proof.
  split; [reflexivity|].
  rewrite (chunking_does_not_matter Scenario.stringify
             ["event: to"; "ken" +:+ newline +:+ "da"; "ta: hi" +:+ newline; newline]
             [wire "token" "hi"] Closed eq_refl).
  reflexivity.
Defined.

Section Trimming.

Lemma trimEnd_cons (c : Ascii.ascii) (s : string) :
  trimEnd (String c s)
  = match trimEnd s with
    | EmptyString => if isWhiteSpace c then EmptyString else String c EmptyString
    | kept => String c kept
    end.
Proof. reflexivity. Qed.

Lemma trimEnd_app (a b : string) :
  trimEnd (a +:+ b)
  = if nonempty (trimEnd b) then a +:+ trimEnd b else trimEnd a.
Proof.
  induction a as [|c a IH].
  - rewrite append_nil_l. destruct (trimEnd b); reflexivity.
  - rewrite append_cons, !trimEnd_cons, IH.
    destruct (trimEnd b) as [|x kept]; cbn [nonempty]; [reflexivity|].
    rewrite append_cons. destruct a; reflexivity.
Qed.

Lemma trimEnd_idem (s : string) : trimEnd (trimEnd s) = trimEnd s.
Proof.
  induction s as [|c s IH]; [reflexivity|].
  rewrite trimEnd_cons. destruct (trimEnd s) as [|x kept] eqn:E.
  - destruct (isWhiteSpace c) eqn:Hc; [reflexivity|].
    rewrite trimEnd_cons. cbn [trimEnd]. rewrite Hc. reflexivity.
  - rewrite trimEnd_cons, IH. reflexivity.
Qed.

Lemma trimStart_trimEnd (s : string) : trimStart (trimEnd s) = trimEnd (trimStart s).
Proof.
  induction s as [|c s IH]; [reflexivity|].
  cbn [trimStart]. rewrite trimEnd_cons.
  destruct (isWhiteSpace c) eqn:Hc.
  - rewrite <- IH. destruct (trimEnd s) as [|x kept]; [reflexivity|].
    cbn [trimStart]. rewrite Hc. reflexivity.
  - rewrite trimEnd_cons.
    destruct (trimEnd s) as [|x kept]; cbn [trimStart]; rewrite Hc; reflexivity.
Qed.

(** Trimming what was trimmed at its end is trimming. *)
Lemma trim_trimEnd (s : string) : trim (trimEnd s) = trim s.
Proof. unfold trim. rewrite trimStart_trimEnd, trimEnd_idem. reflexivity. Qed.

Lemma nonempty_false (s : string) : nonempty s = false → s = EmptyString.
Proof. destruct s; [reflexivity|discriminate]. Qed.

End Trimming.

Section Lines.

Lemma processLine_empty (cur : string) : processLine cur EmptyString = (cur, []).
Proof. reflexivity. Qed.

Lemma processLine_event (cur event : string) :
  plainEvent event = true →
  processLine cur ("event: " +:+ event) = (event, []).
Proof.
  unfold plainEvent. intros H.
  apply andb_true_iff in H as [H Htrim]. apply andb_true_iff in H as [Hne _].
  apply String.eqb_eq in Htrim.
  assert (Hend : trimEnd event = event).
  { unfold trim in Htrim. destruct event as [|c event]; [discriminate|].
    cbn [trimStart] in Htrim. destruct (isWhiteSpace c) eqn:Hc.
    - exfalso. clear Hne.
      assert (Hlen : ∀ s, String.length (trimEnd s) ≤ String.length s).
      { induction s as [|x s IHs]; [reflexivity|]. rewrite trimEnd_cons.
        destruct (trimEnd s); [destruct (isWhiteSpace x)|]; cbn in *; lia. }
      assert (Hlen' : ∀ s, String.length (trimStart s) ≤ String.length s).
      { induction s as [|x s IHs]; [reflexivity|]. cbn [trimStart].
        destruct (isWhiteSpace x); cbn in *; lia. }
      pose proof (Hlen (trimStart event)) as H1. pose proof (Hlen' event) as H2.
      rewrite Htrim in H1. cbn in H1. lia.
    - exact Htrim. }
  unfold processLine, trim.
  change (trimStart ("event: " +:+ event)) with ("event: " +:+ event).
  rewrite trimEnd_app, Hend, Hne.
  change (nonempty ("event: " +:+ event)) with true.
  change (startsWith "event: " ("event: " +:+ event)) with (String.prefix EmptyString event).
  change (substring 7 ("event: " +:+ event)) with event.
  cbn [negb]. destruct event; cbn [String.prefix]; fold (trim EmptyString);
    rewrite ?Htrim; [discriminate Hne|].
  fold (trim (String a event)). rewrite Htrim. reflexivity.
Qed.

Lemma processLine_data (cur payload : string) :
  processLine cur ("data: " +:+ payload) = (cur, delivered (cur, payload)).
Proof.
  unfold processLine, trim, delivered.
  change (trimStart ("data: " +:+ payload)) with ("data: " +:+ payload).
  rewrite trimEnd_app.
  destruct (nonempty (trimEnd payload)) eqn:Hne; cbn [negb].
  - change (nonempty ("data: " +:+ trimEnd payload)) with true.
    change (startsWith "event: " ("data: " +:+ trimEnd payload)) with false.
    change (startsWith "data: " ("data: " +:+ trimEnd payload))
      with (String.prefix EmptyString (trimEnd payload)).
    change (substring 6 ("data: " +:+ trimEnd payload)) with (trimEnd payload).
    cbn [negb].
    assert (String.prefix EmptyString (trimEnd payload) = true) as ->
      by (destruct (trimEnd payload); reflexivity).
    fold (trim (trimEnd payload)). rewrite trim_trimEnd. fold (trim payload).
    destruct (String.eqb (trim payload) "{}"); reflexivity.
  - reflexivity.
Qed.

End Lines.

Section Frames.

Lemma hasNewline_app (a b : string) :
  hasNewline (a +:+ b) = hasNewline a || hasNewline b.
Proof.
  induction a as [|c a IH]; [reflexivity|].
  rewrite append_cons. cbn [hasNewline]. rewrite IH, orb_assoc. reflexivity.
Qed.

(** The lines of a text that ends a line and goes on. *)
Lemma splitLines_terminated (a rest : string) :
  splitLines (a +:+ newline +:+ rest) = splitLines a ++ splitLines rest.
Proof.
  induction a as [|c a IH]; [reflexivity|].
  rewrite append_cons, !splitLines_cons, IH.
  pose proof (splitLines_nonempty a) as Hne.
  destruct (isNewline c); [reflexivity|].
  destruct (splitLines a); [contradiction|reflexivity].
Qed.

Lemma splitLines_prefixed (a p : string) :
  hasNewline a = false →
  splitLines (a +:+ p)
  = match splitLines p with
    | first :: others => (a +:+ first) :: others
    | [] => []
    end.
Proof.
  intros Ha. induction a as [|c a IH].
  - rewrite append_nil_l. pose proof (splitLines_nonempty p).
    destruct (splitLines p); [contradiction|reflexivity].
  - cbn [hasNewline] in Ha. apply orb_false_iff in Ha as [Hc Ha].
    rewrite append_cons, splitLines_cons, Hc, (IH Ha).
    pose proof (splitLines_nonempty p).
    destruct (splitLines p); [contradiction|reflexivity].
Qed.

Lemma wire_lines (event payload rest : string) :
  hasNewline event = false →
  splitLines (wire event payload +:+ rest)
  = frameLines (event, payload) ++ splitLines rest.
Proof.
  intros He. unfold wire, frameLines. cbn [fst snd].
  rewrite !append_assoc.
  rewrite <- (append_assoc "event: " event).
  rewrite splitLines_line
    by (rewrite hasNewline_app, He; reflexivity).
  cbn [app]. f_equal.
  rewrite <- (append_assoc "data: " payload), splitLines_terminated.
  rewrite (splitLines_prefixed "data: " payload eq_refl).
  rewrite <- app_assoc. f_equal.
Qed.

Lemma written_cons (f : string * string) (fs : list (string * string)) :
  written (f :: fs) = wire f.1 f.2 +:+ written fs.
Proof. reflexivity. Qed.

Lemma written_lines (fs : list (string * string)) :
  Forall (λ f, hasNewline f.1 = false) fs →
  removelast (splitLines (written fs)) = concat (map frameLines fs).
Proof.
  induction 1 as [|f fs Hf _ IH]; [reflexivity|].
  rewrite written_cons. cbn [map concat].
  destruct f as [event payload]. cbn [fst snd] in *.
  rewrite (wire_lines event payload (written fs) Hf).
  rewrite removelast_app by apply splitLines_nonempty.
  rewrite IH. reflexivity.
Qed.

(** What the client does with the lines of one frame whose payload is one
    line, or is a line feed. *)
Lemma processLines_frame (cur event payload : string) :
  plainEvent event = true →
  hasNewline payload = false ∨ payload = newline →
  processLines cur (frameLines (event, payload)) = (event, delivered (event, payload)).
Proof.
  intros He [Hp | ->]; unfold frameLines; cbn [fst snd].
  - rewrite (splitLines_plain payload Hp). cbn [app processLines].
    rewrite (processLine_event cur event He), processLine_data, processLine_empty.
    rewrite !app_nil_r. reflexivity.
  - cbn [splitLines newline isNewline app processLines].
    change (Ascii.eqb (Ascii.ascii_of_nat 10) (Ascii.ascii_of_nat 10)) with true.
    cbn iota. cbn [app processLines].
    rewrite (processLine_event cur event He).
    change ("data: " +:+ EmptyString) with "data: ".
    reflexivity.
Qed.

Lemma processLines_frames (cur : string) (fs : list (string * string)) :
  Forall (λ f, plainEvent f.1 = true
               ∧ (hasNewline f.2 = false ∨ f.2 = newline)) fs →
  (processLines cur (concat (map frameLines fs))).2 = concat (map delivered fs).
Proof.
  intros H. revert cur. induction H as [|[event payload] fs [He Hp] _ IH]; intros cur;
    [reflexivity|].
  cbn [map concat fst snd] in *. rewrite processLines_app.
  rewrite (processLines_frame cur event payload He Hp). cbn [fst snd].
  rewrite IH. reflexivity.
Qed.

Lemma plainEvent_oneLine (event : string) :
  plainEvent event = true → hasNewline event = false.
Proof.
  unfold plainEvent. intros H.
  apply andb_true_iff in H as [H _]. apply andb_true_iff in H as [_ H].
  apply negb_true_iff in H. exact H.
Qed.

(** The events of a stream of frames, read to its end. *)
Lemma written_events (JSON_stringify : JSValue → string)
    (chunks : list string) (fs : list (string * string)) :
  Forall (λ f, plainEvent f.1 = true
               ∧ (hasNewline f.2 = false ∨ f.2 = newline)) fs →
  concat_strings chunks = written fs →
  connectWithFetch JSON_stringify (Normal (Body chunks Closed))
  = concat (map delivered fs) ++ [("done", EmptyString)].
Proof.
  intros Hfs Htext. unfold connectWithFetch.
  rewrite (processStream_lines JSON_stringify chunks Closed EmptyString "message" eq_refl).
  rewrite append_nil_l, Htext, written_lines.
  - rewrite (processLines_frames _ fs Hfs). reflexivity.
  - eapply Forall_impl; [exact Hfs|]. intros f [He _]. apply plainEvent_oneLine, He.
Qed.

End Frames.

Section Delivery.

Lemma delivered_plain (f : string * string) :
  plainFrame f = true → delivered f = [f].
Proof.
  destruct f as [event payload]. unfold plainFrame, plainPayload, delivered. cbn [fst snd].
  intros H. apply andb_true_iff in H as [_ H].
  apply andb_true_iff in H as [H Hobj]. apply andb_true_iff in H as [H Hend].
  apply andb_true_iff in H as [Hne _].
  apply String.eqb_eq in Hend. apply negb_true_iff in Hobj.
  rewrite Hend, Hne, Hobj. reflexivity.
Qed.

Lemma delivered_plain_all (fs : list (string * string)) :
  Forall (λ f, plainFrame f = true) fs → concat (map delivered fs) = fs.
Proof.
  induction 1 as [|f fs Hf _ IH]; [reflexivity|].
  cbn [map concat]. rewrite (delivered_plain f Hf), IH. reflexivity.
Qed.

Lemma plainFrame_lines (f : string * string) :
  plainFrame f = true →
  plainEvent f.1 = true ∧ (hasNewline f.2 = false ∨ f.2 = newline).
Proof.
  unfold plainFrame, plainPayload. intros H.
  apply andb_true_iff in H as [He H]. split; [exact He|]. left.
  apply andb_true_iff in H as [H _]. apply andb_true_iff in H as [H _].
  apply andb_true_iff in H as [_ H]. apply negb_true_iff in H. exact H.
Qed.

End Delivery.

(** X14.  Frames that are plain (event name and payload one line each, no
    white space around the name, the payload not blank, not ending in
    white space and not the empty object) reach the listeners as they were
    sent and in the order they were sent; the done frame that closes the
    stream is emitted as a done event with empty data, and the end of the
    body makes the client emit done once more. *)
Theorem plain_frames_reach_the_listeners (JSON_stringify : JSValue → string)
    (chunks : list string) (fs : list (string * string)) :
  Forall (λ f, plainFrame f = true) fs →
  concat_strings chunks = written (fs ++ [("done", "{}")]) →
  connectWithFetch JSON_stringify (Normal (Body chunks Closed))
  = fs ++ [("done", EmptyString); ("done", EmptyString)].
Proof.
  intros Hfs Htext.
  rewrite (written_events JSON_stringify chunks (fs ++ [("done", "{}")])).
  - rewrite map_app, concat_app, (delivered_plain_all fs Hfs), <- app_assoc. reflexivity.
  - apply Forall_app. split.
    + eapply Forall_impl; [exact Hfs|]. intros f. apply plainFrame_lines.
    + constructor; [|constructor]. split; [reflexivity|]. left. reflexivity.
  - exact Htext.
Qed.

Lemma plain_frames_reach_the_listeners_witness :
  Forall (λ f, plainFrame f = true)
         [("tool_call", "{tool: lookup}"); ("tool_result", "X"); ("token", " ok")]
  ∧ connectWithFetch Scenario.stringify
      (Normal (Body [written [("tool_call", "{tool: lookup}"); ("tool_result", "X")];
                     written [("token", " ok"); ("done", "{}")]] Closed))
    = [("tool_call", "{tool: lookup}"); ("tool_result", "X"); ("token", " ok");
       ("done", EmptyString); ("done", EmptyString)].
Proof.
  assert (H : Forall (λ f, plainFrame f = true)
                [("tool_call", "{tool: lookup}"); ("tool_result", "X"); ("token", " ok")])
    by (repeat constructor).
  split; [exact H|].
  apply (plain_frames_reach_the_listeners Scenario.stringify _ _ H). reflexivity.
Defined.

(** X15.  What the client makes of frames with a plain event name and a
    payload of one line, frame by frame: nothing when the payload is blank;
    nothing when the payload is the empty object, unless the event is done,
    which is emitted with empty data; in every other case the event, with
    the payload stripped of the white space at its end.  The end of the
    body adds a done event. *)
Theorem one_line_frames_as_the_client_reads_them (JSON_stringify : JSValue → string)
    (chunks : list string) (fs : list (string * string)) :
  Forall (λ f, plainEvent f.1 = true ∧ hasNewline f.2 = false) fs →
  concat_strings chunks = written fs →
  connectWithFetch JSON_stringify (Normal (Body chunks Closed))
  = concat (map delivered fs) ++ [("done", EmptyString)].
Proof.
  intros Hfs Htext. apply written_events; [|exact Htext].
  eapply Forall_impl; [exact Hfs|]. intros f [He Hp]. split; [exact He|left; exact Hp].
Qed.

Lemma one_line_frames_as_the_client_reads_them_witness :
  Forall (λ f, plainEvent f.1 = true ∧ hasNewline f.2 = false)
         [("token", "Hello "); ("token", " "); ("token", "{}"); ("done", "{}")]
  ∧ connectWithFetch Scenario.stringify
      (Normal (Body [written [("token", "Hello "); ("token", " "); ("token", "{}");
                              ("done", "{}")]] Closed))
    = [("token", "Hello"); ("done", EmptyString); ("done", EmptyString)].
Proof.
  assert (H : Forall (λ f, plainEvent f.1 = true ∧ hasNewline f.2 = false)
                [("token", "Hello "); ("token", " "); ("token", "{}"); ("done", "{}")])
    by (repeat constructor).
  split; [exact H|].
  apply (one_line_frames_as_the_client_reads_them Scenario.stringify _ _ H). reflexivity.
Defined.

Lemma wire_injected (event payload event' payload' : string) :
  wire event (payload +:+ newline +:+ newline
                +:+ "event: " +:+ event' +:+ newline +:+ "data: " +:+ payload')
  = wire event payload +:+ wire event' payload'.
Proof. unfold wire. rewrite !append_assoc. reflexivity. Qed.

Lemma written_app (a b : list (string * string)) :
  written (a ++ b) = written a +:+ written b.
Proof. unfold written. rewrite map_app. apply concat_strings_app. Qed.

(** X16.  [sendSSE] does not escape line breaks: a frame whose payload
    holds an empty line followed by an event line and a data line is
    written as the very text of two frames, so the stream is the same text
    as the stream in which the two frames were sent, and no reader can tell
    the two streams apart. *)
Theorem payload_lines_are_frames (before after : list (string * string))
    (event payload event' payload' : string) :
  written (before
             ++ (event,
                 payload +:+ newline +:+ newline
                   +:+ "event: " +:+ event' +:+ newline +:+ "data: " +:+ payload')
             :: after)
  = written (before ++ (event, payload) :: (event', payload') :: after).
Proof.
  rewrite !written_app, !written_cons. cbn [fst snd].
  rewrite wire_injected, append_assoc. reflexivity.
Qed.

Section Hook.
Context (JSON_parse : string → Outcome JSValue).

Lemma listener_deaf (s : Chat) (emitted : list (string * string)) :
  listening s = false → foldl (listener JSON_parse) s emitted = s.
Proof.
  intros Hs. induction emitted as [|[event data] emitted IH]; [reflexivity|].
  cbn [foldl]. unfold listener at 2. rewrite Hs. exact IH.
Qed.

Lemma listener_done (s : Chat) (data : string) :
  listening (listener JSON_parse s ("done", data)) = false.
Proof.
  unfold listener. destruct (listening s) eqn:Hs; [reflexivity|exact Hs].
Qed.

End Hook.

(** X17.  Once the done event has been emitted the hook has removed its
    listeners: whatever the client emits afterwards (further tokens, an
    error, the second done at the end of the body) changes nothing of what
    the hook shows. *)
Theorem nothing_is_heard_after_done (JSON_parse : string → Outcome JSValue)
    (before after : list (string * string)) (data : string) :
  useChatStream JSON_parse (before ++ ("done", data) :: after)
  = useChatStream JSON_parse (before ++ [("done", data)]).
Proof.
  unfold useChatStream. rewrite !foldl_app. cbn [foldl].
  apply listener_deaf, listener_done.
Qed.

(** X18.  A response whose body holds no line feed (such as a one-line
    JSON body sent with an error status) is read as a stream that
    completes at once: the client emits done and nothing else, and the
    hook ends the turn with an empty assistant message and no error. *)
Theorem one_line_body_completes_silently (JSON_stringify : JSValue → string)
    (JSON_parse : string → Outcome JSValue) (chunks : list string) :
  hasNewline (concat_strings chunks) = false →
  connectWithFetch JSON_stringify (Normal (Body chunks Closed)) = [("done", EmptyString)]
  ∧ useChatStream JSON_parse (connectWithFetch JSON_stringify (Normal (Body chunks Closed)))
    = mkChat EmptyString false JNull false.
Proof.
  intros H.
  assert (connectWithFetch JSON_stringify (Normal (Body chunks Closed))
          = [("done", EmptyString)]) as ->; [|split; reflexivity].
  unfold connectWithFetch. rewrite (processStream_lines JSON_stringify chunks Closed EmptyString "message" eq_refl).
  rewrite append_nil_l, (splitLines_plain _ H). reflexivity.
Qed.

Lemma one_line_body_completes_silently_witness :
  hasNewline (concat_strings ["{error: Invalid"; " request}"]) = false
  ∧ useChatStream Scenario.parse
      (connectWithFetch Scenario.stringify
         (Normal (Body ["{error: Invalid"; " request}"] Closed)))
    = mkChat EmptyString false JNull false.
Proof.
  split; [reflexivity|].
  apply (one_line_body_completes_silently Scenario.stringify Scenario.parse
           ["{error: Invalid"; " request}"]).
  reflexivity.
Defined.

Lemma safeParse_object (fields : list (string * JSValue)) (message : string)
    (sessionId : option string) :
  assoc "message" fields = JStr message →
  nonempty message = true →
  assoc "sessionId" fields
  = match sessionId with Some s => JStr s | None => JUndefined end →
  ChatRequestSchema_safeParse (JObj fields) = inr (message, sessionId).
Proof.
  intros Hm Hne Hs. unfold ChatRequestSchema_safeParse.
  rewrite Hm, Hne, Hs. destruct sessionId; reflexivity.
Qed.

(** X19.  Whatever the hook sends, the route accepts: [sendMessage] posts
    nothing for a blank message or while a turn is loading, and otherwise
    a body that passes [ChatRequestSchema] with the trimmed message and the
    hook's session id. *)
Theorem hook_requests_are_valid (message : string) (loading : bool) (sessionId : string) :
  match sendMessage message loading sessionId with
  | Some body =>
      ChatRequestSchema_safeParse body = inr (trim message, Some sessionId)
      ∧ nonempty (trim message) = true ∧ loading = false
  | None => nonempty (trim message) = false ∨ loading = true
  end.
Proof.
  unfold sendMessage.
  destruct (nonempty (trim message)) eqn:Hne; cbn [negb orb]; [|left; reflexivity].
  destruct loading; [right; reflexivity|].
  split; [|split; reflexivity].
  apply (safeParse_object _ (trim message) (Some sessionId)); [reflexivity|exact Hne|reflexivity].
Qed.

Section EndToEnd.
Context {W : Type} (X : External W).

Lemma tools_frames tcs (st : Store (W:=W)) ms st' o :
  ToolsRun X tcs st ms st' o → Forall (λ f, f.1 = "tool_call") (frames o).
Proof.
  induction 1 as [|tc tcs st m st1 o1 ms st2 o2 H1 _ IH]; [constructor|].
  rewrite frames_app. apply Forall_app. split; [|exact IH].
  destruct H1; repeat constructor.
Qed.

Lemma pass_frames messages (st : Store (W:=W)) r st' o :
  PassRun X messages st r st' o → Forall (λ f, f.1 = "tool_call") (frames o).
Proof.
  intros []; try constructor.
  change (frames (ObsLLM ?m ?r :: ?l)) with (frames l).
  eapply tools_frames; eassumption.
Qed.

(** The only frames a run of the loop writes are [tool_call] frames. *)
Lemma loop_frames n messages (st : Store (W:=W)) r st' o :
  LoopRun X n messages st r st' o → Forall (λ f, f.1 = "tool_call") (frames o).
Proof.
  induction 1; try constructor; try (eapply pass_frames; eassumption).
  rewrite frames_app. apply Forall_app. split; [eapply pass_frames; eassumption|].
  assumption.
Qed.

Lemma delivered_event (f : string * string) :
  Forall (λ e, e.1 = f.1) (delivered f).
Proof.
  destruct f as [event payload]. unfold delivered.
  destruct (negb (nonempty (trimEnd payload))); [constructor|].
  destruct (String.eqb (trim payload) "{}").
  - destruct (String.eqb event "done"); repeat constructor.
  - repeat constructor.
Qed.

Lemma delivered_events (fs : list (string * string)) :
  Forall (λ f, f.1 = "tool_call" ∨ f.1 = "done") fs →
  Forall (λ e, e.1 = "tool_call" ∨ e.1 = "done") (concat (map delivered fs)).
Proof.
  induction 1 as [|f fs Hf _ IH]; [constructor|].
  cbn [map concat]. apply Forall_app. split; [|exact IH].
  eapply Forall_impl; [apply delivered_event|].
  intros e He. cbn beta in He. rewrite He. exact Hf.
Qed.

(** A connection that emits no token and no error leaves the hook with
    the message it started from, and the [done] at the end of the body
    ends the loading. *)
Lemma hook_without_tokens (emitted : list (string * string)) (s : Chat) :
  Forall (λ e, e.1 = "tool_call" ∨ e.1 = "done") emitted →
  listening s = true ∨ isLoading s = false →
  let s' := foldl (listener (JSON_parse X)) s (emitted ++ [("done", EmptyString)]) in
  currentMessage s' = currentMessage s
  ∧ error s' = error s
  ∧ isLoading s' = false.
Proof.
  intros Hall. revert s. induction Hall as [|[event data] emitted He _ IH]; intros s Hs.
  - cbn. destruct (listening s) eqn:E; cbn; [repeat split|].
    destruct Hs as [Hs|Hs]; [discriminate|]. repeat split. exact Hs.
  - cbn [app foldl]. cbn [fst] in He.
    assert (Hstep : currentMessage (listener (JSON_parse X) s (event, data)) = currentMessage s
                    ∧ error (listener (JSON_parse X) s (event, data)) = error s
                    ∧ (listening (listener (JSON_parse X) s (event, data)) = true
                       ∨ isLoading (listener (JSON_parse X) s (event, data)) = false)).
    { unfold listener. destruct (listening s) eqn:E; cbn [negb].
      - destruct He as [-> | ->]; cbn; rewrite ?E; auto.
      - destruct Hs as [Hs|Hs]; [discriminate|]. auto. }
    destruct Hstep as (Hm &Herr & Hinv).
    destruct (IH _ Hinv) as (Hm' & Herr' & Hl'). cbn zeta.
    rewrite Hm', Herr', Hm, Herr. repeat split. exact Hl'.
Qed.

End EndToEnd.



(** ** The calculator *)

Section Calculator.

Lemma sanitize_allowed (expression : string) :
  Forall (λ c, allowed c = true) (String.list_ascii_of_string (sanitize expression)).
Proof.
  induction expression as [|c rest IH]; [constructor|].
  cbn [sanitize]. destruct (allowed c) eqn:Hc; [|exact IH].
  cbn [String.list_ascii_of_string]. constructor; assumption.
Qed.

Lemma sanitize_fixed (s : string) :
  Forall (λ c, allowed c = true) (String.list_ascii_of_string s) → sanitize s = s.
Proof.
  induction s as [|c s IH]; [reflexivity|].
  cbn [String.list_ascii_of_string sanitize]. intros H.
  apply Forall_cons in H as [Hc Hs]. rewrite Hc, (IH Hs). reflexivity.
Qed.

End Calculator.

(** X21.  The calculator evaluates what is left of the expression when
    every character other than a digit, [+ - * / ( ) .] and white space has
    been dropped: the source it hands to the evaluator holds no other
    character, and two expressions that differ only in dropped characters
    get the same answer whenever the evaluation does not throw (only the
    report of a thrown error quotes the expression as it was given). *)
Theorem calculator_sees_the_sanitized_expression
    (evaluate : string → Outcome Evaluated) (expression other : string) :
  Forall (λ c, allowed c = true) (String.list_ascii_of_string (sanitize expression))
  ∧ sanitize (sanitize expression) = sanitize expression
  ∧ (sanitize other = sanitize expression →
     (∀ error, evaluate ("return " +:+ sanitize expression) ≠ Thrown error) →
     calculator evaluate other = calculator evaluate expression).
Proof.
  split; [apply sanitize_allowed|]. split; [apply sanitize_fixed, sanitize_allowed|].
  intros Hs Hok. unfold calculator. rewrite Hs.
  destruct (evaluate ("return " +:+ sanitize expression)) as [[shown|]|error];
    [reflexivity|reflexivity|].
  exfalso. exact (Hok error eq_refl).
Qed.

Lemma calculator_sees_the_sanitized_expression_witness :
  let evaluate := λ source : string,
    if String.eqb source "return 13" then Normal (FiniteNumber "13")
    else Thrown (ErrorObject "Unexpected token") in
  sanitize "1e3" = sanitize "13"
  ∧ (∀ error, evaluate ("return " +:+ sanitize "13") ≠ Thrown error)
  ∧ calculator evaluate "1e3" = "Result: 13".
Proof.
  cbv zeta. split; [reflexivity|]. split; [discriminate|].
  set (evaluate := λ source : string,
    if String.eqb source "return 13" then Normal (FiniteNumber "13")
    else Thrown (ErrorObject "Unexpected token")).
  destruct (calculator_sees_the_sanitized_expression evaluate "13" "1e3") as (_ & _ & H).
  rewrite (H eq_refl ltac:(discriminate)). reflexivity.
Defined.

(** ** The route that keeps track of what was streamed *)

Section TrackingLemmas.
Context {W : Type} (X : External W).

Lemma noted_app (s : Streamed) (l l' : list string) (st : Store (W:=W * Streamed)) :
  noted s (l ++ l') st
  = mkStore ((world st).1, foldl note (foldl note s l) l') (sessions st).
Proof. unfold noted. rewrite foldl_app. reflexivity. Qed.

Lemma noted_noted (s s' : Streamed) (l l' : list string) (st : Store (W:=W * Streamed)) :
  noted s l (noted s' l' st) = noted s l st.
Proof. reflexivity. Qed.

(** The tools of the tracked environment do not reach the variables. *)
Lemma tracked_tool (toolName : option string) (t : Tool (W * Streamed)) :
  toolMap_get (tracked X) toolName = Some t →
  ∃ t0, ∀ args w,
    tool_invoke t args w
    = match tool_invoke t0 args w.1 with (outcome, w') => (outcome, (w', w.2)) end.
Proof.
  destruct toolName as [n|]; [|discriminate]. intros Hget.
  pose proof (registry_lookup (tools (tracked X)) n) as H.
  unfold toolMap_get, toolMap in Hget. rewrite Hget in H.
  destruct H as (pre & post & Htools & _).
  assert (Hin : t ∈ tools (tracked X)).
  { rewrite Htools. apply elem_of_app. right. apply elem_of_cons. left. reflexivity. }
  apply list_elem_of_fmap in Hin as (t0 & -> & _).
  exists t0. reflexivity.
Qed.

Lemma track_token (s : Streamed) (l : list string) (token : string)
    (st : Store (W:=W * Streamed)) :
  (λ token : string,
     bind getStreamed
          (λ s, bind (setStreamed (note s token)) (λ _, sendToken (tracked X) token)))
    token (noted s l st)
  = (Normal tt, noted s (l ++ [token]) st, [ObsSSE "token" token]).
Proof. rewrite noted_app. reflexivity. Qed.

Lemma finalResponse_tracking (s : Streamed) (l : list string) (responseContent : string)
    (st : Store (W:=W * Streamed)) :
  finalResponse (Some (trackingManager X)) responseContent (noted s l st)
  = (Normal (answer responseContent), noted s l st, []).
Proof. destruct responseContent; reflexivity. Qed.

Lemma maxIterationsReached_tracking (s : Streamed) (l : list string)
    (messages : list BaseMessage) (st : Store (W:=W * Streamed)) :
  maxIterationsReached (Some (trackingManager X)) messages (noted s l st)
  = (Normal (if nonempty (lastContent messages) then lastContent messages else exhausted),
     noted s l st, [maxIterationsLine]).
Proof.
  unfold maxIterationsReached. rewrite bind_eq. unfold console, emit.
  cbn iota beta. rewrite bind_eq.
  cbn [handler trackingManager fromHandlers handleLLMNewToken].
  fold (lastContent messages).
  destruct (lastContent messages); reflexivity.
Qed.

Lemma executeTool_tracking (s : Streamed) (l : list string) (tc : ToolCall)
    (st : Store (W:=W * Streamed)) :
  ∃ m st' o,
    executeTool (tracked X) (Some (callbackManager (tracked X))) tc st = (Normal m, st', o)
    ∧ ToolRun (tracked X) tc st m st' o
    ∧ executeTool (tracked X) (Some (trackingManager X)) tc (noted s l st)
      = (Normal m, noted s l st', o).
Proof.
  destruct (executeTool_run (tracked X) tc st) as (m & st' & o & E & R).
  exists m, st', o. split; [exact E|]. split; [exact R|].
  unfold executeTool. rewrite bind_eq.
  cbn [handler trackingManager trackingHandlers callbackManager fromHandlers
       routeHandlers onToolStart handleToolStart handleToolEnd].
  rewrite handleToolStart_frame. cbn iota beta.
  destruct R as [t v w Hget Hinv|t e w Hget Hinv|Hget]; rewrite Hget.
  - destruct (tracked_tool _ _ Hget) as [t0 Ht0].
    rewrite Ht0 in Hinv.
    unfold try_catch. rewrite bind_eq. unfold invokeTool. rewrite Ht0.
    cbn [world noted fst snd] in *.
    destruct (tool_invoke t0 (parseArgs (tracked X) (tc_args tc)) (world st).1) as [outcome w'].
    injection Hinv as -> <-. reflexivity.
  - destruct (tracked_tool _ _ Hget) as [t0 Ht0].
    rewrite Ht0 in Hinv.
    unfold try_catch. rewrite bind_eq. unfold invokeTool. rewrite Ht0.
    cbn [world noted fst snd] in *.
    destruct (tool_invoke t0 (parseArgs (tracked X) (tc_args tc)) (world st).1) as [outcome w'].
    injection Hinv as -> <-. reflexivity.
  - reflexivity.
Qed.

Lemma executeTools_tracking (s : Streamed) (l : list string) (tcs : list ToolCall)
    (st : Store (W:=W * Streamed)) :
  ∃ ms st' o,
    mapM (executeTool (tracked X) (Some (callbackManager (tracked X)))) tcs st = (Normal ms, st', o)
    ∧ tokens o = []
    ∧ mapM (executeTool (tracked X) (Some (trackingManager X))) tcs (noted s l st)
      = (Normal ms, noted s l st', o).
Proof.
  revert st. induction tcs as [|tc tcs IH]; intros st.
  - eexists _, _, _. split; [reflexivity|]. split; reflexivity.
  - destruct (executeTool_tracking s l tc st) as (m & st1 & o1 & E1 & R1 & T1).
    destruct (IH st1) as (ms & st2 & o2 & E2 & Htok & T2).
    exists (m :: ms), st2, (o1 ++ o2). cbn [mapM].
    rewrite !bind_eq, E1, T1, !bind_eq, E2, T2. cbn. rewrite !app_nil_r.
    split; [reflexivity|]. split; [|reflexivity].
    rewrite tokens_app, Htok, app_nil_r. destruct R1; reflexivity.
Qed.

Lemma pass_tracking (s : Streamed) (l : list string) (messages : list BaseMessage)
    (st : Store (W:=W * Streamed)) :
  ∃ r st' o,
    pass (tracked X) (Some (callbackManager (tracked X))) messages st = (r, st', o)
    ∧ pass (tracked X) (Some (trackingManager X)) messages (noted s l st)
      = (r, noted s (l ++ tokens o) st', o).
Proof.
  rewrite !pass_eq.
  change (llm_invoke (tracked X) messages (world (noted s l st)))
    with (match llm_invoke X messages (world st).1 with
          | (outcome, w') => (outcome, (w', foldl note s l))
          end).
  change (llm_invoke (tracked X) messages (world st))
    with (match llm_invoke X messages (world st).1 with
          | (outcome, w') => (outcome, (w', (world st).2))
          end).
  destruct (llm_invoke X messages (world st).1) as [[[response|]|e] w'];
    [|eexists _, _, _; split; [reflexivity|]; cbn; rewrite app_nil_r; reflexivity
     |eexists _, _, _; split; [reflexivity|]; cbn; rewrite app_nil_r; reflexivity].
  destruct (collectToolCalls (tracked X) response) as [[|tc tcs]|e];
    [| |eexists _, _, _; split; [reflexivity|]; cbn; rewrite app_nil_r; reflexivity].
  - rewrite finalResponse_run.
    change (mkStore (w', foldl note s l) (sessions (noted s l st)))
      with (noted s l (mkStore (w', (world st).2) (sessions st))).
    rewrite finalResponse_tracking.
    eexists _, _, _. split; [reflexivity|].
    cbn [tokens omap]. rewrite app_nil_r. reflexivity.
  - change (mkStore (w', foldl note s l) (sessions (noted s l st)))
      with (noted s l (mkStore (w', (world st).2) (sessions st))).
    destruct (executeTools_tracking s l (tc :: tcs) (mkStore (w', (world st).2) (sessions st)))
      as (ms & st2 & o2 & E2 & Htok & T2).
    rewrite E2, T2. eexists _, _, _. split; [reflexivity|].
    change (tokens (ObsLLM ?m ?out :: ?o)) with (tokens o).
    rewrite Htok, app_nil_r. reflexivity.
Qed.

Lemma executorLoop_tracking (s : Streamed) (n : nat) (l : list string)
    (messages : list BaseMessage) (st : Store (W:=W * Streamed)) :
  ∃ r st' o,
    executorLoop (tracked X) (Some (callbackManager (tracked X))) n messages st = (r, st', o)
    ∧ LoopRun (tracked X) n messages st r st' o
    ∧ executorLoop (tracked X) (Some (trackingManager X)) n messages (noted s l st)
      = (r, noted s (l ++ tokens o) st', o).
Proof.
  revert l messages st. induction n as [|n IH]; intros l messages st.
  - destruct (executorLoop_run (tracked X) 0 messages st) as (r & st' & o & E & R).
    exists r, st', o. split; [exact E|]. split; [exact R|].
    cbn [executorLoop] in E |- *. rewrite bind_eq in E |- *.
    rewrite maxIterationsReached_run in E. rewrite maxIterationsReached_tracking.
    cbn in E |- *. injection E as <- <- <-. rewrite app_nil_r.
    reflexivity.
  - destruct (executorLoop_run (tracked X) (S n) messages st) as (r & st' & o & E & R).
    exists r, st', o. split; [exact E|]. split; [exact R|].
    cbn [executorLoop] in E |- *. rewrite bind_eq in E |- *.
    destruct (pass_tracking s l messages st) as (r1 & st1 & o1 & E1 & T1).
    rewrite E1 in E. rewrite T1.
    destruct r1 as [[output|messages']|e].
    + cbn in E |- *. injection E as <- <- <-. rewrite !app_nil_r. reflexivity.
    + destruct (IH (l ++ tokens o1) messages' st1) as (r2 & st2 & o2 & E2 & _ & T2).
      rewrite E2 in E. rewrite T2. injection E as <- <- <-.
      rewrite tokens_app, app_assoc. reflexivity.
    + injection E as <- <- <-. reflexivity.
Qed.

End TrackingLemmas.

Section TrackingTurns.
Context {W : Type} (X : External W).


Lemma manual_tracked : manual X → manual (tracked X).
Proof. intros H. exact H. Qed.

Lemma determineFinalResponse_run (s : Streamed) (output : string)
    (st : Store (W:=W * Streamed)) :
  ∃ fr o3, determineFinalResponse X s output st = (Normal fr, st, o3).
Proof.
  unfold determineFinalResponse.
  destruct (tokensStreamed s && nonempty (trim (streamedContent s)));
    [eexists _, _; reflexivity|].
  destruct (nonempty (trim output)).
  { destruct (tokensStreamed s); eexists _, _; reflexivity. }
  destruct (nonempty output); [|eexists _, _; reflexivity].
  destruct (tokensStreamed s); eexists _, _; reflexivity.
Qed.

Lemma trackingTurn_manual (message sessionId : string) (st : Store (W:=W * Streamed)) :
  manual X →
  let st1 := committed (tracked X) st sessionId user message in
  let i := turnInput (tracked X) st sessionId message in
  ∃ r st2 o,
    executorLoop (tracked X) (Some (callbackManager (tracked X))) maxIterations
                 (chat_history i ++ [HumanMessage message]) st1
    = (r, st2, o)
    ∧ LoopRun (tracked X) maxIterations (chat_history i ++ [HumanMessage message]) st1 r st2 o
    ∧ match r with
      | Normal (ws, output) =>
          ∀ fr o3,
            determineFinalResponse X (foldl note (mkStreamed false EmptyString) (tokens o)) output
                                   (noted (mkStreamed false EmptyString) (tokens o) st2)
            = (Normal fr, noted (mkStreamed false EmptyString) (tokens o) st2, o3) →
            trackingTurn X message sessionId st
            = (Normal tt,
               committed (tracked X) (noted (mkStreamed false EmptyString) (tokens o) st2) sessionId assistant
                         (orElse fr errorMsg),
               ObsAddMessage sessionId (stamped (tracked X) st user message)
                 :: o ++ o3
                 ++ noFinalResponse fr
                 ++ [ObsAddMessage sessionId (stamped (tracked X) st2 assistant (orElse fr errorMsg));
                     doneFrame (tracked X); ObsEnd])
      | Thrown e =>
          trackingTurn X message sessionId st
          = (Thrown e, noted (mkStreamed false EmptyString) (tokens o) st2,
             ObsAddMessage sessionId (stamped (tracked X) st user message) :: o)
      end.
Proof.
  intros Hm st1 i.
  destruct (executorLoop_tracking X (mkStreamed false EmptyString) maxIterations [] 
              (chat_history i ++ [HumanMessage message]) st1)
    as (r & st2 & o & E & R & T).
  exists r, st2, o. split; [exact E|]. split; [exact R|].
  assert (Hstart : mkStore ((world (committed (tracked X) st sessionId user message)).1,
                            mkStreamed false EmptyString)
                           (sessions (committed (tracked X) st sessionId user message))
                   = noted (mkStreamed false EmptyString) [] st1) by reflexivity.
  unfold trackingTurn, createAgent. rewrite bind_eq, bind_eq.
  rewrite (createLLM_manual (tracked X) st (manual_tracked Hm)).
  destruct Hm as [Hp Hk].
  change (MODEL_PROVIDER (tracked X)) with (MODEL_PROVIDER X). rewrite Hp.
  cbn [String.eqb Ascii.eqb Bool.eqb ret agent_addMessage agent_getHistory
       executor_invoke].
  rewrite bind_eq, addMessage_run.
  rewrite bind_eq. cbn [setStreamed]. rewrite Hstart.
  rewrite bind_eq, getLangChainMessages_run.
  change (sessions (noted (mkStreamed false EmptyString) [] st1))
    with (sessions (committed (tracked X) st sessionId user message)).
  rewrite committed_lookup.
  rewrite bind_eq, gemini_invoke_eq.
  cbn [from_option id]. fold (turnInput (tracked X) st sessionId message). fold i.
  unfold gemini_run.
  change (maxIterations - 0) with maxIterations.
  change (input i) with message.
  rewrite T. cbn [app].
  destruct r as [[ws output]|e]; [|reflexivity].
  intros fr o3 Hdet. cbn [snd].
  rewrite bind_eq.
  change (getStreamed (noted (mkStreamed false EmptyString) (tokens o) st2))
    with (Normal (foldl note (mkStreamed false EmptyString) (tokens o)),
          noted (mkStreamed false EmptyString) (tokens o) st2, @nil Obs).
  cbn iota beta. rewrite bind_eq, Hdet. unfold orElse, noFinalResponse.
  destruct (nonempty fr) eqn:Hfr.
  - rewrite bind_eq, addMessage_run, sendDone_run.
    cbn. rewrite ?app_nil_r. reflexivity.
  - rewrite bind_eq, bind_eq. unfold console, emit. cbn iota beta.
    rewrite bind_eq. cbn [sendToken sendSSE emit]. unfold emit. cbn iota beta.
    rewrite addMessage_run, sendDone_run.
    cbn. rewrite ?app_nil_r. reflexivity.
Qed.

End TrackingTurns.

Section TrackingNative.
Context {W : Type} (X : External W).

Lemma replay_tracking (s : Streamed) (l : list string) (calls : list CallbackCall)
    (st : Store (W:=W * Streamed)) :
  ∃ units,
    mapM (replay (Some (trackingManager X))) calls (noted s l st)
    = (Normal units,
       noted s (l ++ tokens (map (replayed (tracked X)) calls)) st,
       map (replayed (tracked X)) calls).
Proof.
  revert l. induction calls as [|c calls IH]; intros l.
  - exists []. cbn. rewrite app_nil_r. reflexivity.
  - cbn [mapM]. rewrite bind_eq.
    assert (Hc : replay (Some (trackingManager X)) c (noted s l st)
                 = (Normal tt, noted s (l ++ tokens [replayed (tracked X) c]) st,
                    [replayed (tracked X) c])).
    { destruct c as [token|tool i|output].
      - cbn [replay handler trackingManager trackingHandlers fromHandlers handlers
             onLLMNewToken].
        rewrite track_token. reflexivity.
      - cbn. rewrite app_nil_r. reflexivity.
      - cbn. rewrite app_nil_r. reflexivity. }
    rewrite Hc. cbn iota beta.
    destruct (IH (l ++ tokens [replayed (tracked X) c])) as [units E].
    rewrite bind_eq, E. exists (tt :: units). cbn [ret map app].
    rewrite app_nil_r, <- app_assoc.
    change (replayed (tracked X) c :: map (replayed (tracked X)) calls)
      with ([replayed (tracked X) c] ++ map (replayed (tracked X)) calls).
    rewrite tokens_app. reflexivity.
Qed.

Lemma openai_invoke_tracking (s : Streamed) (l : list string) (i : ExecutorInput)
    (st : Store (W:=W * Streamed)) :
  openai_invoke (tracked X) i (Some (trackingManager X)) (noted s l st) =
  match agentExecutor_invoke X (input i) (chat_history i) (world st).1 with
  | (calls, outcome, w') =>
      (outcome,
       noted s (l ++ tokens (map (replayed (tracked X)) calls))
             (mkStore (w', (world st).2) (sessions st)),
       map (replayed (tracked X)) calls ++ [ObsNative (input i) outcome])
  end.
Proof.
  unfold openai_invoke. rewrite bind_eq. unfold agentExecutor.
  change (agentExecutor_invoke (tracked X) (input i) (chat_history i)
            (world (noted s l st)))
    with (match agentExecutor_invoke X (input i) (chat_history i) (world st).1 with
          | (calls, outcome, w') => (calls, outcome, (w', foldl note s l))
          end).
  destruct (agentExecutor_invoke X (input i) (chat_history i) (world st).1)
    as [[calls outcome] w'].
  cbn [fst snd]. rewrite bind_eq.
  change (mkStore (w', foldl note s l) (sessions (noted s l st)))
    with (noted s l (mkStore (w', (world st).2) (sessions st))).
  destruct (replay_tracking s l calls (mkStore (w', (world st).2) (sessions st)))
    as [units E].
  rewrite E. cbn iota beta. rewrite bind_eq. unfold emit, lift.
  destruct outcome; reflexivity.
Qed.

End TrackingNative.

Section TrackingRoute.
Context {W : Type} (X : External W).

Lemma trackingTurn_native (message sessionId : string) (st : Store (W:=W * Streamed)) :
  native X →
  let st1 := committed (tracked X) st sessionId user message in
  let i := turnInput (tracked X) st sessionId message in
  match agentExecutor_invoke X message (chat_history i) (world st).1 with
  | (calls, outcome, w') =>
      let o := map (replayed (tracked X)) calls ++ [ObsNative message outcome] in
      let st2 := mkStore (w', (world st).2) (sessions st1) in
      match outcome with
      | Normal output =>
          ∀ fr o3,
            determineFinalResponse X (foldl note (mkStreamed false EmptyString) (tokens o))
                                   output
                                   (noted (mkStreamed false EmptyString) (tokens o) st2)
            = (Normal fr, noted (mkStreamed false EmptyString) (tokens o) st2, o3) →
            trackingTurn X message sessionId st
            = (Normal tt,
               committed (tracked X) (noted (mkStreamed false EmptyString) (tokens o) st2)
                         sessionId assistant (orElse fr errorMsg),
               ObsAddMessage sessionId (stamped (tracked X) st user message)
                 :: o ++ o3 ++ noFinalResponse fr
                 ++ [ObsAddMessage sessionId
                       (stamped (tracked X) st2 assistant (orElse fr errorMsg));
                     doneFrame (tracked X); ObsEnd])
      | Thrown e =>
          trackingTurn X message sessionId st
          = (Thrown e, noted (mkStreamed false EmptyString) (tokens o) st2,
             ObsAddMessage sessionId (stamped (tracked X) st user message) :: o)
      end
  end.
Proof.
  intros Hn st1 i.
  assert (Hstart : mkStore ((world (committed (tracked X) st sessionId user message)).1,
                            mkStreamed false EmptyString)
                           (sessions (committed (tracked X) st sessionId user message))
                   = noted (mkStreamed false EmptyString) [] st1) by reflexivity.
  pose proof (openai_invoke_tracking X (mkStreamed false EmptyString) [] i st1) as T.
  change (input i) with message in T.
  change (world st1).1 with (world st).1 in T.
  change (world st1).2 with (world st).2 in T.
  destruct (agentExecutor_invoke X message (chat_history i) (world st).1)
    as [[calls outcome] w'].
  cbn zeta.
  assert (Htok : tokens (map (replayed (tracked X)) calls ++ [ObsNative message outcome])
                 = tokens (map (replayed (tracked X)) calls)).
  { rewrite tokens_app. cbn. apply app_nil_r. }
  rewrite Htok. cbn [app] in T.
  assert (Hprefix :
    ∀ (k : Agent → string → M (W:=W * Streamed) unit),
      bind (createAgent (tracked X) sessionId)
           (λ agent,
              bind (agent_addMessage agent user message)
                   (λ _, bind (setStreamed (mkStreamed false EmptyString))
                           (λ _, bind (agent_getHistory agent)
                              (λ history,
                                 bind (executor_invoke agent (mkInput message history)
                                         (Some (trackingManager X)))
                                      (λ output, k agent output))))) st
      = match outcome with
        | Normal output =>
            match k (mkAgent (openai_invoke (tracked X))
                             (getLangChainMessages sessionId)
                             (λ role content,
                                bind (newDate (tracked X))
                                     (λ timestamp,
                                        memory_addMessage sessionId
                                          (mkChatMessage role content timestamp))))
                    output
                    (noted (mkStreamed false EmptyString)
                           (tokens (map (replayed (tracked X)) calls))
                           (mkStore (w', (world st).2) (sessions st1))) with
            | (r', st', o') =>
                (r', st',
                 ObsAddMessage sessionId (stamped (tracked X) st user message)
                   :: (map (replayed (tracked X)) calls ++ [ObsNative message outcome])
                   ++ o')
            end
        | Thrown e =>
            (Thrown e,
             noted (mkStreamed false EmptyString)
                   (tokens (map (replayed (tracked X)) calls))
                   (mkStore (w', (world st).2) (sessions st1)),
             ObsAddMessage sessionId (stamped (tracked X) st user message)
               :: map (replayed (tracked X)) calls ++ [ObsNative message outcome])
        end).
  { intros k. unfold createAgent. rewrite bind_eq, bind_eq.
    rewrite (createLLM_native (tracked X) st Hn).
    destruct Hn as [Hp Hk].
    change (MODEL_PROVIDER (tracked X)) with (MODEL_PROVIDER X). rewrite Hp.
    cbn [String.eqb Ascii.eqb Bool.eqb ret agent_addMessage agent_getHistory
         executor_invoke].
    rewrite bind_eq, addMessage_run.
    rewrite bind_eq. cbn [setStreamed]. rewrite Hstart.
    rewrite bind_eq, getLangChainMessages_run.
    change (sessions (noted (mkStreamed false EmptyString) [] st1))
      with (sessions (committed (tracked X) st sessionId user message)).
    rewrite committed_lookup.
    rewrite bind_eq.
    cbn [from_option id]. fold (turnInput (tracked X) st sessionId message). fold i.
    rewrite T.
    destruct outcome as [output|e]; [|reflexivity].
    destruct (k _ output _) as [[r' st'] o']. cbn. reflexivity. }
  destruct outcome as [output|e].
  - intros fr o3 Hdet. unfold trackingTurn.
    rewrite Hprefix.
    cbn [agent_addMessage].
    rewrite bind_eq.
    change (getStreamed ?st')
      with (Normal (world st').2, st', @nil Obs).
    cbn iota beta. cbn [world noted snd].
    rewrite bind_eq, Hdet. unfold orElse, noFinalResponse.
    destruct (nonempty fr) eqn:Hfr.
    + rewrite bind_eq, addMessage_run, sendDone_run.
      cbn. rewrite ?app_nil_r, <- ?app_assoc. reflexivity.
    + rewrite bind_eq, bind_eq. unfold console, emit. cbn iota beta.
      rewrite bind_eq. cbn [sendToken sendSSE emit]. unfold emit. cbn iota beta.
      rewrite addMessage_run, sendDone_run.
      cbn. rewrite ?app_nil_r, <- ?app_assoc. reflexivity.
  - unfold trackingTurn.
    rewrite Hprefix.
    reflexivity.
Qed.

End TrackingRoute.

Section TrackingAnswers.
Context {W : Type} (X : External W).

Lemma trackingRoute_valid (body : JSValue) (st : Store (W:=W * Streamed))
    (message : string) (sessionId : option string) :
  ChatRequestSchema_safeParse body = inr (message, sessionId) →
  trackingRoute X body st =
  match trackingTurn X message (default "default" sessionId) st with
  | (Normal _, st', o) => (Normal tt, st', headers ++ o)
  | (Thrown e, st', o) => (Normal tt, st', headers ++ o ++ caught (tracked X) e)
  end.
Proof.
  intros E. unfold trackingRoute. rewrite E.
  unfold bind, try_catch, emit.
  destruct (trackingTurn X message (default "default" sessionId) st) as [[[[]|e] st'] o];
    reflexivity.
Qed.

Lemma transcript_noted (s : Streamed) (l : list string) (st : Store (W:=W * Streamed))
    (sessionId : string) :
  transcript (noted s l st) sessionId = transcript st sessionId.
Proof. reflexivity. Qed.

(** When no token has been streamed, what follows the executor writes a
    token frame. *)
Lemma determine_writes (s : Streamed) (output fr : string) (o3 : list Obs)
    (st st' : Store (W:=W * Streamed)) :
  determineFinalResponse X s output st = (Normal fr, st', o3) →
  tokensStreamed s = false →
  tokens (o3 ++ noFinalResponse fr) ≠ [].
Proof.
  unfold determineFinalResponse. intros H Hs. rewrite Hs in H. cbn [andb negb] in H.
  destruct (nonempty (trim output)).
  { injection H as <- <- <-. discriminate. }
  destruct (nonempty output).
  { injection H as <- <- <-. discriminate. }
  injection H as <- <- <-. discriminate.
Qed.

Lemma tokens_tracked (sessionId : string) (m m' : ChatMessage) (o o3 extra : list Obs) :
  tokens (headers ++ ObsAddMessage sessionId m
            :: o ++ o3 ++ extra ++ [ObsAddMessage sessionId m'; doneFrame (tracked X); ObsEnd])
  = tokens o ++ tokens (o3 ++ extra).
Proof.
  rewrite tokens_app. cbn [headers tokens omap list_omap app].
  fold (tokens (o ++ o3 ++ extra
                  ++ [ObsAddMessage sessionId m'; doneFrame (tracked X); ObsEnd])).
  rewrite !tokens_app. cbn. rewrite app_nil_r. reflexivity.
Qed.

Lemma frames_tracked (sessionId : string) (m m' : ChatMessage) (o o3 extra : list Obs) :
  frames (headers ++ ObsAddMessage sessionId m
            :: o ++ o3 ++ extra ++ [ObsAddMessage sessionId m'; doneFrame (tracked X); ObsEnd])
  = (frames o ++ frames (o3 ++ extra)) ++ [("done", JSON_stringify X (JObj []))].
Proof.
  rewrite frames_app. cbn [headers frames omap list_omap app].
  fold (frames (o ++ o3 ++ extra
                  ++ [ObsAddMessage sessionId m'; doneFrame (tracked X); ObsEnd])).
  rewrite !frames_app. cbn. rewrite <- !app_assoc. reflexivity.
Qed.

Lemma tracked_error_frames (sessionId : string) (m : ChatMessage) (o : list Obs)
    (e : JSThrown) :
  frames (headers ++ (ObsAddMessage sessionId m :: o) ++ caught (tracked X) e)
  = frames o
      ++ [("error",
           JSON_stringify X (JObj [("error", JStr (messageOr "Unknown error occurred" e))]));
          ("done", JSON_stringify X (JObj []))].
Proof. rewrite !frames_app. reflexivity. Qed.

End TrackingAnswers.

Section TrackingCases.
Context {W : Type} (X : External W).

Lemma trackingTurn_failed_factory (message sessionId : string)
    (st : Store (W:=W * Streamed)) (e : JSThrown) :
  createLLM (tracked X) st = (Thrown e, st, []) →
  trackingTurn X message sessionId st = (Thrown e, st, []).
Proof.
  intros E. unfold trackingTurn, createAgent. rewrite bind_eq, bind_eq, E. reflexivity.
Qed.

Lemma determine_no_llm (s : Streamed) (output fr : string) (o3 : list Obs)
    (st st' : Store (W:=W * Streamed)) :
  determineFinalResponse X s output st = (Normal fr, st', o3) →
  Forall (λ o, isLLM o = false) (o3 ++ noFinalResponse fr).
Proof.
  unfold determineFinalResponse, noFinalResponse. intros H.
  destruct (tokensStreamed s && nonempty (trim (streamedContent s))).
  { injection H as <- <- <-. destruct (nonempty (streamedContent s)); repeat constructor. }
  destruct (nonempty (trim output)).
  { destruct (tokensStreamed s); injection H as <- <- <-;
      destruct (nonempty output); repeat constructor. }
  destruct (nonempty output); [|injection H as <- <- <-; repeat constructor].
  destruct (tokensStreamed s); injection H as <- <- <-;
    destruct (nonempty (JSON_stringify X (JStr output))); repeat constructor.
Qed.

(** The shape of a turn of the route that keeps track, whatever the
    strategy. *)
Lemma trackingTurn_shape (message sessionId : string) (st : Store (W:=W * Streamed)) :
  match trackingTurn X message sessionId st with
  | (Normal _, st', obs) =>
      ∃ o tail final m m',
        obs = ObsAddMessage sessionId m
                :: o ++ tail ++ [ObsAddMessage sessionId m'; doneFrame (tracked X); ObsEnd]
        ∧ Forall (λ x, streaming x = true) o
        ∧ Forall (λ x, isLLM x = false) tail
        ∧ (∀ f, f ∈ frames tail → f.1 = "token")
        ∧ tokens (o ++ tail) ≠ []
        ∧ nonempty final = true
        ∧ transcript st' sessionId
          = transcript st sessionId ++ [(user, message); (assistant, final)]
  | (Thrown e, st', obs) =>
      ∃ tail, (obs = [] ∨ ∃ m, obs = ObsAddMessage sessionId m :: tail)
              ∧ Forall (λ x, streaming x = true) tail
  end.
Proof.
  assert (Hfinal : ∀ fr, nonempty (orElse fr errorMsg) = true).
  { intros fr. unfold orElse. destruct (nonempty fr) eqn:E; [exact E|reflexivity]. }
  assert (Htail : ∀ o s output fr o3 (st0 st0' : Store (W:=W * Streamed)),
            determineFinalResponse X s output st0 = (Normal fr, st0', o3) →
            s = foldl note (mkStreamed false EmptyString) (tokens o) →
            tokens (o ++ o3 ++ noFinalResponse fr) ≠ []).
  { intros o s output fr o3 st0 st0' Hdet ->. rewrite tokens_app.
    destruct (tokens o) as [|t l] eqn:Ho; [|discriminate].
    cbn [app]. eapply determine_writes; [exact Hdet|reflexivity]. }
  assert (Hframes : ∀ s output fr o3 (st0 st0' : Store (W:=W * Streamed)),
            determineFinalResponse X s output st0 = (Normal fr, st0', o3) →
            ∀ f, f ∈ frames (o3 ++ noFinalResponse fr) → f.1 = "token").
  { intros s output fr o3 st0 st0' Hdet f Hf.
    unfold determineFinalResponse, noFinalResponse in *.
    destruct (tokensStreamed s && nonempty (trim (streamedContent s))).
    { injection Hdet as <- <- <-.
      destruct (nonempty (streamedContent s)); cbn in Hf;
        repeat (apply elem_of_cons in Hf as [->|Hf]; [reflexivity|]); inversion Hf. }
    destruct (nonempty (trim output)).
    { destruct (tokensStreamed s); injection Hdet as <- <- <-;
        destruct (nonempty output); cbn in Hf;
        repeat (apply elem_of_cons in Hf as [->|Hf]; [reflexivity|]); inversion Hf. }
    destruct (nonempty output).
    { destruct (tokensStreamed s); injection Hdet as <- <- <-;
        destruct (nonempty (JSON_stringify X (JStr output))); cbn in Hf;
        repeat (apply elem_of_cons in Hf as [->|Hf]; [reflexivity|]); inversion Hf. }
    injection Hdet as <- <- <-. cbn in Hf.
    repeat (apply elem_of_cons in Hf as [->|Hf]; [reflexivity|]); inversion Hf. }
  destruct (createLLM_cases (tracked X) st) as [Hm|[Hn|[e E]]].
  - destruct (trackingTurn_manual X message sessionId st Hm)
      as (r & st2 & o & _ & R & Hrun).
    destruct r as [[ws output]|e].
    + destruct (determineFinalResponse_run X
                  (foldl note (mkStreamed false EmptyString) (tokens o)) output
                  (noted (mkStreamed false EmptyString) (tokens o) st2))
        as (fr & o3 & Hdet).
      rewrite (Hrun fr o3 Hdet).
      eexists o, (o3 ++ noFinalResponse fr), (orElse fr errorMsg), _, _.
      split; [rewrite <- !app_assoc; reflexivity|].
      split; [eapply loop_streaming, R|].
      split; [eapply determine_no_llm, Hdet|].
      split; [eapply Hframes, Hdet|].
      split; [eapply Htail; [exact Hdet|reflexivity]|].
      split; [apply Hfinal|].
      rewrite transcript_committed, transcript_noted.
      rewrite (transcript_sessions (committed (tracked X) st sessionId user message)
                 st2 sessionId (loop_sessions (tracked X) _ _ _ _ _ _ R)).
      rewrite transcript_committed, <- app_assoc. reflexivity.
    + rewrite Hrun. exists o. split; [right; eauto|]. eapply loop_streaming, R.
  - pose proof (trackingTurn_native X message sessionId st Hn) as Hrun.
    cbn zeta in Hrun.
    destruct (agentExecutor_invoke X message
                (chat_history (turnInput (tracked X) st sessionId message)) (world st).1)
      as [[calls [output|e]] w'].
    + set (o := map (replayed (tracked X)) calls ++ [ObsNative message (Normal output)])
        in *.
      set (st2 := mkStore (w', (world st).2)
                          (sessions (committed (tracked X) st sessionId user message)))
        in *.
      destruct (determineFinalResponse_run X
                  (foldl note (mkStreamed false EmptyString) (tokens o)) output
                  (noted (mkStreamed false EmptyString) (tokens o) st2))
        as (fr & o3 & Hdet).
      rewrite (Hrun fr o3 Hdet).
      eexists o, (o3 ++ noFinalResponse fr), (orElse fr errorMsg), _, _.
      split; [rewrite <- !app_assoc; reflexivity|].
      split.
      { subst o. apply Forall_app. split; [apply replayed_streaming|repeat constructor]. }
      split; [eapply determine_no_llm, Hdet|].
      split; [eapply Hframes, Hdet|].
      split; [eapply Htail; [exact Hdet|reflexivity]|].
      split; [apply Hfinal|].
      rewrite transcript_committed, transcript_noted.
      rewrite (transcript_sessions (committed (tracked X) st sessionId user message)
                 st2 sessionId eq_refl).
      rewrite transcript_committed, <- app_assoc. reflexivity.
    + rewrite Hrun. eexists. split; [right; eauto|].
      apply Forall_app. split; [apply replayed_streaming|repeat constructor].
  - rewrite (trackingTurn_failed_factory message sessionId st e E).
    exists []. split; [left; reflexivity|constructor].
Qed.

End TrackingCases.

(** X22.  In the revision of the route that keeps track of what was
    streamed, a turn of a valid request either ends with an error frame
    followed by [done], or it writes at least one token frame and no error
    frame, ends with the [done] frame and commits an assistant message that
    is not empty, whatever the strategy and whatever the executor returns.
    Nothing is said of what the token frames carry. *)
Theorem tracked_turn_sends_and_commits {W : Type} (X : External W)
    (body : JSValue) (st : Store (W:=W * Streamed)) (message : string)
    (sessionId : option string) :
  ChatRequestSchema_safeParse body = inr (message, sessionId) →
  let sid := default "default" sessionId in
  let run := trackingRoute X body st in
  (∃ pre reason,
     frames (observations run)
     = pre ++ [("error", JSON_stringify X (JObj [("error", JStr reason)]));
               ("done", JSON_stringify X (JObj []))])
  ∨ (tokens (observations run) ≠ []
     ∧ Forall (λ f, f.1 ≠ "error") (frames (observations run))
     ∧ last (frames (observations run)) = Some ("done", JSON_stringify X (JObj []))
     ∧ ∃ final,
         nonempty final = true
         ∧ transcript (finalStore run) sid
           = transcript st sid ++ [(user, message); (assistant, final)]).
Proof.
  intros Hvalid sid run. subst run.
  rewrite (trackingRoute_valid X body st message sessionId Hvalid). fold sid.
  pose proof (trackingTurn_shape X message sid st) as Hshape.
  destruct (trackingTurn X message sid st) as [[[[]|e] st'] obs].
  - right.
    destruct Hshape as (o & tail & final & m & m' & -> & Ho & _ & Htail & Htok & Hne & Htr).
    unfold observations, finalStore. cbn [fst snd].
    assert (Hfr : frames (headers ++ ObsAddMessage sid m
                            :: o ++ tail
                            ++ [ObsAddMessage sid m'; doneFrame (tracked X); ObsEnd])
                  = (frames o ++ frames tail) ++ [("done", JSON_stringify X (JObj []))]).
    { rewrite frames_app. cbn [headers frames omap list_omap app].
      fold (frames (o ++ tail ++ [ObsAddMessage sid m'; doneFrame (tracked X); ObsEnd])).
      rewrite !frames_app. cbn. rewrite <- !app_assoc. reflexivity. }
    split; [|split; [|split]].
    + rewrite tokens_app. cbn [headers tokens omap list_omap app].
      fold (tokens (o ++ tail ++ [ObsAddMessage sid m'; doneFrame (tracked X); ObsEnd])).
      rewrite app_assoc, tokens_app. cbn. rewrite app_nil_r. exact Htok.
    + rewrite Hfr. apply Forall_app. split; [apply Forall_app; split|].
      * eapply Forall_impl.
        -- apply inner_frames. eapply Forall_impl; [exact Ho|].
           intros [] H; try exact H; discriminate.
        -- intros f [_ He]. exact He.
      * apply Forall_forall. intros f Hf. rewrite (Htail f Hf). discriminate.
      * repeat constructor. discriminate.
    + rewrite Hfr. apply last_snoc.
    + exists final. split; assumption.
  - left. destruct Hshape as (tail & Hobs & _).
    unfold observations. cbn [snd].
    exists (frames obs), (messageOr "Unknown error occurred" e).
    rewrite !frames_app. reflexivity.
Qed.

Lemma tracked_turn_sends_and_commits_witness :
  let run := trackingRoute Setups.muted (Scenario.request "q") untouched in
  ChatRequestSchema_safeParse (Scenario.request "q") = inr ("q", None)
  ∧ tokens (observations run) = ["Hel"; "lo"]
  ∧ transcript (finalStore run) "default" = [(user, "q"); (assistant, "Hello")]
  ∧ ((∃ pre reason,
        frames (observations run)
        = pre ++ [("error", Scenario.stringify (JObj [("error", JStr reason)]));
                  ("done", Scenario.stringify (JObj []))])
     ∨ (tokens (observations run) ≠ []
        ∧ Forall (λ f, f.1 ≠ "error") (frames (observations run))
        ∧ last (frames (observations run)) = Some ("done", Scenario.stringify (JObj []))
        ∧ ∃ final,
            nonempty final = true
            ∧ transcript (finalStore run) "default"
              = transcript untouched "default" ++ [(user, "q"); (assistant, final)])).
Proof.
  cbv zeta. split; [reflexivity|]. split; [vm_compute; reflexivity|].
  split; [vm_compute; reflexivity|].
  apply (tracked_turn_sends_and_commits Setups.muted (Scenario.request "q") untouched
           "q" None eq_refl).
Defined.

Section TrackedManual.
Context {W : Type} (X : External W).

(** A turn of the manual strategy under the route that keeps track: the
    run of the loop, and what the route makes of its output. *)
Lemma tracked_manual (body : JSValue) (st : Store (W:=W * Streamed))
    (message : string) (sessionId : option string) :
  manual X →
  ChatRequestSchema_safeParse body = inr (message, sessionId) →
  let sid := default "default" sessionId in
  let run := trackingRoute X body st in
  ∃ r st2 o,
    LoopRun (tracked X) maxIterations
      (chat_history (turnInput (tracked X) st sid message) ++ [HumanMessage message])
      (committed (tracked X) st sid user message) r st2 o
    ∧ (∀ msgs out, ObsLLM msgs out ∈ observations run → ObsLLM msgs out ∈ o)
    ∧ (∀ ws output fr o3,
        r = Normal (ws, output) →
        determineFinalResponse X (foldl note (mkStreamed false EmptyString) (tokens o))
                               output
                               (noted (mkStreamed false EmptyString) (tokens o) st2)
        = (Normal fr, noted (mkStreamed false EmptyString) (tokens o) st2, o3) →
        tokens (observations run) = tokens o ++ tokens (o3 ++ noFinalResponse fr)
        ∧ frames (observations run)
          = (frames o ++ frames (o3 ++ noFinalResponse fr))
              ++ [("done", JSON_stringify X (JObj []))]
        ∧ transcript (finalStore run) sid
          = transcript st sid ++ [(user, message); (assistant, orElse fr errorMsg)])
    ∧ (∀ e, r = Thrown e →
        frames (observations run)
        = frames o
            ++ [("error",
                 JSON_stringify X
                   (JObj [("error", JStr (messageOr "Unknown error occurred" e))]));
                ("done", JSON_stringify X (JObj []))]).
Proof.
  intros Hm Hvalid sid run.
  destruct (trackingTurn_manual X message sid st Hm) as (r & st2 & o & _ & R & Hrun).
  exists r, st2, o. split; [exact R|]. subst run.
  rewrite (trackingRoute_valid X body st message sessionId Hvalid). fold sid.
  split; [|split].
  - intros msgs out Hin. destruct r as [[ws output]|e].
    + destruct (determineFinalResponse_run X
                  (foldl note (mkStreamed false EmptyString) (tokens o)) output
                  (noted (mkStreamed false EmptyString) (tokens o) st2))
        as (fr & o3 & Hdet).
      rewrite (Hrun fr o3 Hdet) in Hin. unfold observations in Hin. cbn [snd] in Hin.
      eapply (route_llm o ((o3 ++ noFinalResponse fr) ++ _)); [|rewrite <- !app_assoc; exact Hin].
      apply Forall_app. split; [eapply determine_no_llm, Hdet|repeat constructor].
    + rewrite Hrun in Hin. unfold observations in Hin. cbn [snd] in Hin.
      eapply route_llm; [|exact Hin]. repeat constructor.
  - intros ws output fr o3 -> Hdet. rewrite (Hrun fr o3 Hdet).
    unfold observations, finalStore. cbn [fst snd].
    split; [apply tokens_tracked|]. split; [apply frames_tracked|].
    rewrite transcript_committed, transcript_noted.
    rewrite (transcript_sessions (committed (tracked X) st sid user message)
               st2 sid (loop_sessions (tracked X) _ _ _ _ _ _ R)).
    rewrite transcript_committed, <- app_assoc. reflexivity.
  - intros e ->. rewrite Hrun. unfold observations. cbn [snd].
    apply tracked_error_frames.
Qed.

End TrackedManual.





(** ** The two revisions of the route *)

Section Conservative.
Context {W : Type} (X : External W).

Lemma toolMap_tracked (n : string) :
  toolMap (tracked X) !! n = trackedTool <$> (toolMap X !! n).
Proof.
  unfold toolMap. change (tools (tracked X)) with (map trackedTool (tools X)).
  assert (H : ∀ (l : list (Tool W)) (m : gmap string (Tool W)),
            foldl (λ m tool, <[tool_name tool := tool]> m) (trackedTool <$> m)
                  (map trackedTool l)
            = trackedTool <$> foldl (λ m tool, <[tool_name tool := tool]> m) m l).
  { induction l as [|t l IH]; intros m; [reflexivity|].
    cbn [map foldl]. rewrite <- IH. f_equal. rewrite fmap_insert. reflexivity. }
  specialize (H (tools X) ∅). rewrite fmap_empty in H. rewrite H.
  apply lookup_fmap.
Qed.

Lemma toolMap_get_tracked (toolName : option string) :
  toolMap_get (tracked X) toolName = trackedTool <$> toolMap_get X toolName.
Proof. destruct toolName as [n|]; [apply toolMap_tracked|reflexivity]. Qed.

Lemma executeTool_attached (s : Streamed) (tc : ToolCall) (st : Store (W:=W)) :
  executeTool (tracked X) (Some (callbackManager (tracked X))) tc (attach s st)
  = match executeTool X (Some (callbackManager X)) tc st with
    | (r, st', o) => (r, attach s st', o)
    end.
Proof.
  destruct (executeTool_run X tc st) as (m & st' & o & E & R). rewrite E.
  unfold executeTool. rewrite bind_eq.
  cbn [handler callbackManager fromHandlers routeHandlers onToolStart
       handleToolStart handleToolEnd].
  rewrite handleToolStart_frame. cbn iota beta.
  rewrite toolMap_get_tracked.
  destruct R as [t v w Hget Hinv|t e w Hget Hinv|Hget]; rewrite Hget; cbn [fmap option_fmap option_map].
  - unfold try_catch. rewrite bind_eq. unfold invokeTool.
    cbn [tool_invoke trackedTool world attach fst snd].
    change (parseArgs (tracked X) (tc_args tc)) with (parseArgs X (tc_args tc)).
    rewrite Hinv. reflexivity.
  - unfold try_catch. rewrite bind_eq. unfold invokeTool.
    cbn [tool_invoke trackedTool world attach fst snd].
    change (parseArgs (tracked X) (tc_args tc)) with (parseArgs X (tc_args tc)).
    rewrite Hinv. reflexivity.
  - reflexivity.
Qed.

Lemma executeTools_attached (s : Streamed) (tcs : list ToolCall) (st : Store (W:=W)) :
  mapM (executeTool (tracked X) (Some (callbackManager (tracked X)))) tcs (attach s st)
  = match mapM (executeTool X (Some (callbackManager X))) tcs st with
    | (r, st', o) => (r, attach s st', o)
    end.
Proof.
  revert st. induction tcs as [|tc tcs IH]; intros st; [reflexivity|].
  cbn [mapM]. rewrite !bind_eq, executeTool_attached.
  destruct (executeTool_run X tc st) as (m & st1 & o1 & E1 & _). rewrite E1.
  cbn iota beta. rewrite !bind_eq, IH.
  destruct (executeTools_run X tcs st1) as (ms & st2 & o2 & E2 & _). rewrite E2.
  reflexivity.
Qed.

Lemma pass_attached (s : Streamed) (messages : list BaseMessage) (st : Store (W:=W)) :
  pass (tracked X) (Some (callbackManager (tracked X))) messages (attach s st)
  = match pass X (Some (callbackManager X)) messages st with
    | (r, st', o) => (r, attach s st', o)
    end.
Proof.
  rewrite !pass_eq.
  change (llm_invoke (tracked X) messages (world (attach s st)))
    with (match llm_invoke X messages (world st) with
          | (outcome, w') => (outcome, (w', s))
          end).
  destruct (llm_invoke X messages (world st)) as [[[response|]|e] w'];
    [|reflexivity|reflexivity].
  change (collectToolCalls (tracked X) response) with (collectToolCalls X response).
  destruct (collectToolCalls X response) as [[|tc tcs]|e]; [| |reflexivity].
  - rewrite !finalResponse_run. reflexivity.
  - change (mkStore (w', s) (sessions (attach s st)))
      with (attach s (mkStore w' (sessions st))).
    rewrite executeTools_attached.
    destruct (executeTools_run X (tc :: tcs) (mkStore w' (sessions st)))
      as (ms & st2 & o2 & E2 & _).
    rewrite E2. reflexivity.
Qed.

Lemma executorLoop_attached (s : Streamed) (n : nat) (messages : list BaseMessage)
    (st : Store (W:=W)) :
  executorLoop (tracked X) (Some (callbackManager (tracked X))) n messages (attach s st)
  = match executorLoop X (Some (callbackManager X)) n messages st with
    | (r, st', o) => (r, attach s st', o)
    end.
Proof.
  revert messages st. induction n as [|n IH]; intros messages st.
  - cbn [executorLoop]. rewrite !bind_eq, !maxIterationsReached_run. reflexivity.
  - cbn [executorLoop]. rewrite !bind_eq, pass_attached.
    destruct (pass X (Some (callbackManager X)) messages st) as [[[[output|messages']|e] st1] o1];
      [reflexivity| |reflexivity].
    rewrite IH.
    destruct (executorLoop X (Some (callbackManager X)) n messages' st1) as [[r st2] o2].
    reflexivity.
Qed.

(** The run of the loop inside a turn of either revision, started from
    the same store. *)
Lemma revisions_share_the_run (s : Streamed) (message sid : string) (st : Store (W:=W)) :
  manual X →
  ∃ r st2 o,
    LoopRun X maxIterations
      (chat_history (turnInput X st sid message) ++ [HumanMessage message])
      (committed X st sid user message) r st2 o
    ∧ turn X message sid st
      = match r with
        | Normal (ws, output) =>
            (Normal tt, committed X st2 sid assistant output,
             ObsAddMessage sid (stamped X st user message)
               :: o ++ [ObsAddMessage sid (stamped X st2 assistant output);
                        doneFrame X; ObsEnd])
        | Thrown e =>
            (Thrown e, st2, ObsAddMessage sid (stamped X st user message) :: o)
        end
    ∧ match r with
      | Normal (ws, output) =>
          nonempty (trim output) = true →
          trackingTurn X message sid (attach s st)
          = (Normal tt,
             attach (mkStreamed false EmptyString) (committed X st2 sid assistant output),
             ObsAddMessage sid (stamped X st user message)
               :: o ++ [ObsSSE "token" output;
                        ObsAddMessage sid (stamped X st2 assistant output);
                        doneFrame X; ObsEnd])
      | Thrown e =>
          trackingTurn X message sid (attach s st)
          = (Thrown e, attach (mkStreamed false EmptyString) st2,
             ObsAddMessage sid (stamped X st user message) :: o)
      end.
Proof.
  intros Hm.
  destruct (gemini_run_loop X (turnInput X st sid message)
              (committed X st sid user message)) as (r & st2 & o & E & R).
  exists r, st2, o. split; [exact R|]. split.
  { rewrite (turn_manual X message sid st Hm), E. destruct r as [[ws output]|e]; reflexivity. }
  pose proof (loop_tokens X _ _ _ _ _ _ R) as Htok.
  destruct (trackingTurn_manual X message sid (attach s st) Hm)
    as (rB & stB & oB & EB & _ & Hrun).
  change (committed (tracked X) (attach s st) sid user message)
    with (attach s (committed X st sid user message)) in EB, Hrun.
  change (chat_history (turnInput (tracked X) (attach s st) sid message))
    with (chat_history (turnInput X st sid message)) in EB.
  rewrite executorLoop_attached in EB.
  unfold gemini_run in E.
  change (maxIterations - 0) with maxIterations in E.
  change (input (turnInput X st sid message)) with message in E.
  rewrite E in EB. injection EB as <- <- <-.
  rewrite Htok in Hrun. cbn [foldl] in Hrun.
  destruct r as [[ws output]|e].
  - intros Hshown.
    assert (Hne : nonempty output = true) by (destruct output; [discriminate|reflexivity]).
    rewrite (Hrun output [ObsSSE "token" output]).
    + unfold noFinalResponse, orElse. rewrite Hne. cbn [app]. reflexivity.
    + unfold determineFinalResponse. cbn [tokensStreamed andb negb].
      rewrite Hshown. reflexivity.
  - rewrite Hrun. reflexivity.
Qed.

End Conservative.


